(** * Incident-response pipeline: detection, classification, remediation,
      verification and learning

    A shallow embedding of the Go packages [models], [monitor], [ai],
    [service], [memory], [remediation] and of the orchestrator in [main],
    followed by the properties established about them.

    Conventions of the embedding:
    - a Go [string] is a [string] (a sequence of bytes); the string-based
      enumerations [IncidentType] and [IncidentStatus] stay strings, so that
      values outside the declared constants remain representable;
    - [int] lengths and indices are in [Z]; an out-of-range slice expression
      (a run-time panic in Go) is [None];
    - [time.Time] is a logical instant in [Z];
    - [map[string]T] is a [gmap string T];
    - [*models.Incident] is a location in a heap of incident objects, so the
      pointer kept by the memory store and the one held by the orchestrator
      denote the same object;
    - everything obtained from the outside world (HTTP answers of the managed
      service, answers of the diagnosis source, fresh identifiers) is an input
      of the model. *)

From Stdlib Require Import ZArith Lia Bool.
From stdpp Require Import gmap strings list fin_maps pretty.

#[local] Set Warnings "-register-all".
#[local] Open Scope Z_scope.

(** ** Package [models] *)

Module Models.

Definition IncidentType := string.

Definition ServiceDown : IncidentType := "SERVICE_DOWN".
Definition ConfigError : IncidentType := "CONFIG_ERROR".
Definition ResourceExhaustion : IncidentType := "RESOURCE_EXHAUSTION".
Definition DependencyFailure : IncidentType := "DEPENDENCY_FAILURE".

Definition IncidentStatus := string.

Definition StatusDetected : IncidentStatus := "DETECTED".
Definition StatusAnalyzing : IncidentStatus := "ANALYZING".
Definition StatusFixing : IncidentStatus := "FIXING".
Definition StatusResolved : IncidentStatus := "RESOLVED".
Definition StatusFailed : IncidentStatus := "FAILED".

(** How an incident was fixed. *)
Record Resolution := mkResolution {
  res_FixType : string;
  res_Description : string;
  res_Steps : list string;
  res_Code : string;
  res_Success : bool
}.

(** The answer of the diagnosis source.  [Confidence] is a [float64] in the
    source; it is kept in hundredths and never inspected. *)
Record AIResponse := mkAIResponse {
  ai_Diagnosis : string;
  ai_FixType : string;
  ai_FixSteps : list string;
  ai_Code : string;
  ai_Confidence : Z
}.

Record HealthStatus := mkHealthStatus {
  Healthy : bool;
  Timestamp : Z;
  Message : string;
  StatusCode : Z
}.

Record Incident := mkIncident {
  ID : string;
  Type_ : IncidentType;
  Status : IncidentStatus;
  DetectedAt : Z;
  ResolvedAt : option Z;
  Symptoms : list string;
  Logs : list string;
  Diagnosis : string;
  Resolution_ : option Resolution;
  UsedCachedFix : bool
}.

End Models.

Import Models.

(** ** Go strings and short-circuit evaluation *)

Module GoString.

(** [len(s)] *)
Definition len (s : string) : Z := Z.of_nat (String.length s).

(** [s[lo:hi]]; the bounds check of the Go run time is explicit. *)
Definition slice (s : string) (lo hi : Z) : option string :=
  if (0 <=? lo) && (lo <=? hi) && (hi <=? len s)
  then Some (String.substring (Z.to_nat lo) (Z.to_nat (hi - lo)) s)
  else None.

(** [a && b] and [a || b] over computations that may panic: the right
    operand is evaluated only when the left one does not decide. *)
Definition and_then (a b : option bool) : option bool :=
  match a with
  | Some true => b
  | Some false => Some false
  | None => None
  end.

Definition or_else (a b : option bool) : option bool :=
  match a with
  | Some true => Some true
  | Some false => b
  | None => None
  end.

(** [x == y] where [x] is a slice expression. *)
Definition slice_eq (x : option string) (y : string) : option bool :=
  match x with
  | Some x' => Some (String.eqb x' y)
  | None => None
  end.

(** [strings.Contains] *)
Fixpoint Contains (s substr : string) : bool :=
  String.prefix substr s ||
  match s with
  | String _ s' => Contains s' substr
  | EmptyString => false
  end.

Definition lower_byte (c : Ascii.ascii) : Ascii.ascii :=
  let n := Ascii.N_of_ascii c in
  if ((65 <=? n) && (n <=? 90))%N then Ascii.ascii_of_N (n + 32) else c.

(** [strings.ToLower] on ASCII text: the capitals [A] to [Z] are lowered
    byte by byte.  The Go function also maps letters outside ASCII (such
    as U+0130 or U+212A), which are left as they are here; the properties
    that go through it are about ASCII steps or hold for any lowering. *)
Fixpoint ToLower (s : string) : string :=
  match s with
  | String c s' => String (lower_byte c) (ToLower s')
  | EmptyString => EmptyString
  end.

End GoString.

Import GoString.

Notation "a '&&!' b" := (and_then a b) (at level 40, left associativity).
Notation "a '||!' b" := (or_else a b) (at level 50, left associativity).

(** ** Package [monitor] *)

Module Monitor.

(** The body of the [for] loop of [hasSubstring], [n] iterations being
    left and [i] being the loop variable. *)
Fixpoint hasSubstring_loop (s substr : string) (n : nat) (i : Z) : option bool :=
  match n with
  | O => Some false
  | S n' =>
      match slice_eq (slice s i (i + len substr)) substr with
      | Some true => Some true
      | Some false => hasSubstring_loop s substr n' (i + 1)
      | None => None
      end
  end.

(** [for i := 0; i <= len(s)-len(substr); i++]: the loop variable ranges
    over [0 .. len(s)-len(substr)], which is empty when the bound is
    negative. *)
Definition hasSubstring (s substr : string) : option bool :=
  hasSubstring_loop s substr (Z.to_nat (len s - len substr + 1)) 0.

Definition contains (s substr : string) : option bool :=
  Some (len s >=? len substr) &&!
    (Some (String.eqb s substr) ||!
     (Some (len s >? len substr) &&!
        (slice_eq (slice s 0 (len substr)) substr ||!
         slice_eq (slice s (len s - len substr) (len s)) substr ||!
         (Some (len s >? len substr) &&! hasSubstring s substr)))).

(** A decoded JSON document, as [encoding/json] stores it in an
    [interface{}].  Numbers are [float64] values in the source; no code
    below looks inside them. *)
Inductive JSON :=
  | JNull
  | JBool (b : bool)
  | JNumber (z : Z)
  | JString (s : string)
  | JArray (l : list JSON)
  | JObject (m : gmap string JSON).

(** The answer to [GET /health]. *)
Inductive HealthResponse :=
  | HealthGetError (err : string)
      (** [client.Get] returned an error *)
  | HealthUndecodable (code : Z)
      (** the body is not a [HealthStatus] document *)
  | HealthDecoded (code : Z) (body : HealthStatus).

(** The answer to [GET /status]: the decoded object, or [None] when the
    request or the decoding failed. *)
Definition StatusResponse := option (gmap string JSON).

(** What the monitor obtains from the outside during one tick. *)
Record Observation := mkObservation {
  obs_now : Z;                       (** [time.Now()] *)
  obs_health : HealthResponse;       (** [GET /health] *)
  obs_status : StatusResponse;       (** [GET /status] of [analyzeSymptoms] *)
  obs_status_logs : StatusResponse;  (** [GET /status] of [fetchLogs] *)
  obs_uuid : string                  (** [uuid.New().String()] *)
}.

Definition checkHealth (now : Z) (resp : HealthResponse) : HealthStatus :=
  match resp with
  | HealthGetError err =>
      {| Healthy := false; Timestamp := now;
         Message := "Health check failed: " +:+ err; StatusCode := 0 |}
  | HealthUndecodable code =>
      {| Healthy := false; Timestamp := now;
         Message := "Failed to parse health response"; StatusCode := code |}
  | HealthDecoded code healthStatus =>
      {| Healthy := Healthy healthStatus;
         Timestamp := Timestamp healthStatus;
         Message := Message healthStatus;
         StatusCode := code |}
  end.

Definition fetchServiceStatus (resp : StatusResponse) : gmap string JSON :=
  match resp with
  | Some status => status
  | None => ∅
  end.

(** [v.(string); ok && str == lit] *)
Definition is_string (v : JSON) (lit : string) : bool :=
  match v with
  | JString str => String.eqb str lit
  | _ => false
  end.

(** The loop over [recent_logs] of [analyzeSymptoms]: [Some true] when it
    returns [ResourceExhaustion] from inside the loop. *)
Fixpoint scanLogs (logs : list JSON) : option bool :=
  match logs with
  | [] => Some false
  | logEntry :: rest =>
      match logEntry with
      | JString str =>
          match contains str "resource" ||! contains str "port blocked"
                ||! contains str "memory" with
          | Some true => Some true
          | Some false => scanLogs rest
          | None => None
          end
      | _ => scanLogs rest
      end
  end.

Definition analyzeSymptoms (health : HealthStatus) (resp : StatusResponse)
  : option (IncidentType * list string) :=
  let symptoms :=
    [ "Health check returned status code: " +:+ pretty (StatusCode health);
      Message health ] in
  let status := fetchServiceStatus resp in
  (* everything below the [config] block *)
  let after_config : option (IncidentType * list string) :=
    match status !! "running" with
    | Some (JBool false) =>
        Some (ServiceDown, symptoms ++ ["Service process not running"])
    | _ =>
        let default :=
          Some (ServiceDown, symptoms ++ ["Service health check failing"]) in
        match status !! "recent_logs" with
        | Some (JArray logs) =>
            if (Z.of_nat (length logs) >? 0) then
              match scanLogs logs with
              | Some true =>
                  Some (ResourceExhaustion,
                        symptoms ++ ["Resource exhaustion detected in logs"])
              | Some false => default
              | None => None
              end
            else default
        | _ => default
        end
    end in
  (* the [timeout] block *)
  let after_database_url (config : gmap string JSON) :=
    match config !! "timeout" with
    | Some timeout =>
        if is_string timeout "not-a-number" then
          Some (ConfigError,
                symptoms ++ ["Invalid timeout configuration detected"])
        else after_config
    | None => after_config
    end in
  match status !! "config" with
  | Some (JObject config) =>
      match config !! "database_url" with
      | Some dbURL =>
          if is_string dbURL "invalid::url::format" || is_string dbURL "" then
            Some (ConfigError,
                  symptoms ++ ["Invalid database URL configuration detected"])
          else if is_string dbURL "unreachable-host:9999" then
            Some (DependencyFailure, symptoms ++ ["Database host unreachable"])
          else after_database_url config
      | None => after_database_url config
      end
  | _ => after_config
  end.

(** [strLogs]: the string entries of [recent_logs], in order. *)
Fixpoint stringEntries (logs : list JSON) : list string :=
  match logs with
  | [] => []
  | JString str :: rest => str :: stringEntries rest
  | _ :: rest => stringEntries rest
  end.

Definition fetchLogs (resp : StatusResponse) : list string :=
  match fetchServiceStatus resp !! "recent_logs" with
  | Some (JArray logs) => stringEntries logs
  | _ => []
  end.

Definition createIncident (health : HealthStatus) (o : Observation)
  : option Incident :=
  match analyzeSymptoms health (obs_status o) with
  | Some (incidentType, symptoms) =>
      let logs := fetchLogs (obs_status_logs o) in
      Some {| ID := obs_uuid o;
              Type_ := incidentType;
              Status := StatusDetected;
              DetectedAt := obs_now o;
              ResolvedAt := None;
              Symptoms := symptoms;
              Logs := logs;
              Diagnosis := "";
              Resolution_ := None;
              UsedCachedFix := false |}
  | None => None
  end.

(** One iteration of the [select] loop on the ticker branch: the incidents
    sent on [incidentChannel] and the new value of [previousHealthy]. *)
Definition monitorTick (previousHealthy : bool) (o : Observation)
  : option (list Incident * bool) :=
  let health := checkHealth (obs_now o) (obs_health o) in
  if previousHealthy && negb (Healthy health) then
    match createIncident health o with
    | Some incident => Some ([incident], Healthy health)
    | None => None
    end
  else if negb previousHealthy && Healthy health then
    (* the recovery is logged, nothing is sent *)
    Some ([], Healthy health)
  else Some ([], Healthy health).

(** The loop run over the ticks that fire before the context is cancelled
    or [Stop] is called; the result is the sequence of incidents sent on
    [incidentChannel], in order. *)
Fixpoint monitorLoop_from (previousHealthy : bool) (ticks : list Observation)
  : option (list Incident) :=
  match ticks with
  | [] => Some []
  | o :: rest =>
      match monitorTick previousHealthy o with
      | Some (sent, healthy) =>
          match monitorLoop_from healthy rest with
          | Some later => Some (sent ++ later)
          | None => None
          end
      | None => None
      end
  end.

Definition monitorLoop (ticks : list Observation) : option (list Incident) :=
  monitorLoop_from true ticks.

End Monitor.

(** ** Package [ai] *)

Module AI.

(** A Go [error] or a value. *)
Inductive result (A : Type) :=
  | Ok (a : A)
  | Err (msg : string).
Arguments Ok {A} a.
Arguments Err {A} msg.

Definition is_err {A : Type} (r : result A) : bool :=
  match r with Ok _ => false | Err _ => true end.

Definition validFixTypes : gmap string bool :=
  <["restart" := true]> (<["config" := true]> (<["code" := true]> ∅)).

(** [parseResponse], from the point where [json.Unmarshal] has read the
    cleaned-up content: [decoded] is the struct it filled in (a field absent
    from the document keeps its zero value) or its error. *)
Definition parseResponse (decoded : result AIResponse) : result AIResponse :=
  match decoded with
  | Err e => Err ("JSON parsing error: " +:+ e)
  | Ok response =>
      if String.eqb (ai_Diagnosis response) "" then
        Err "missing diagnosis in AI response"
      else if String.eqb (ai_FixType response) "" then
        Err "missing fix_type in AI response"
      else if negb (default false (validFixTypes !! ai_FixType response)) then
        Err ("invalid fix_type: " +:+ ai_FixType response)
      else if (Z.of_nat (length (ai_FixSteps response)) =? 0) then
        Err "missing fix_steps in AI response"
      else Ok response
  end.

(** The outcome of [CreateChatCompletion]. *)
Inductive ChatCompletion :=
  | ChatError (err : string)
  | ChatNoChoices
  | ChatContent (decoded : result AIResponse).

Definition AnalyzeIncident (reply : ChatCompletion) : result AIResponse :=
  match reply with
  | ChatError err => Err ("OpenAI API error: " +:+ err)
  | ChatNoChoices => Err "no response from OpenAI"
  | ChatContent decoded =>
      match parseResponse decoded with
      | Err e => Err ("failed to parse AI response: " +:+ e)
      | Ok aiResponse => Ok aiResponse
      end
  end.

Definition GetQuickAnalysis (incident : Incident) : AIResponse :=
  if String.eqb (Type_ incident) ServiceDown then
    {| ai_Diagnosis := "Service process has crashed or stopped responding";
       ai_FixType := "restart";
       ai_FixSteps := [ "Stop the service if it's still partially running";
                        "Restart the service process";
                        "Verify health check passes" ];
       ai_Code := "";
       ai_Confidence := 90 |}
  else if String.eqb (Type_ incident) ConfigError then
    {| ai_Diagnosis := "Configuration file contains invalid values";
       ai_FixType := "config";
       ai_FixSteps := [ "Restore database_url to 'localhost:5432'";
                        "Reset timeout to '30s'";
                        "Restart service to apply changes" ];
       ai_Code := "";
       ai_Confidence := 85 |}
  else if String.eqb (Type_ incident) DependencyFailure then
    {| ai_Diagnosis := "External dependency (database) is unreachable";
       ai_FixType := "config";
       ai_FixSteps := [ "Update database_url to valid host";
                        "Verify database is running";
                        "Restart service to reconnect" ];
       ai_Code := "";
       ai_Confidence := 80 |}
  else if String.eqb (Type_ incident) ResourceExhaustion then
    {| ai_Diagnosis :=
         "System resources exhausted (port blocked or memory full)";
       ai_FixType := "restart";
       ai_FixSteps := [ "Stop the service";
                        "Clear any blocked resources";
                        "Restart service on clean port" ];
       ai_Code := "";
       ai_Confidence := 75 |}
  else
    {| ai_Diagnosis := "Unknown incident type";
       ai_FixType := "restart";
       ai_FixSteps := [ "Attempt service restart";
                        "Monitor logs for errors" ];
       ai_Code := "";
       ai_Confidence := 50 |}.

End AI.

Import Monitor AI.

(** ** The run-time state shared by [service], [memory], [remediation] and
       [main] *)

Module Runtime.

(** The address of an incident object. *)
Definition loc := positive.

(** An assignment to a field of an incident object. *)
Inductive FieldWrite :=
  | WStatus (status : IncidentStatus)
  | WResolvedAt (t : Z)
  | WDiagnosis (diagnosis : string)
  | WResolution (resolution : Resolution)
  | WUsedCachedFix (b : bool).

Definition apply_write (fw : FieldWrite) (i : Incident) : Incident :=
  match fw with
  | WStatus status =>
      {| ID := ID i; Type_ := Type_ i; Status := status;
         DetectedAt := DetectedAt i; ResolvedAt := ResolvedAt i;
         Symptoms := Symptoms i; Logs := Logs i; Diagnosis := Diagnosis i;
         Resolution_ := Resolution_ i; UsedCachedFix := UsedCachedFix i |}
  | WResolvedAt t =>
      {| ID := ID i; Type_ := Type_ i; Status := Status i;
         DetectedAt := DetectedAt i; ResolvedAt := Some t;
         Symptoms := Symptoms i; Logs := Logs i; Diagnosis := Diagnosis i;
         Resolution_ := Resolution_ i; UsedCachedFix := UsedCachedFix i |}
  | WDiagnosis diagnosis =>
      {| ID := ID i; Type_ := Type_ i; Status := Status i;
         DetectedAt := DetectedAt i; ResolvedAt := ResolvedAt i;
         Symptoms := Symptoms i; Logs := Logs i; Diagnosis := diagnosis;
         Resolution_ := Resolution_ i; UsedCachedFix := UsedCachedFix i |}
  | WResolution resolution =>
      {| ID := ID i; Type_ := Type_ i; Status := Status i;
         DetectedAt := DetectedAt i; ResolvedAt := ResolvedAt i;
         Symptoms := Symptoms i; Logs := Logs i; Diagnosis := Diagnosis i;
         Resolution_ := Some resolution; UsedCachedFix := UsedCachedFix i |}
  | WUsedCachedFix b =>
      {| ID := ID i; Type_ := Type_ i; Status := Status i;
         DetectedAt := DetectedAt i; ResolvedAt := ResolvedAt i;
         Symptoms := Symptoms i; Logs := Logs i; Diagnosis := Diagnosis i;
         Resolution_ := Resolution_ i; UsedCachedFix := b |}
  end.

(** The fields of [service.TargetService] that the pipeline reads or
    writes; [server] tells whether the [*http.Server] is non-nil. *)
Record TargetService := mkTargetService {
  isHealthy : bool;
  isRunning : bool;
  config : gmap string string;
  server : bool
}.

(** The answers of the outside world, by order of request. *)
Record Env := mkEnv {
  health_answers : nat -> HealthResponse;  (** [GET /health] *)
  chat_answers : nat -> ChatCompletion;    (** [CreateChatCompletion] *)
  close_answers : nat -> result unit       (** [server.Close()] *)
}.

Record World := mkWorld {
  heap : gmap loc Incident;          (** the incident objects *)
  writes : list (loc * FieldWrite);  (** the field assignments made so far *)
  incidents : gmap string loc;       (** [Store.incidents] *)
  fixes : gmap string Resolution;    (** [Store.fixes] *)
  target : TargetService;
  clock : Z;                         (** [time.Now()], in milliseconds *)
  probes : nat;                      (** health requests made so far *)
  ai_calls : nat;                    (** chat completions requested so far *)
  closes : nat;                      (** [server.Close()] calls so far *)
  env : Env
}.

Definition set_heap (f : gmap loc Incident -> gmap loc Incident) (w : World) :=
  mkWorld (f (heap w)) (writes w) (incidents w) (fixes w) (target w) (clock w)
          (probes w) (ai_calls w) (closes w) (env w).
Definition set_writes (f : list (loc * FieldWrite) -> list (loc * FieldWrite))
           (w : World) :=
  mkWorld (heap w) (f (writes w)) (incidents w) (fixes w) (target w) (clock w)
          (probes w) (ai_calls w) (closes w) (env w).
Definition set_incidents (f : gmap string loc -> gmap string loc) (w : World) :=
  mkWorld (heap w) (writes w) (f (incidents w)) (fixes w) (target w) (clock w)
          (probes w) (ai_calls w) (closes w) (env w).
Definition set_fixes (f : gmap string Resolution -> gmap string Resolution)
           (w : World) :=
  mkWorld (heap w) (writes w) (incidents w) (f (fixes w)) (target w) (clock w)
          (probes w) (ai_calls w) (closes w) (env w).
Definition set_target (f : TargetService -> TargetService) (w : World) :=
  mkWorld (heap w) (writes w) (incidents w) (fixes w) (f (target w)) (clock w)
          (probes w) (ai_calls w) (closes w) (env w).
Definition set_clock (f : Z -> Z) (w : World) :=
  mkWorld (heap w) (writes w) (incidents w) (fixes w) (target w) (f (clock w))
          (probes w) (ai_calls w) (closes w) (env w).
Definition set_probes (f : nat -> nat) (w : World) :=
  mkWorld (heap w) (writes w) (incidents w) (fixes w) (target w) (clock w)
          (f (probes w)) (ai_calls w) (closes w) (env w).
Definition set_ai_calls (f : nat -> nat) (w : World) :=
  mkWorld (heap w) (writes w) (incidents w) (fixes w) (target w) (clock w)
          (probes w) (f (ai_calls w)) (closes w) (env w).
Definition set_closes (f : nat -> nat) (w : World) :=
  mkWorld (heap w) (writes w) (incidents w) (fixes w) (target w) (clock w)
          (probes w) (ai_calls w) (f (closes w)) (env w).

(** Computations over the world. *)
Definition M (A : Type) : Type := World -> A * World.

Definition ret {A : Type} (x : A) : M A := λ w, (x, w).

Definition bind {A B : Type} (m : M A) (f : A -> M B) : M B :=
  λ w, let (x, w') := m w in f x w'.

Definition gets {A : Type} (f : World -> A) : M A := λ w, (f w, w).
Definition modify (f : World -> World) : M unit := λ w, (tt, f w).

(** The zero value of [models.Incident]. *)
Definition zeroIncident : Incident :=
  {| ID := ""; Type_ := ""; Status := ""; DetectedAt := 0; ResolvedAt := None;
     Symptoms := []; Logs := []; Diagnosis := ""; Resolution_ := None;
     UsedCachedFix := false |}.

(** [*incident]; the pointers handled below are the non-nil ones that
    [createIncident] returns, and the properties are stated for allocated
    pointers. *)
Definition deref (incident : loc) (w : World) : Incident :=
  default zeroIncident (heap w !! incident).

(** [incident.f = v] *)
Definition write (incident : loc) (fw : FieldWrite) : M unit :=
  modify (λ w, set_writes (λ l, l ++ [(incident, fw)])
                 (set_heap (alter (apply_write fw) incident) w)).

(** [time.Sleep(d)], [d] in milliseconds. *)
Definition sleep (d : Z) : M unit := modify (set_clock (λ t, t + d)).

(** [time.Now()] *)
Definition now : M Z := gets clock.

End Runtime.

Import Runtime.

Notation "'let*' x ':=' m 'in' k" := (bind m (fun x => k))
  (at level 10, x name, m at level 100, k at level 200).
Notation "m ';;' k" := (bind m (fun _ => k))
  (at level 100, k at level 200, right associativity).

(** ** Package [service] *)

Module Service.

Definition Start : M (result unit) :=
  let* running := gets (λ w, isRunning (target w)) in
  if running then ret (Err "service already running")
  else
    modify (set_target (λ ts,
      {| isHealthy := true; isRunning := true;
         config := config ts; server := true |}));;
    sleep 500;;
    ret (Ok tt).

(** [ts.server.Close()] *)
Definition server_Close : M (result unit) :=
  let* answer := gets (λ w, close_answers (env w) (closes w)) in
  modify (set_closes S);;
  ret answer.

Definition Stop : M (result unit) :=
  let* running := gets (λ w, isRunning (target w)) in
  if negb running then ret (Err "service not running")
  else
    modify (set_target (λ ts,
      {| isHealthy := false; isRunning := false;
         config := config ts; server := server ts |}));;
    let* has_server := gets (λ w, server (target w)) in
    if has_server then server_Close else ret (Ok tt).

Definition IsHealthy : M bool :=
  gets (λ w, isHealthy (target w) && isRunning (target w)).

Definition SetConfig (key value : string) : M unit :=
  modify (set_target (λ ts,
    {| isHealthy := isHealthy ts; isRunning := isRunning ts;
       config := <[key := value]> (config ts); server := server ts |})).

Definition Restart : M (result unit) :=
  let* err := Stop in
  let* running := gets (λ w, isRunning (target w)) in
  if is_err err && running then ret err
  else
    sleep 1000;;
    Start.

End Service.

(** ** Package [memory] *)

Module Memory.

(** [StoreIncident]; writing the document to disk ([save]) is left out,
    and with it the error that every caller in [main] at most logs. *)
Definition StoreIncident (incident : loc) : M unit :=
  let* i := gets (deref incident) in
  modify (set_incidents (<[ID i := incident]>));;
  match Resolution_ i with
  | Some resolution =>
      if String.eqb (Status i) StatusResolved && res_Success resolution then
        modify (set_fixes (<[Type_ i := resolution]>))
      else ret tt
  | None => ret tt
  end.

Definition GetLearnedFix (incidentType : IncidentType)
  : M (option Resolution) :=
  gets (λ w, fixes w !! incidentType).

Definition HasLearnedFix (incidentType : IncidentType) : M bool :=
  gets (λ w, bool_decide (is_Some (fixes w !! incidentType))).

(** [UpdateIncidentStatus]; as for [StoreIncident], writing the document
    to disk is left out.  For a known identifier the code returns the
    result of [save], which no caller reads: the [Ok] below stands for it,
    and the properties say nothing of the value returned in that case. *)
Definition UpdateIncidentStatus (id : string) (status : IncidentStatus)
  : M (result unit) :=
  let* found := gets (λ w, incidents w !! id) in
  match found with
  | None => ret (Err ("incident not found: " +:+ id))
  | Some incident =>
      write incident (WStatus status);;
      (if String.eqb status StatusResolved then
         let* t := now in write incident (WResolvedAt t)
       else ret tt);;
      ret (Ok tt)
  end.

End Memory.

(** ** Package [remediation] *)

Module Remediation.

Import Service.

Definition executeRestart (steps : list string) : M (result unit) :=
  (* [e.targetService.IsHealthy() || true]: the stop is always attempted *)
  let* _ := IsHealthy in
  let* _ := Stop in
  sleep 500;;
  let* err := Start in
  match err with
  | Err e => ret (Err ("failed to start service: " +:+ e))
  | Ok _ =>
      sleep 1000;;
      ret (Ok tt)
  end.

Definition applyConfigStep (step : string) : M (result unit) :=
  let step := ToLower step in
  if (Contains step "database_url" || Contains step "database url")
     && (Contains step "localhost:5432" || Contains step "restore") then
    SetConfig "database_url" "localhost:5432";;
    ret (Ok tt)
  else if Contains step "timeout"
          && (Contains step "30s" || Contains step "restore"
              || Contains step "reset") then
    SetConfig "timeout" "30s";;
    ret (Ok tt)
  else if (Contains step "max_retries" || Contains step "retries")
          && (Contains step "3" || Contains step "restore") then
    SetConfig "max_retries" "3";;
    ret (Ok tt)
  else if Contains step "restart" then ret (Ok tt)
  else ret (Ok tt).

(** The loop of [executeConfigFix] over the steps; an error of a step is
    only logged. *)
Fixpoint applyConfigSteps (steps : list string) : M unit :=
  match steps with
  | [] => ret tt
  | step :: rest =>
      let* _ := applyConfigStep step in
      applyConfigSteps rest
  end.

Definition executeConfigFix (steps : list string) : M (result unit) :=
  applyConfigSteps steps;;
  Restart.

Definition executeCodeFix (aiResponse : AIResponse) : M (result unit) :=
  Restart.

Definition ExecuteFix (incident : loc) (aiResponse : AIResponse)
  : M (Resolution * result unit) :=
  let resolution (success : bool) :=
    {| res_FixType := ai_FixType aiResponse;
       res_Description := ai_Diagnosis aiResponse;
       res_Steps := ai_FixSteps aiResponse;
       res_Code := ai_Code aiResponse;
       res_Success := success |} in
  let* err :=
    if String.eqb (ai_FixType aiResponse) "restart" then
      executeRestart (ai_FixSteps aiResponse)
    else if String.eqb (ai_FixType aiResponse) "config" then
      executeConfigFix (ai_FixSteps aiResponse)
    else if String.eqb (ai_FixType aiResponse) "code" then
      executeCodeFix aiResponse
    else ret (Err ("unknown fix type: " +:+ ai_FixType aiResponse)) in
  match err with
  | Err e => ret (resolution false, Err e)
  | Ok _ => ret (resolution true, Ok tt)
  end.

Definition ApplyCachedFix (incident : loc) (cachedResolution : Resolution)
  : M (result unit) :=
  if String.eqb (res_FixType cachedResolution) "restart" then
    executeRestart (res_Steps cachedResolution)
  else if String.eqb (res_FixType cachedResolution) "config" then
    executeConfigFix (res_Steps cachedResolution)
  else if String.eqb (res_FixType cachedResolution) "code" then
    Restart
  else ret (Err ("unknown fix type: " +:+ res_FixType cachedResolution)).

End Remediation.

(** ** Package [main]: the orchestrator *)

Module Main.

Import Memory Remediation.

(** [o.detector.VerifyResolution()]: one health request. *)
Definition VerifyResolution : M bool :=
  let* answer := gets (λ w, health_answers (env w) (probes w)) in
  let* t := now in
  modify (set_probes S);;
  ret (Healthy (checkHealth t answer)).

(** The loop of [verifyResolution], [n] iterations being left and [i]
    being the loop variable. *)
Fixpoint verifyResolution_loop (n : nat) (i : Z) : M bool :=
  match n with
  | O => ret true
  | S n' =>
      (if i >? 0 then sleep 1000 else ret tt);;
      let* healthy := VerifyResolution in
      if healthy then verifyResolution_loop n' (i + 1)
      else ret false
  end.

(** [for i := 0; i < 3; i++] *)
Definition verifyResolution : M bool := verifyResolution_loop 3 0.

(** [o.analyzer.AnalyzeIncident(ctx, incident)]: one chat completion. *)
Definition callAnalyzeIncident (incident : loc) : M (result AIResponse) :=
  let* reply := gets (λ w, chat_answers (env w) (ai_calls w)) in
  modify (set_ai_calls S);;
  ret (AnalyzeIncident reply).

(** The choice of the plan in [processIncident] (the block guarded by
    [o.useAI]). *)
Definition analyze (useAI : bool) (incident : loc) : M AIResponse :=
  if useAI then
    let* answer := callAnalyzeIncident incident in
    match answer with
    | Err _ =>
        let* i := gets (deref incident) in
        ret (GetQuickAnalysis i)
    | Ok aiResponse => ret aiResponse
    end
  else
    let* i := gets (deref incident) in
    ret (GetQuickAnalysis i).

(** [processIncident] from the comment "No cached fix or cached fix
    failed - use AI" to its end. *)
Definition diagnose (useAI : bool) (incident : loc) : M (result unit) :=
  write incident (WStatus StatusAnalyzing);;
  let* id := gets (λ w, ID (deref incident w)) in
  let* _ := UpdateIncidentStatus id StatusAnalyzing in
  let* aiResponse := analyze useAI incident in
  write incident (WDiagnosis (ai_Diagnosis aiResponse));;
  write incident (WStatus StatusFixing);;
  let* id := gets (λ w, ID (deref incident w)) in
  let* _ := UpdateIncidentStatus id StatusFixing in
  let* fixed := ExecuteFix incident aiResponse in
  match fixed.2 with
  | Err e =>
      write incident (WStatus StatusFailed);;
      StoreIncident incident;;
      ret (Err ("failed to execute fix: " +:+ e))
  | Ok _ =>
      write incident (WResolution fixed.1);;
      sleep 2000;;
      let* verified := verifyResolution in
      if verified then
        write incident (WStatus StatusResolved);;
        let* t := now in
        write incident (WResolvedAt t);;
        StoreIncident incident;;
        ret (Ok tt)
      else
        write incident (WStatus StatusFailed);;
        StoreIncident incident;;
        ret (Ok tt)
  end.

Definition processIncident (useAI : bool) (incident : loc)
  : M (result unit) :=
  StoreIncident incident;;
  let* incidentType := gets (λ w, Type_ (deref incident w)) in
  let* learned := GetLearnedFix incidentType in
  match learned with
  | Some cachedFix =>
      write incident (WUsedCachedFix true);;
      let* err := ApplyCachedFix incident cachedFix in
      match err with
      | Err _ => diagnose useAI incident
      | Ok _ =>
          let* verified := verifyResolution in
          if verified then
            write incident (WStatus StatusResolved);;
            let* t := now in
            write incident (WResolvedAt t);;
            write incident (WResolution cachedFix);;
            StoreIncident incident;;
            ret (Ok tt)
          else diagnose useAI incident
      end
  | None => diagnose useAI incident
  end.

(** [handleIncidents]: the incidents received on the channel are
    processed one after the other. *)
Fixpoint handleIncidents (useAI : bool) (received : list loc) : M unit :=
  match received with
  | [] => ret tt
  | incident :: rest =>
      let* _ := processIncident useAI incident in
      handleIncidents useAI rest
  end.

End Main.

Import Service Memory Remediation Main.

(** * Vocabulary of the properties

    The notions used to state the properties of the embedding; none of them
    is part of the program. *)

(** ** Substrings *)

(** [substr] occurs in [s] as a contiguous block. *)
Definition occurs (substr s : string) : Prop :=
  exists pre post : string, s = pre +:+ substr +:+ post.

(** ** Samples, runs and rising edges *)

(** The health sample taken at a tick. *)
Definition sample (o : Observation) : bool :=
  Healthy (checkHealth (obs_now o) (obs_health o)).

(** Run-length encoding: the maximal blocks of equal consecutive samples. *)
Fixpoint rle (l : list bool) : list (bool * nat) :=
  match l with
  | [] => []
  | b :: l' =>
      match rle l' with
      | (b', n) :: r =>
          if Bool.eqb b b' then (b, S n) :: r else (b, 1%nat) :: (b', n) :: r
      | [] => [(b, 1%nat)]
      end
  end.

(** The number of maximal runs of consecutive unhealthy samples. *)
Definition unhealthy_runs (samples : list bool) : nat :=
  length (filter (λ blk, negb blk.1 = true) (rle samples)).

(** Every tick paired with the sample that preceded it, the state before
    the first tick being healthy; the rising edges are the ticks whose
    predecessor is healthy and whose own sample is not. *)
Definition with_previous (prev : bool) (ticks : list Observation)
  : list (bool * Observation) :=
  zip (prev :: map sample ticks) ticks.

Definition rising_edges_from (prev : bool) (ticks : list Observation)
  : list Observation :=
  (filter (λ po, po.1 && negb (sample po.2) = true)
          (with_previous prev ticks)).*2.

Definition rising_edges (ticks : list Observation) : list Observation :=
  rising_edges_from true ticks.

(** [incident] is the incident built from the tick [o]. *)
Definition created_at (incident : Incident) (o : Observation) : Prop :=
  createIncident (checkHealth (obs_now o) (obs_health o)) o = Some incident.

Definition expand (blocks : list (bool * nat)) : list bool :=
  flat_map (λ blk, replicate blk.2 blk.1) blocks.

Fixpoint alternating (blocks : list (bool * nat)) : Prop :=
  match blocks with
  | blk :: (blk' :: _) as rest => blk.1 <> blk'.1 /\ alternating rest
  | _ => True
  end.

Definition starts_unhealthy (l : list bool) : bool :=
  match l with
  | false :: _ => true
  | _ => false
  end.

(** ** The scenario unhealthy, healthy, unhealthy *)

Definition tick_at (t : Z) (healthy : bool) : Observation :=
  {| obs_now := t;
     obs_health :=
       HealthDecoded (if healthy then 200 else 503)
         {| Healthy := healthy; Timestamp := t;
            Message := if healthy then "Service operational"
                       else "Service unhealthy";
            StatusCode := if healthy then 200 else 503 |};
     obs_status := Some (<["running" := JBool true]> ∅);
     obs_status_logs := Some (<["running" := JBool true]> ∅);
     obs_uuid := "incident-" +:+ pretty t |}.

Definition scenario_ticks : list Observation :=
  [tick_at 0 false; tick_at 3 true; tick_at 6 false].

(** ** Status snapshots *)

Definition unhealthy_sample : HealthStatus :=
  {| Healthy := false; Timestamp := 0;
     Message := "Service unhealthy"; StatusCode := 503 |}.

(** A snapshot whose configuration has no [database_url] entry. *)
Definition snapshot_without_database_url : gmap string JSON :=
  <["running" := JBool true]>
    (<["config" := JObject (<["timeout" := JString "30s"]> ∅)]> ∅).

(** A snapshot whose [database_url] is not a host:port pair, and is not
    the marker value either. *)
Definition snapshot_malformed_database_url : gmap string JSON :=
  <["running" := JBool true]>
    (<["config" := JObject (<["database_url" := JString "::not a url::"]> ∅)]>
       ∅).

(** A snapshot with the marker value in [database_url], a stopped service
    and resource keywords in the logs. *)
Definition snapshot_invalid_url_and_resource_logs : gmap string JSON :=
  <["running" := JBool false]>
    (<["recent_logs" :=
         JArray [JString "Resource exhaustion - port blocked or memory full"]]>
       (<["config" :=
            JObject (<["database_url" := JString "invalid::url::format"]>
                       (<["timeout" := JString "not-a-number"]> ∅))]> ∅)).

Definition class_of (r : option (IncidentType * list string))
  : option IncidentType :=
  fst <$> r.

(** The [config] object of the snapshot has the string [value] under
    [key]. *)
Definition config_entry (status : gmap string JSON) (key value : string)
  : Prop :=
  exists config : gmap string JSON,
    status !! "config" = Some (JObject config) /\
    config !! key = Some (JString value).

(** The [database_url] of the snapshot is the empty string or the marker
    that the simulated service writes. *)
Definition database_url_marked (status : gmap string JSON) : Prop :=
  config_entry status "database_url" ""
  \/ config_entry status "database_url" "invalid::url::format".

(** ** Views of the world *)

(** The part of the world that belongs to the orchestrator and the memory
    store; the service and the executor work on [target], [clock] and
    [closes] only. *)
Definition store_view (w : World) :=
  (heap w, writes w, incidents w, fixes w, probes w, ai_calls w, env w).

Definition known_fix_type (fixType : string) : bool :=
  String.eqb fixType "restart" || String.eqb fixType "config"
  || String.eqb fixType "code".

(** The resolution that [ExecuteFix] builds from a plan. *)
Definition resolution_of (plan : AIResponse) (success : bool) : Resolution :=
  {| res_FixType := ai_FixType plan;
     res_Description := ai_Diagnosis plan;
     res_Steps := ai_FixSteps plan;
     res_Code := ai_Code plan;
     res_Success := success |}.

(** ** Health requests of a verification *)

Definition answer_healthy (r : HealthResponse) : bool :=
  match r with
  | HealthDecoded _ body => Healthy body
  | _ => false
  end.

(** The outcome of the [j]-th health request that follows the [k] already
    made. *)
Definition probe_ok (e : Env) (k j : nat) : bool :=
  answer_healthy (health_answers e (k + j)%nat).

Definition passes3 (e : Env) (k : nat) : bool :=
  probe_ok e k 0 && probe_ok e k 1 && probe_ok e k 2.

Definition used3 (e : Env) (k : nat) : nat :=
  if probe_ok e k 0 then if probe_ok e k 1 then 3 else 2 else 1.

(** What a verification leaves untouched: everything but [probes] and
    [clock]. *)
Definition verify_view (w : World) :=
  (heap w, writes w, incidents w, fixes w, ai_calls w, env w, target w,
   closes w).

(** The general form: [n] iterations left. *)
Fixpoint passes (e : Env) (k n : nat) : bool :=
  match n with
  | O => true
  | S n' => answer_healthy (health_answers e k) && passes e (S k) n'
  end.

Fixpoint used (e : Env) (k n : nat) : nat :=
  match n with
  | O => O
  | S n' => if answer_healthy (health_answers e k)
            then S (used e (S k) n') else 1%nat
  end.

(** ** Assignments to an incident object *)

(** The incident after a sequence of assignments. *)
Definition replay (fws : list FieldWrite) (i : Incident) : Incident :=
  foldl (λ acc fw, apply_write fw acc) i fws.

Definition at_loc (p : loc) (fws : list FieldWrite) : list (loc * FieldWrite) :=
  (λ fw, (p, fw)) <$> fws.

(** What [StoreIncident] does to the learned fixes. *)
Definition learn (i : Incident) (fx : gmap string Resolution)
  : gmap string Resolution :=
  match Resolution_ i with
  | Some resolution =>
      if String.eqb (Status i) StatusResolved && res_Success resolution
      then <[Type_ i := resolution]> fx else fx
  | None => fx
  end.

(** [w] is reached from [w0] while processing the incident object [p],
    whose content in [w0] is [i]: the assignments [fws] were made to [p]
    and to no other object, the store knows [p] under its identifier, the
    learned fixes are [fx], and [k] health requests and [a] chat
    completions have been made in all. *)
Record tracks (p : loc) (i : Incident) (w0 w : World)
       (fws : list FieldWrite) (fx : gmap string Resolution) (k a : nat)
  : Prop := mkTracks {
  tr_heap : heap w = <[p := replay fws i]> (heap w0);
  tr_writes : writes w = writes w0 ++ at_loc p fws;
  tr_incidents : incidents w = <[ID i := p]> (incidents w0);
  tr_fixes : fixes w = fx;
  tr_probes : probes w = k;
  tr_ai : ai_calls w = a;
  tr_env : env w = env w0
}.

(** ** The ways a run can go *)

(** The plan that the analysis phase settles on. *)
Definition chosen_plan (i : Incident) (useAI : bool) (e : Env) (a : nat)
  : AIResponse :=
  if useAI then
    match AnalyzeIncident (chat_answers e a) with
    | Ok aiResponse => aiResponse
    | Err _ => GetQuickAnalysis i
    end
  else GetQuickAnalysis i.

(** [Q] holds of the result and of the final world of [m] run from [w]. *)
Definition outcome {A : Type} (m : M A) (w : World)
           (Q : A -> World -> Prop) : Prop :=
  Q (m w).1 (m w).2.

Definition diagnosis_writes (plan : AIResponse) : list FieldWrite :=
  [ WStatus StatusAnalyzing; WStatus StatusAnalyzing;
    WDiagnosis (ai_Diagnosis plan);
    WStatus StatusFixing; WStatus StatusFixing ].

(** How the diagnosis path ends, for the plan [plan], after the
    assignments [fws], with learned fixes [fx], [k] health requests and
    [a] chat completions made. *)
Inductive diagnosis_end (p : loc) (i : Incident) (w0 : World)
          (plan : AIResponse) (fws : list FieldWrite)
          (fx : gmap string Resolution) (k a : nat)
  : result unit -> World -> Prop :=
  | execute_failed err w :
      known_fix_type (ai_FixType plan) = false ->
      is_err err = true ->
      tracks p i w0 w (fws ++ diagnosis_writes plan ++ [WStatus StatusFailed])
               fx k a ->
      diagnosis_end p i w0 plan fws fx k a err w
  | fix_verified t w :
      known_fix_type (ai_FixType plan) = true ->
      passes3 (env w0) k = true ->
      tracks p i w0 w (fws ++ diagnosis_writes plan
                      ++ [ WResolution (resolution_of plan true);
                           WStatus StatusResolved; WResolvedAt t ])
               (<[Type_ i := resolution_of plan true]> fx) (k + 3)%nat a ->
      diagnosis_end p i w0 plan fws fx k a (Ok tt) w
  | fix_not_verified w :
      known_fix_type (ai_FixType plan) = true ->
      passes3 (env w0) k = false ->
      tracks p i w0 w (fws ++ diagnosis_writes plan
                      ++ [ WResolution (resolution_of plan true);
                           WStatus StatusFailed ])
               fx (k + used3 (env w0) k)%nat a ->
      diagnosis_end p i w0 plan fws fx k a (Ok tt) w.

(** The ways in which [processIncident] ends. *)
Inductive processed (p : loc) (i : Incident) (w0 : World) (useAI : bool)
  : result unit -> World -> Prop :=
  | cached_fix_verified cached t w :
      learn i (fixes w0) !! Type_ i = Some cached ->
      known_fix_type (res_FixType cached) = true ->
      passes3 (env w0) (probes w0) = true ->
      tracks p i w0 w
             [ WUsedCachedFix true; WStatus StatusResolved; WResolvedAt t;
               WResolution cached ]
             (learn i (fixes w0)) (probes w0 + 3)%nat (ai_calls w0) ->
      processed p i w0 useAI (Ok tt) w
  | diagnosed_without_cache r w :
      learn i (fixes w0) !! Type_ i = None ->
      diagnosis_end p i w0 (chosen_plan i useAI (env w0) (ai_calls w0)) []
                    (learn i (fixes w0)) (probes w0)
                    (ai_calls w0 + if useAI then 1 else 0)%nat r w ->
      processed p i w0 useAI r w
  | diagnosed_after_cached_fix_not_applied cached r w :
      learn i (fixes w0) !! Type_ i = Some cached ->
      known_fix_type (res_FixType cached) = false ->
      diagnosis_end p i w0 (chosen_plan i useAI (env w0) (ai_calls w0))
                    [WUsedCachedFix true]
                    (learn i (fixes w0)) (probes w0)
                    (ai_calls w0 + if useAI then 1 else 0)%nat r w ->
      processed p i w0 useAI r w
  | diagnosed_after_cached_fix_not_verified cached r w :
      learn i (fixes w0) !! Type_ i = Some cached ->
      known_fix_type (res_FixType cached) = true ->
      passes3 (env w0) (probes w0) = false ->
      diagnosis_end p i w0 (chosen_plan i useAI (env w0) (ai_calls w0))
                    [WUsedCachedFix true]
                    (learn i (fixes w0))
                    (probes w0 + used3 (env w0) (probes w0))%nat
                    (ai_calls w0 + if useAI then 1 else 0)%nat r w ->
      processed p i w0 useAI r w.

(** The world after an incident, or a sequence of incidents, has been
    processed. *)
Definition after (useAI : bool) (p : loc) (w : World) : World :=
  (processIncident useAI p w).2.

Definition after_all (useAI : bool) (ps : list loc) (w : World) : World :=
  (handleIncidents useAI ps w).2.

(** The incident object [q] is allocated and its class is not [ty]. *)
Definition of_other_class (ty : IncidentType) (w : World) (q : loc) : Prop :=
  exists j : Incident, heap w !! q = Some j /\ Type_ j <> ty.

(** ** The life cycle of an incident *)

(** Detected, Analyzing, Fixing, then Resolved or Failed. *)
Definition stage (status : IncidentStatus) : option nat :=
  if String.eqb status StatusDetected then Some 0%nat
  else if String.eqb status StatusAnalyzing then Some 1%nat
  else if String.eqb status StatusFixing then Some 2%nat
  else if String.eqb status StatusResolved then Some 3%nat
  else if String.eqb status StatusFailed then Some 3%nat
  else None.

Definition terminal (status : IncidentStatus) : bool :=
  String.eqb status StatusResolved || String.eqb status StatusFailed.

(** Assigning [next] to an incident whose status is [current] does not
    move it back, and [current] is not terminal. *)
Definition forward (current next : IncidentStatus) : bool :=
  match stage current, stage next with
  | Some m, Some n => (m <=? n)%nat && negb (terminal current)
  | _, _ => false
  end.

Fixpoint forward_only (statuses : list IncidentStatus) : bool :=
  match statuses with
  | current :: (next :: _) as rest => forward current next && forward_only rest
  | _ => true
  end.

(** The statuses assigned by a sequence of field assignments. *)
Definition statuses_of (fws : list FieldWrite) : list IncidentStatus :=
  omap (λ fw, match fw with WStatus status => Some status | _ => None end) fws.

(** The values given to [UsedCachedFix]. *)
Definition flags_of (fws : list FieldWrite) : list bool :=
  omap (λ fw, match fw with WUsedCachedFix b => Some b | _ => None end) fws.

(** ** Plans *)

Definition allowed_fix_types : list string := ["restart"; "config"; "code"].

(** The shape required of a plan. *)
Definition well_formed_plan (plan : AIResponse) : Prop :=
  ai_Diagnosis plan <> "" /\
  ai_FixType plan ∈ allowed_fix_types /\
  ai_FixSteps plan <> [].

(** ** A concrete world *)

Definition healthy_answer : HealthResponse :=
  HealthDecoded 200
    {| Healthy := true; Timestamp := 0; Message := "Service operational";
       StatusCode := 200 |}.

Definition unhealthy_answer : HealthResponse :=
  HealthDecoded 503
    {| Healthy := false; Timestamp := 0; Message := "Service unhealthy";
       StatusCode := 503 |}.

Definition restart_plan : AIResponse :=
  {| ai_Diagnosis := "The service process stopped";
     ai_FixType := "restart";
     ai_FixSteps := ["Restart the service"];
     ai_Code := "";
     ai_Confidence := 95 |}.

(** A plan whose kind is not one of the three allowed ones. *)
Definition reboot_plan : AIResponse :=
  {| ai_Diagnosis := "The host is stuck";
     ai_FixType := "reboot";
     ai_FixSteps := ["Reboot the host"];
     ai_Code := "";
     ai_Confidence := 60 |}.

Definition service_down_incident (id : string) : Incident :=
  {| ID := id; Type_ := ServiceDown; Status := StatusDetected;
     DetectedAt := 6; ResolvedAt := None;
     Symptoms := [ "Health check returned status code: 503";
                   "Service unhealthy"; "Service health check failing" ];
     Logs := []; Diagnosis := ""; Resolution_ := None;
     UsedCachedFix := false |}.

Definition running_service : TargetService :=
  {| isHealthy := false; isRunning := true;
     config := <["database_url" := "localhost:5432"]>
                 (<["timeout" := "30s"]> (<["max_retries" := "3"]> ∅));
     server := true |}.

(** Two [ServiceDown] incidents wait to be processed; the store is empty;
    the diagnosis source answers [plan]; the health requests pass, except
    those whose rank is in [failing]. *)
Definition example_world (plan : AIResponse) (failing : list nat) : World :=
  {| heap := <[1%positive := service_down_incident "incident-6"]>
               (<[2%positive := service_down_incident "incident-60"]> ∅);
     writes := [];
     incidents := ∅;
     fixes := ∅;
     target := running_service;
     clock := 6000;
     probes := 0;
     ai_calls := 0;
     closes := 0;
     env := {| health_answers :=
                 λ k, if bool_decide (k ∈ failing) then unhealthy_answer
                      else healthy_answer;
               chat_answers := λ _, ChatContent (Ok plan);
               close_answers := λ _, Ok tt |} |}.

(** The world after the first of the two example incidents has been
    resolved by a restart; the fourth health request will fail. *)
Definition learned_world : World :=
  after true 1%positive (example_world restart_plan [3%nat]).

(** The world after the second example incident has been processed too. *)
Definition relearned_world : World :=
  after true 2%positive learned_world.

(** A fix of the class [ServiceDown] learned from an earlier incident. *)
Definition stale_fix : Resolution :=
  {| res_FixType := "config";
     res_Description := "The timeout was out of range";
     res_Steps := ["Reset timeout to '30s'"];
     res_Code := "";
     res_Success := true |}.

(** The first example incident has been resolved by a restart, while the
    store holds the earlier fix for its class. *)
Definition resolved_world : World :=
  set_fixes (λ _, <[ServiceDown := stale_fix]> ∅)
            (after true 1%positive (example_world restart_plan [])).

(** ** Package [service]: logs and HTTP handlers *)

Module ServiceHttp.

(** [service.TargetService] with its error log: [core] holds the fields
    that the pipeline works on, [errorLogs] and [maxLogs] are the log and
    its capacity. *)
Record ServiceState := mkServiceState {
  core : TargetService;
  errorLogs : list string;
  maxLogs : Z
}.

Definition with_core (f : TargetService -> TargetService) (s : ServiceState)
  : ServiceState :=
  {| core := f (core s); errorLogs := errorLogs s; maxLogs := maxLogs s |}.

Definition NewTargetService : ServiceState :=
  {| core := {| isHealthy := true; isRunning := false;
                config := <["database_url" := "localhost:5432"]>
                            (<["timeout" := "30s"]>
                               (<["max_retries" := "3"]> ∅));
                server := false |};
     errorLogs := [];
     maxLogs := 50 |}.

(** [addLog]; [stamp] is [time.Now().Format("15:04:05")]. *)
Definition addLog (stamp message : string) (s : ServiceState) : ServiceState :=
  let logs := errorLogs s ++ ["[" +:+ stamp +:+ "] " +:+ message] in
  {| core := core s;
     errorLogs := if Z.of_nat (length logs) >? maxLogs s then drop 1 logs
                  else logs;
     maxLogs := maxLogs s |}.

Definition GetLogs (s : ServiceState) : list string := errorLogs s.

Definition GetConfig (s : ServiceState) : gmap string string := config (core s).

(** The line feed that ends the lines written by [fmt.Fprintf]. *)
Definition newline : string := String (Ascii.ascii_of_nat 10) EmptyString.

(** [handleHealth]: the status code and the document written. *)
Definition handleHealth (now : Z) (s : ServiceState) : Z * HealthStatus :=
  if negb (isHealthy (core s)) then
    (503, {| Healthy := isHealthy (core s); Timestamp := now;
             Message := "Service unhealthy"; StatusCode := 503 |})
  else
    (200, {| Healthy := isHealthy (core s); Timestamp := now;
             Message := "Service operational"; StatusCode := 200 |}).

Definition set_isHealthy (b : bool) (ts : TargetService) : TargetService :=
  {| isHealthy := b; isRunning := isRunning ts; config := config ts;
     server := server ts |}.

Definition set_config_entry (key value : string) (ts : TargetService)
  : TargetService :=
  {| isHealthy := isHealthy ts; isRunning := isRunning ts;
     config := <[key := value]> (config ts); server := server ts |}.

(** [handleTriggerIncident] for the query parameter [incidentType]: the new
    state, the status code and the body. *)
Definition handleTriggerIncident (incidentType stamp : string) (s : ServiceState)
  : ServiceState * Z * string :=
  if String.eqb incidentType "crash" || String.eqb incidentType "SERVICE_DOWN"
  then
    (addLog stamp "Service crashed - simulated failure"
       (with_core (set_isHealthy false) s),
     200, "Incident triggered: SERVICE_DOWN" +:+ newline)
  else if String.eqb incidentType "config"
          || String.eqb incidentType "CONFIG_ERROR" then
    (addLog stamp "Configuration corrupted - invalid values detected"
       (with_core (λ ts, set_isHealthy false
                           (set_config_entry "timeout" "not-a-number"
                              (set_config_entry "database_url"
                                 "invalid::url::format" ts))) s),
     200, "Incident triggered: CONFIG_ERROR" +:+ newline)
  else if String.eqb incidentType "resource"
          || String.eqb incidentType "RESOURCE_EXHAUSTION" then
    (addLog stamp "Resource exhaustion - port blocked or memory full"
       (with_core (set_isHealthy false) s),
     200, "Incident triggered: RESOURCE_EXHAUSTION" +:+ newline)
  else if String.eqb incidentType "dependency"
          || String.eqb incidentType "DEPENDENCY_FAILURE" then
    (addLog stamp "Database connection failed - unable to reach host"
       (with_core (λ ts, set_isHealthy false
                           (set_config_entry "database_url"
                              "unreachable-host:9999" ts)) s),
     200, "Incident triggered: DEPENDENCY_FAILURE" +:+ newline)
  else
    (s, 400,
     "Unknown incident type: " +:+ incidentType +:+ newline
     +:+ "Valid types: crash, config, resource, dependency"
     +:+ newline).

(** [handleAPI]: the status code and the document written; [stamp] is
    [time.Now().Format(time.RFC3339)]. *)
Definition handleAPI (stamp : string) (s : ServiceState)
  : Z * gmap string string :=
  if negb (isHealthy (core s)) then
    (503, <["error" := "service unavailable"]> ∅)
  else
    (200, <["status" := "ok"]>
            (<["data" := "Sample API response"]> (<["time" := stamp]> ∅))).

(** [handleStatus]: the document written, as [encoding/json] decodes it
    into a [map[string]interface{}] on the other side (a [map[string]string]
    arrives as an object of strings, a [[]string] as an array of strings;
    the strings are taken to be valid UTF-8, which the encoding leaves
    unchanged). *)
Definition handleStatus (s : ServiceState) : gmap string JSON :=
  <["running" := JBool (isRunning (core s))]>
    (<["healthy" := JBool (isHealthy (core s))]>
       (<["config" := JObject (JString <$> config (core s))]>
          (<["recent_logs" := JArray (JString <$> errorLogs s)]> ∅))).

(** What the detector observes at a tick when the service answers its
    health request and its two status requests in the state [s]. *)
Definition observe (now : Z) (uuid : string) (s : ServiceState) : Observation :=
  {| obs_now := now;
     obs_health := HealthDecoded (handleHealth now s).1 (handleHealth now s).2;
     obs_status := Some (handleStatus s);
     obs_status_logs := Some (handleStatus s);
     obs_uuid := uuid |}.

End ServiceHttp.

(** ** Package [memory]: queries *)

Module MemoryQueries.

Definition GetIncident (id : string) : M (result loc) :=
  let* found := gets (λ w, incidents w !! id) in
  match found with
  | Some incident => ret (Ok incident)
  | None => ret (Err ("incident not found: " +:+ id))
  end.

(** [GetAllIncidents]: the stored pointers, in the order in which the map is
    traversed. *)
Definition GetAllIncidents : M (list loc) :=
  gets (λ w, (map_to_list (incidents w)).*2).

(** [getFixTypes] *)
Definition getFixTypes : M (list string) :=
  gets (λ w, (map_to_list (fixes w)).*1).

(** The result of [GetStats]. *)
Record Stats := mkStats {
  total_incidents : Z;
  resolved : Z;
  failed : Z;
  learned_fixes : Z;
  incidents_by_type : gmap string Z;
  available_fix_types : list string
}.

(** The counters of the loop of [GetStats]. *)
Record Counters := mkCounters {
  resolvedCount : Z;
  failedCount : Z;
  typeCount : gmap string Z
}.

(** One iteration of the loop of [GetStats]. *)
Definition countIncident (acc : Counters) (incident : Incident) : Counters :=
  let typeCount :=
    <[Type_ incident := default 0 (typeCount acc !! Type_ incident) + 1]>
      (typeCount acc) in
  if String.eqb (Status incident) StatusResolved then
    {| resolvedCount := resolvedCount acc + 1;
       failedCount := failedCount acc; typeCount := typeCount |}
  else if String.eqb (Status incident) StatusFailed then
    {| resolvedCount := resolvedCount acc;
       failedCount := failedCount acc + 1; typeCount := typeCount |}
  else
    {| resolvedCount := resolvedCount acc;
       failedCount := failedCount acc; typeCount := typeCount |}.

Definition GetStats : M Stats :=
  let* all := GetAllIncidents in
  let* stored := gets (λ w, (λ p, deref p w) <$> all) in
  let counted :=
    foldl countIncident
          {| resolvedCount := 0; failedCount := 0; typeCount := ∅ |} stored in
  let* learned := gets (λ w, Z.of_nat (size (fixes w))) in
  let* fixTypes := getFixTypes in
  ret {| total_incidents := Z.of_nat (length all);
         resolved := resolvedCount counted;
         failed := failedCount counted;
         learned_fixes := learned;
         incidents_by_type := typeCount counted;
         available_fix_types := fixTypes |}.

(** [Clear]; as for [StoreIncident], writing the document to disk is left
    out. *)
Definition Clear : M unit :=
  modify (set_incidents (λ _, ∅));;
  modify (set_fixes (λ _, ∅)).

End MemoryQueries.

Import ServiceHttp MemoryQueries.

(** ** The service seen through its handlers *)

(** A log entry mentions one of the resource keywords. *)
Definition mentions_resource (entry : string) : bool :=
  Contains entry "resource" || Contains entry "port blocked"
  || Contains entry "memory".

(** The class and the last symptom that the rules of the detector give to
    the state of a service, read on the typed state instead of the decoded
    document. *)
Definition classify (s : ServiceState) : IncidentType * string :=
  let cfg := config (core s) in
  if bool_decide (cfg !! "database_url" = Some "invalid::url::format")
     || bool_decide (cfg !! "database_url" = Some "") then
    (ConfigError, "Invalid database URL configuration detected")
  else if bool_decide (cfg !! "database_url" = Some "unreachable-host:9999") then
    (DependencyFailure, "Database host unreachable")
  else if bool_decide (cfg !! "timeout" = Some "not-a-number") then
    (ConfigError, "Invalid timeout configuration detected")
  else if negb (isRunning (core s)) then
    (ServiceDown, "Service process not running")
  else if existsb mentions_resource (errorLogs s) then
    (ResourceExhaustion, "Resource exhaustion detected in logs")
  else (ServiceDown, "Service health check failing").

(** The symptoms that every incident starts with. *)
Definition base_symptoms (health : HealthStatus) : list string :=
  [ "Health check returned status code: " +:+ pretty (StatusCode health);
    Message health ].

Definition declared_classes : list IncidentType :=
  [ServiceDown; ConfigError; ResourceExhaustion; DependencyFailure].

(** The values of the query parameter that [handleTriggerIncident] accepts. *)
Definition crash_triggers : list string := ["crash"; "SERVICE_DOWN"].
Definition config_triggers : list string := ["config"; "CONFIG_ERROR"].
Definition resource_triggers : list string :=
  ["resource"; "RESOURCE_EXHAUSTION"].
Definition dependency_triggers : list string :=
  ["dependency"; "DEPENDENCY_FAILURE"].

Definition trigger_types : list string :=
  crash_triggers ++ config_triggers ++ resource_triggers
  ++ dependency_triggers.

(** A log entry as [addLog] writes it. *)
Definition stamped (e : string * string) : string :=
  "[" +:+ e.1 +:+ "] " +:+ e.2.

(** Several [addLog] calls in a row, each with its time stamp and message. *)
Definition addLogs (es : list (string * string)) (s : ServiceState)
  : ServiceState :=
  foldl (λ acc e, addLog e.1 e.2 acc) s es.

(** The configuration has none of the values that the configuration rules
    of the detector react to. *)
Definition config_in_order (cfg : gmap string string) : Prop :=
  cfg !! "database_url" <> Some "invalid::url::format" /\
  cfg !! "database_url" <> Some "" /\
  cfg !! "database_url" <> Some "unreachable-host:9999" /\
  cfg !! "timeout" <> Some "not-a-number".

(** ** The executor and the configuration *)

(** The settings that [applyConfigStep] can restore, with their values. *)
Definition restorable : list (string * string) :=
  [ ("database_url", "localhost:5432"); ("timeout", "30s");
    ("max_retries", "3") ].

(** The setting that a step restores, if any. *)
Definition restored_by (step : string) : option (string * string) :=
  let step := ToLower step in
  if (Contains step "database_url" || Contains step "database url")
     && (Contains step "localhost:5432" || Contains step "restore")
  then Some ("database_url", "localhost:5432")
  else if Contains step "timeout"
          && (Contains step "30s" || Contains step "restore"
              || Contains step "reset")
  then Some ("timeout", "30s")
  else if (Contains step "max_retries" || Contains step "retries")
          && (Contains step "3" || Contains step "restore")
  then Some ("max_retries", "3")
  else None.

(** The service is up: running, healthy, with a server. *)
Definition up (ts : TargetService) : Prop :=
  isRunning ts = true /\ isHealthy ts = true /\ server ts = true.

(** ** The store *)

(** The sum of the counters of a table. *)
Definition total_count (m : gmap string Z) : Z :=
  map_fold (λ _ n acc, n + acc) 0 m.

(** Every learned fix can be applied and carries the success flag. *)
Definition fixes_in_order (fx : gmap string Resolution) : Prop :=
  forall (ty : string) (r : Resolution),
    fx !! ty = Some r ->
    res_FixType r ∈ allowed_fix_types /\ res_Success r = true.

(** Every incident object of the list is allocated. *)
Definition allocated (w : World) (ps : list loc) : Prop :=
  Forall (λ p, is_Some (heap w !! p)) ps.

(** The incident that the detector builds when it observes the service in
    the state [s] at a tick. *)
Definition incident_for (now : Z) (uuid : string) (s : ServiceState) : Incident :=
  {| ID := uuid;
     Type_ := (classify s).1;
     Status := StatusDetected;
     DetectedAt := now;
     ResolvedAt := None;
     Symptoms := [ "Health check returned status code: 503";
                   "Service unhealthy"; (classify s).2 ];
     Logs := errorLogs s;
     Diagnosis := "";
     Resolution_ := None;
     UsedCachedFix := false |}.

(** The state after a trigger request. *)
Definition triggered (incidentType stamp : string) (s : ServiceState)
  : ServiceState :=
  (handleTriggerIncident incidentType stamp s).1.1.

(** The incidents that the store holds, as [GetStats] visits them. *)
Definition stored_incidents (w : World) : list Incident :=
  (λ p, deref p w) <$> (map_to_list (incidents w)).*2.

Definition has_status (status : IncidentStatus) (i : Incident) : bool :=
  String.eqb (Status i) status.

Definition has_type (ty : IncidentType) (i : Incident) : bool :=
  String.eqb (Type_ i) ty.

(** The number of incidents of a list that satisfy a test. *)
Definition count_where (f : Incident -> bool) (l : list Incident) : Z :=
  Z.of_nat (length (List.filter f l)).

(** The content of an incident after [UpdateIncidentStatus] at the time
    [t]. *)
Definition with_status (status : IncidentStatus) (t : Z) (i : Incident)
  : Incident :=
  {| ID := ID i; Type_ := Type_ i; Status := status;
     DetectedAt := DetectedAt i;
     ResolvedAt := if String.eqb status StatusResolved then Some t
                   else ResolvedAt i;
     Symptoms := Symptoms i; Logs := Logs i; Diagnosis := Diagnosis i;
     Resolution_ := Resolution_ i; UsedCachedFix := UsedCachedFix i |}.

(** The configuration after the rule-based plan for the incident [i] has
    been executed. *)
Definition config_after_rule_based_plan (i : Incident)
           (cfg : gmap string string) : gmap string string :=
  if String.eqb (Type_ i) ServiceDown then cfg
  else if String.eqb (Type_ i) ConfigError then
    <["timeout" := "30s"]> (<["database_url" := "localhost:5432"]> cfg)
  else cfg.

(** ** Processing *)

(** An incident as [createIncident] builds it: detected, with no diagnosis,
    no resolution, no time of resolution, and the flag of the cached fix
    off. *)
Definition fresh (i : Incident) : Prop :=
  Status i = StatusDetected /\ ResolvedAt i = None /\ Diagnosis i = "" /\
  Resolution_ i = None /\ UsedCachedFix i = false.

(** The incident object [p] is allocated and fresh. *)
Definition fresh_at (w : World) (p : loc) : Prop :=
  exists i : Incident, heap w !! p = Some i /\ fresh i.

(** The fields of an incident that processing never assigns. *)
Definition identity_of (i : Incident) :=
  (ID i, Type_ i, DetectedAt i, Symptoms i, Logs i).

(** The record that a run leaves of an incident: the flag of the cached fix
    is [hit], the status is final, the time of resolution is set exactly for
    a resolved incident, and a resolution is attached, whose success flag is
    on unless it is the cached fix [cached] that was applied again. *)
Definition final_record (j : Incident) (hit : bool)
           (cached : option Resolution) : Prop :=
  UsedCachedFix j = hit /\
  (Status j = StatusResolved \/ Status j = StatusFailed) /\
  (is_Some (ResolvedAt j) <-> Status j = StatusResolved) /\
  exists r : Resolution,
    Resolution_ j = Some r /\
    (res_Success r = true \/ (Status j = StatusResolved /\ cached = Some r)).

(** The diagnosis source gave no usable document: the request failed, the
    reply had no choice, or its content could not be decoded. *)
Definition no_answer (reply : ChatCompletion) : Prop :=
  match reply with
  | ChatError _ | ChatNoChoices | ChatContent (Err _) => True
  | ChatContent (Ok _) => False
  end.

(** The diagnosis source never answers. *)
Definition silent_world (plan : AIResponse) : World :=
  {| heap := heap (example_world plan []);
     writes := [];
     incidents := ∅;
     fixes := ∅;
     target := running_service;
     clock := 6000;
     probes := 0;
     ai_calls := 0;
     closes := 0;
     env := {| health_answers := health_answers (env (example_world plan []));
               chat_answers := λ _, ChatError "connection refused";
               close_answers := λ _, Ok tt |} |}.

(** ** A service that cannot be reached *)

(** None of the requests of the tick got through. *)
Definition unreachable (o : Observation) : Prop :=
  exists err : string,
    obs_health o = HealthGetError err /\
    obs_status o = None /\ obs_status_logs o = None.

Definition unreachable_tick (t : Z) : Observation :=
  {| obs_now := t;
     obs_health := HealthGetError "connection refused";
     obs_status := None;
     obs_status_logs := None;
     obs_uuid := "incident-" +:+ pretty t |}.

(** * Properties *)

(** ** Substring matching *)

Section Substring.

Lemma substring_zero_app (p q : string) :
  String.substring 0 (String.length p) (p +:+ q) = p.
Proof.
  induction p as [|c p IH]; simpl.
  - now destruct q.
  - now rewrite IH.
Qed.

Lemma substring_skip_app (p q : string) (m : nat) :
  String.substring (String.length p) m (p +:+ q) = String.substring 0 m q.
Proof. induction p as [|c p IH]; simpl; auto. Qed.

Lemma substring_at_occurrence (pre substr post : string) :
  String.substring (String.length pre) (String.length substr)
    (pre +:+ substr +:+ post) = substr.
Proof. rewrite substring_skip_app. apply substring_zero_app. Qed.

Lemma app_length_string (p q : string) :
  String.length (p +:+ q) = (String.length p + String.length q)%nat.
Proof. induction p; simpl; auto. Qed.

Lemma app_String (c : Ascii.ascii) (p q : string) :
  String c p +:+ q = String c (p +:+ q).
Proof. reflexivity. Qed.

Lemma substring_zero_zero (s : string) : String.substring 0 0 s = "".
Proof. now destruct s. Qed.

Lemma substring_whole (s : string) :
  String.substring 0 (String.length s) s = s.
Proof. induction s as [|c s IH]; simpl; [reflexivity | now rewrite IH]. Qed.

Lemma substring_cut (s : string) (m : nat) :
  (m <= String.length s)%nat ->
  s = String.substring 0 m s +:+ String.substring m (String.length s - m) s.
Proof.
  revert s. induction m as [|m IH]; intros s Hle.
  - rewrite substring_zero_zero, Nat.sub_0_r, substring_whole. reflexivity.
  - destruct s as [|c s]; simpl in *; [lia|].
    rewrite app_String. f_equal. apply IH. lia.
Qed.

(** A block read at offset [j] splits the string around it. *)
Lemma substring_split (s : string) (j m : nat) :
  (j + m <= String.length s)%nat ->
  s = String.substring 0 j s +:+ String.substring j m s
      +:+ String.substring (j + m) (String.length s - (j + m)) s.
Proof.
  revert s. induction j as [|j IH]; intros s Hle.
  - rewrite substring_zero_zero. simpl. apply substring_cut. lia.
  - destruct s as [|c s]; simpl in *; [lia|].
    rewrite app_String. f_equal. apply IH. lia.
Qed.

Lemma occurs_iff_offset (substr s : string) :
  occurs substr s <->
  exists j : nat, (j + String.length substr <= String.length s)%nat /\
                  String.substring j (String.length substr) s = substr.
Proof.
  split.
  - intros (pre & post & ->). exists (String.length pre). split.
    + rewrite !app_length_string. lia.
    + apply substring_at_occurrence.
  - intros (j & Hle & Hsub).
    exists (String.substring 0 j s),
           (String.substring (j + String.length substr)
              (String.length s - (j + String.length substr)) s).
    pose proof (substring_split s j (String.length substr) Hle) as Hsplit.
    rewrite Hsub in Hsplit. exact Hsplit.
Qed.

Lemma slice_in_range (s : string) (lo hi : Z) :
  0 <= lo -> lo <= hi -> hi <= len s ->
  slice s lo hi
  = Some (String.substring (Z.to_nat lo) (Z.to_nat (hi - lo)) s).
Proof.
  intros H0 H1 H2. unfold slice.
  assert ((0 <=? lo) && (lo <=? hi) && (hi <=? len s) = true) as ->; [|done].
  rewrite !andb_true_iff, !Z.leb_le. auto.
Qed.

Lemma string_eqb_true_iff (x y : string) : String.eqb x y = true <-> x = y.
Proof. apply String.eqb_eq. Qed.

(** The scan started at [i] with [n] iterations left stays within bounds
    and finds exactly the occurrences at the offsets [i .. i+n-1]. *)
Lemma hasSubstring_loop_spec (s substr : string) (n i : nat) :
  Z.of_nat i + Z.of_nat n <= len s - len substr + 1 ->
  exists b : bool,
    hasSubstring_loop s substr n (Z.of_nat i) = Some b /\
    (b = true <->
     exists j : nat, (i <= j < i + n)%nat /\
                     String.substring j (String.length substr) s = substr).
Proof.
  revert i. induction n as [|n IH]; intros i Hb.
  - exists false. split; [reflexivity|]. split; [discriminate|].
    intros (j & Hj & _). lia.
  - cbn [hasSubstring_loop].
    rewrite slice_in_range by (unfold len in *; lia).
    replace (Z.to_nat (Z.of_nat i)) with i by lia.
    replace (Z.to_nat (Z.of_nat i + len substr - Z.of_nat i))
      with (String.length substr) by (unfold len; lia).
    cbn [slice_eq].
    destruct (String.eqb (String.substring i (String.length substr) s) substr)
      eqn:Heq.
    + exists true. split; [reflexivity|]. split; [|reflexivity].
      intros _. exists i. split; [lia|]. now apply string_eqb_true_iff.
    + replace (Z.of_nat i + 1) with (Z.of_nat (S i)) by lia.
      destruct (IH (S i)) as (b & Hrun & Hb'); [lia|].
      exists b. split; [exact Hrun|]. rewrite Hb'. split.
      * intros (j & Hj & Hs). exists j. split; [lia | exact Hs].
      * intros (j & Hj & Hs). exists j. split; [|exact Hs].
        destruct (decide (j = i)) as [->|Hne]; [|lia].
        apply string_eqb_true_iff in Hs. congruence.
Qed.

Lemma occurs_length (substr s : string) :
  occurs substr s -> len substr <= len s.
Proof.
  intros (pre & post & ->). unfold len. rewrite !app_length_string. lia.
Qed.

Lemma hasSubstring_spec (s substr : string) :
  exists b : bool,
    hasSubstring s substr = Some b /\ (b = true <-> occurs substr s).
Proof.
  unfold hasSubstring.
  destruct (Z_lt_le_dec (len s) (len substr)) as [Hlt|Hge].
  - replace (Z.to_nat (len s - len substr + 1)) with 0%nat by lia.
    exists false. split; [reflexivity|]. split; [discriminate|].
    intros Hocc%occurs_length. lia.
  - destruct (hasSubstring_loop_spec s substr
                (Z.to_nat (len s - len substr + 1)) 0) as (b & Hrun & Hb);
      [lia|].
    exists b. split; [exact Hrun|]. rewrite Hb, occurs_iff_offset.
    unfold len in *. split; intros (j & Hj & Hs); exists j; (split; [lia|exact Hs]).
Qed.

Lemma app_empty_r (s : string) : s +:+ "" = s.
Proof.
  induction s as [|c s IH]; [reflexivity|].
  rewrite app_String. now f_equal.
Qed.

Lemma occurs_refl (s : string) : occurs s s.
Proof. exists "", "". change (s = s +:+ ""). now rewrite app_empty_r. Qed.

Lemma occurs_prefix (s substr : string) :
  len substr <= len s ->
  String.substring 0 (String.length substr) s = substr -> occurs substr s.
Proof.
  intros Hle Hs. apply occurs_iff_offset. exists 0%nat.
  unfold len in Hle. split; [lia | exact Hs].
Qed.

Lemma occurs_suffix (s substr : string) :
  len substr <= len s ->
  String.substring (String.length s - String.length substr)
    (String.length substr) s = substr ->
  occurs substr s.
Proof.
  intros Hle Hs. apply occurs_iff_offset.
  exists (String.length s - String.length substr)%nat.
  unfold len in Hle. split; [lia | exact Hs].
Qed.

End Substring.

Lemma contains_spec (s substr : string) :
  exists b : bool,
    contains s substr = Some b /\
    hasSubstring s substr = Some b /\
    (b = true <-> occurs substr s).
Proof.
  destruct (hasSubstring_spec s substr) as (b & Hscan & Hb).
  exists b. split; [|split; [exact Hscan | exact Hb]].
  unfold contains.
  destruct (len s >=? len substr) eqn:Hge; cbn [and_then].
  2:{ destruct b; [|reflexivity].
      assert (len substr <= len s) by (apply occurs_length, Hb; reflexivity).
      rewrite Z.geb_leb in Hge. apply Z.leb_gt in Hge. lia. }
  apply Z.geb_le in Hge.
  destruct (String.eqb s substr) eqn:Heq; cbn [or_else].
  { apply string_eqb_true_iff in Heq. subst substr.
    destruct b; [reflexivity|].
    assert (false = true) by (apply Hb, occurs_refl). discriminate. }
  destruct (len s >? len substr) eqn:Hgt; cbn [and_then].
  2:{ destruct b; [|reflexivity]. exfalso.
      assert (len s <= len substr) as Hle.
      { destruct (Z.gtb_spec (len s) (len substr)); [discriminate | lia]. }
      assert (String.length s = String.length substr) as Hlen
        by (unfold len in *; lia).
      destruct (proj1 Hb eq_refl) as (pre & post & Hs).
      rewrite Hs in Hlen. rewrite !app_length_string in Hlen.
      assert (String.length pre = 0%nat) by lia.
      assert (String.length post = 0%nat) by lia.
      destruct pre; [|discriminate]. destruct post; [|discriminate].
      change (s = substr +:+ "") in Hs.
      rewrite app_empty_r in Hs. subst s.
      rewrite String.eqb_refl in Heq. discriminate. }
  rewrite !slice_in_range by (unfold len in *; lia).
  cbn [slice_eq].
  replace (Z.to_nat 0) with 0%nat by lia.
  replace (Z.to_nat (len substr - 0)) with (String.length substr)
    by (unfold len; lia).
  replace (Z.to_nat (len s - len substr))
    with (String.length s - String.length substr)%nat by (unfold len; lia).
  replace (Z.to_nat (len s - (len s - len substr)))
    with (String.length substr) by (unfold len; lia).
  destruct (String.eqb (String.substring 0 (String.length substr) s) substr)
    eqn:Hpre; cbn [or_else].
  { apply string_eqb_true_iff, occurs_prefix in Hpre; [|exact Hge].
    destruct b; [reflexivity|].
    assert (false = true) by (apply Hb, Hpre). discriminate. }
  destruct (String.eqb
              (String.substring (String.length s - String.length substr)
                 (String.length substr) s) substr) eqn:Hsuf; cbn [or_else].
  { apply string_eqb_true_iff, occurs_suffix in Hsuf; [|exact Hge].
    destruct b; [reflexivity|].
    assert (false = true) by (apply Hb, Hsuf). discriminate. }
  exact Hscan.
Qed.

(** C10. For all strings [s] and [substr], [contains s substr] evaluates
    without a slice going out of range, its result is [true] exactly when
    [substr] occurs in [s] as a contiguous block, and this result is the one
    of the plain scan [hasSubstring]; the empty [substr] and the case of
    equal lengths are included. *)
Theorem contains_is_substring_test (s substr : string) :
  exists b : bool,
    contains s substr = Some b /\
    hasSubstring s substr = Some b /\
    (b = true <-> occurs substr s).
Proof. apply contains_spec. Qed.

(** ** The monitor loop *)

Section MonitorLoop.

(** *** The run-length encoding is the decomposition into maximal runs *)

Lemma rle_expand (l : list bool) : expand (rle l) = l.
Proof.
  induction l as [|b l IH]; [reflexivity|]. simpl.
  destruct (rle l) as [|[b' n] r] eqn:Hr.
  - simpl in *. now rewrite <- IH.
  - destruct (Bool.eqb b b') eqn:Hb.
    + apply eqb_prop in Hb. subst b'. simpl in *. now rewrite IH.
    + simpl in *. now rewrite IH.
Qed.

Lemma rle_positive (l : list bool) :
  Forall (λ blk, (0 < blk.2)%nat) (rle l).
Proof.
  induction l as [|b l IH]; simpl; [constructor|].
  destruct (rle l) as [|[b' n] r].
  - repeat constructor.
  - inversion IH; subst. destruct (Bool.eqb b b').
    + constructor; [simpl; lia | assumption].
    + constructor; [simpl; lia | constructor; assumption].
Qed.

Lemma rle_alternating (l : list bool) : alternating (rle l).
Proof.
  induction l as [|b l IH]; simpl; [exact I|].
  destruct (rle l) as [|[b' n] r]; [exact I|].
  destruct (Bool.eqb b b') eqn:Hb.
  - apply eqb_prop in Hb. subst b'. destruct r; [exact I|]. exact IH.
  - apply eqb_false_iff in Hb. split; [exact Hb | exact IH].
Qed.

(** *** Rising edges and runs *)

Lemma rle_head (b : bool) (l : list bool) :
  exists n r, rle (b :: l) = (b, n) :: r.
Proof.
  simpl. destruct (rle l) as [|[b' n] r]; [eauto|].
  destruct (Bool.eqb b b'); eauto.
Qed.

Lemma rle_cons (b : bool) (l : list bool) :
  rle (b :: l)
  = match rle l with
    | (b', n) :: r =>
        if Bool.eqb b b' then (b, S n) :: r else (b, 1%nat) :: (b', n) :: r
    | [] => [(b, 1%nat)]
    end.
Proof. reflexivity. Qed.

Lemma rising_edges_from_cons (prev : bool) (o : Observation)
      (ticks : list Observation) :
  rising_edges_from prev (o :: ticks)
  = (if prev && negb (sample o) then [o] else [])
      ++ rising_edges_from (sample o) ticks.
Proof.
  unfold rising_edges_from, with_previous. cbn [map zip zip_with].
  rewrite filter_cons. cbn [fst snd].
  destruct (prev && negb (sample o)) eqn:He.
  - rewrite decide_True by reflexivity. reflexivity.
  - rewrite decide_False by discriminate. reflexivity.
Qed.

Lemma unhealthy_runs_cons (b : bool) (l : list bool) :
  unhealthy_runs (b :: l)
  = ((if negb b && negb (starts_unhealthy l) then 1 else 0)
     + unhealthy_runs l)%nat.
Proof.
  unfold unhealthy_runs.
  destruct l as [|b0 l]; [destruct b; reflexivity|].
  destruct (rle_head b0 l) as (n & r & Hr).
  rewrite (rle_cons b (b0 :: l)), Hr.
  destruct b, b0; cbn [Bool.eqb starts_unhealthy negb andb];
    rewrite ?filter_cons; cbn [fst negb];
    repeat (rewrite decide_True by reflexivity);
    repeat (rewrite decide_False by discriminate);
    reflexivity.
Qed.

Lemma rising_edges_count (prev : bool) (ticks : list Observation) :
  (length (rising_edges_from prev ticks)
   + (if negb prev && starts_unhealthy (map sample ticks) then 1 else 0)
   = unhealthy_runs (map sample ticks))%nat.
Proof.
  revert prev. induction ticks as [|o ticks IH]; intros prev.
  - destruct prev; reflexivity.
  - rewrite rising_edges_from_cons, length_app. cbn [map].
    rewrite unhealthy_runs_cons. specialize (IH (sample o)).
    destruct prev, (sample o); cbn [negb andb starts_unhealthy length] in *;
      destruct (starts_unhealthy (map sample ticks)); simpl in *; lia.
Qed.

End MonitorLoop.

Section MonitorTotal.

Lemma contains_total (s substr : string) : is_Some (contains s substr).
Proof. destruct (contains_spec s substr) as (b & -> & _). eauto. Qed.

Lemma scanLogs_total (logs : list JSON) : is_Some (scanLogs logs).
Proof.
  induction logs as [|logEntry rest IH]; [simpl; eauto|].
  destruct logEntry; simpl; try exact IH.
  destruct (contains_total s "resource") as [b1 ->].
  destruct (contains_total s "port blocked") as [b2 ->].
  destruct (contains_total s "memory") as [b3 ->].
  destruct b1, b2, b3; simpl; eauto.
Qed.

Lemma analyzeSymptoms_total (health : HealthStatus) (resp : StatusResponse) :
  is_Some (analyzeSymptoms health resp).
Proof.
  unfold analyzeSymptoms.
  repeat match goal with
         | |- is_Some (Some _) => eauto
         | |- is_Some (match scanLogs ?l with _ => _ end) =>
             destruct (scanLogs_total l) as [[] ->]
         | |- is_Some (match ?x with _ => _ end) => destruct x
         | |- is_Some (if ?x then _ else _) => destruct x
         end.
Qed.

Lemma createIncident_spec (health : HealthStatus) (o : Observation) :
  exists incident : Incident,
    createIncident health o = Some incident /\
    ID incident = obs_uuid o /\
    Status incident = StatusDetected /\
    DetectedAt incident = obs_now o /\
    Resolution_ incident = None /\
    UsedCachedFix incident = false.
Proof.
  unfold createIncident.
  destruct (analyzeSymptoms_total health (obs_status o)) as [[ty sy] ->].
  eexists. split; [reflexivity|]. simpl. auto.
Qed.

Lemma monitorTick_spec (prev : bool) (o : Observation) :
  exists sent : list Incident,
    monitorTick prev o = Some (sent, sample o) /\
    Forall2 created_at sent (if prev && negb (sample o) then [o] else []).
Proof.
  unfold monitorTick. fold (sample o).
  destruct (prev && negb (sample o)) eqn:Hedge.
  - destruct (createIncident_spec (checkHealth (obs_now o) (obs_health o)) o)
      as (incident & Hc & _).
    rewrite Hc. exists [incident]. split; [reflexivity|].
    constructor; [exact Hc | constructor].
  - exists []. split; [|constructor].
    destruct (negb prev && sample o); reflexivity.
Qed.

Lemma monitorLoop_from_spec (prev : bool) (ticks : list Observation) :
  exists sent : list Incident,
    monitorLoop_from prev ticks = Some sent /\
    Forall2 created_at sent (rising_edges_from prev ticks).
Proof.
  revert prev. induction ticks as [|o ticks IH]; intros prev.
  - exists []. split; [reflexivity | constructor].
  - destruct (monitorTick_spec prev o) as (sent & Ht & Hsent).
    destruct (IH (sample o)) as (later & Hl & Hlater).
    exists (sent ++ later). cbn [monitorLoop_from]. rewrite Ht, Hl.
    split; [reflexivity|].
    rewrite rising_edges_from_cons. now apply Forall2_app.
Qed.

Lemma monitorTick_healthy (prev : bool) (o : Observation) :
  sample o = true -> monitorTick prev o = Some ([], true).
Proof.
  intros Hs. unfold monitorTick. fold (sample o). rewrite Hs.
  destruct prev; reflexivity.
Qed.

End MonitorTotal.

(** C1. For every sequence of ticks the monitor loop runs to completion; the
    incidents it sends are, in order, the ones built at the rising edges
    (ticks whose sample is unhealthy while the preceding sample, or the
    initial state, is healthy); their number is the number of maximal runs
    of consecutive unhealthy samples; and a tick whose sample is healthy, a
    recovery included, sends nothing. *)
Theorem monitor_one_incident_per_unhealthy_run (ticks : list Observation) :
  exists sent : list Incident,
    monitorLoop ticks = Some sent /\
    Forall2 created_at sent (rising_edges ticks) /\
    length sent = unhealthy_runs (map sample ticks) /\
    (forall (prev : bool) (o : Observation),
        sample o = true -> monitorTick prev o = Some ([], true)).
Proof.
  destruct (monitorLoop_from_spec true ticks) as (sent & Hrun & Hsent).
  exists sent. split; [exact Hrun|]. split; [exact Hsent|]. split.
  - rewrite (Forall2_length _ _ _ Hsent).
    pose proof (rising_edges_count true ticks) as Hc.
    cbn [negb andb] in Hc. unfold rising_edges. lia.
  - intros prev o. apply monitorTick_healthy.
Qed.

(** ** The scenario unhealthy, healthy, unhealthy *)

(** C2, as stated, fails: on the samples unhealthy, healthy, unhealthy taken
    at 0, 3 and 6 the monitor does not send exactly one incident. *)
Lemma scenario_not_single_incident :
  ~ (exists incident : Incident,
        monitorLoop scenario_ticks = Some [incident] /\
        DetectedAt incident = 6).
Proof.
  intros (incident & Hrun & _).
  vm_compute in Hrun. discriminate Hrun.
Qed.

(** C2, amended. On samples unhealthy, healthy, unhealthy taken at 0, 3 and
    6 the monitor sends exactly two incidents, the first at 0 and the second
    at 6. *)
Theorem scenario_two_incidents (o0 o1 o2 : Observation) :
  obs_now o0 = 0 -> obs_now o1 = 3 -> obs_now o2 = 6 ->
  sample o0 = false -> sample o1 = true -> sample o2 = false ->
  exists first second : Incident,
    monitorLoop [o0; o1; o2] = Some [first; second] /\
    DetectedAt first = 0 /\ DetectedAt second = 6.
Proof.
  intros Ht0 Ht1 Ht2 Hs0 Hs1 Hs2.
  unfold monitorLoop. cbn [monitorLoop_from].
  unfold monitorTick. fold (sample o0) (sample o1) (sample o2).
  rewrite Hs0, Hs1, Hs2. cbn [andb negb].
  destruct (createIncident_spec (checkHealth (obs_now o0) (obs_health o0)) o0)
    as (first & -> & _ & _ & Hd0 & _).
  destruct (createIncident_spec (checkHealth (obs_now o2) (obs_health o2)) o2)
    as (second & -> & _ & _ & Hd2 & _).
  exists first, second. split; [reflexivity|]. split; congruence.
Qed.

Lemma scenario_two_incidents_witness :
  exists first second : Incident,
    monitorLoop scenario_ticks = Some [first; second] /\
    DetectedAt first = 0 /\ DetectedAt second = 6.
Proof.
  apply (scenario_two_incidents (tick_at 0 false) (tick_at 3 true)
           (tick_at 6 false)); reflexivity.
Defined.

(** ** Classification *)

(** C3, as stated, fails: a snapshot whose configuration lacks the
    [database_url] entry, and one whose [database_url] is malformed without
    being the marker value, are both classified [ServiceDown]. *)
Lemma absent_or_malformed_database_url_not_config_error :
  (exists config : gmap string JSON,
      snapshot_without_database_url !! "config" = Some (JObject config) /\
      config !! "database_url" = None) /\
  class_of (analyzeSymptoms unhealthy_sample
              (Some snapshot_without_database_url)) = Some ServiceDown /\
  class_of (analyzeSymptoms unhealthy_sample
              (Some snapshot_malformed_database_url)) = Some ServiceDown /\
  ServiceDown <> ConfigError.
Proof.
  split; [|split; [|split]].
  - eexists. split; [vm_compute; reflexivity | reflexivity].
  - vm_compute. reflexivity.
  - vm_compute. reflexivity.
  - discriminate.
Qed.

Section DatabaseUrlRule.

Lemma is_string_true (v : JSON) (lit : string) :
  is_string v lit = true <-> v = JString lit.
Proof.
  destruct v; cbn; try (split; [discriminate | intros [=]]).
  rewrite String.eqb_eq. split; [now intros -> | now intros [= ->]].
Qed.

Lemma is_string_false (v : JSON) (lit : string) :
  is_string v lit = false <-> v <> JString lit.
Proof.
  rewrite <- is_string_true. destruct (is_string v lit); split;
    intros H; try discriminate; try reflexivity; now contradict H.
Qed.

Lemma lookup_string_cases (config : gmap string JSON) (key lit : string) :
  config !! key = Some (JString lit) \/ config !! key <> Some (JString lit).
Proof.
  destruct (config !! key) as [v|]; [|right; discriminate].
  destruct (is_string v lit) eqn:H.
  - left. f_equal. now apply is_string_true.
  - right. apply is_string_false in H. congruence.
Qed.

Lemma config_entry_inv (status config : gmap string JSON)
      (key value : string) :
  status !! "config" = Some (JObject config) ->
  config_entry status key value <-> config !! key = Some (JString value).
Proof.
  intros Hc. split; [|intros H; now exists config].
  intros (config' & Hc' & H). congruence.
Qed.

Lemma config_entry_no_object (status : gmap string JSON) (key value : string) :
  (forall config : gmap string JSON,
      status !! "config" <> Some (JObject config)) ->
  ~ config_entry status key value.
Proof. intros Hno (config & Hc & _). exact (Hno config Hc). Qed.

(** Below the [config] block: the rules on [running] and [recent_logs],
    which are those of the snapshot without its [config] entry. *)
Lemma below_config_range (health : HealthStatus) (status : gmap string JSON) :
  exists (class : IncidentType) (last : string),
    analyzeSymptoms health (Some (delete "config" status))
    = Some (class,
            [ "Health check returned status code: "
                +:+ pretty (StatusCode health);
              Message health ] ++ [last]) /\
    class <> ConfigError /\
    last <> "Invalid database URL configuration detected".
Proof.
  unfold analyzeSymptoms. cbn [fetchServiceStatus].
  rewrite lookup_delete_eq.
  repeat match goal with
         | |- exists _ _, Some _ = Some _ /\ _ =>
             eexists _, _; split; [reflexivity | split; discriminate]
         | |- context [match scanLogs ?l with _ => _ end] =>
             destruct (scanLogs_total l) as [[] ->]
         | |- context [match ?x with _ => _ end] => destruct x
         | |- context [if ?x then _ else _] => destruct x
         end.
Qed.

Lemma config_block_skipped (health : HealthStatus)
      (status : gmap string JSON) :
  (forall config : gmap string JSON,
      status !! "config" <> Some (JObject config)) ->
  analyzeSymptoms health (Some status)
  = analyzeSymptoms health (Some (delete "config" status)).
Proof.
  intros Hno. unfold analyzeSymptoms. cbn [fetchServiceStatus].
  rewrite lookup_delete_eq, !lookup_delete_ne by discriminate.
  destruct (status !! "config") as [[| | | | |config]|]; try reflexivity.
  now destruct (Hno config).
Qed.

Lemma config_block_falls_through (health : HealthStatus)
      (status config : gmap string JSON) :
  status !! "config" = Some (JObject config) ->
  (forall dbURL : JSON,
      config !! "database_url" = Some dbURL ->
      dbURL <> JString "invalid::url::format" /\
      dbURL <> JString "" /\
      dbURL <> JString "unreachable-host:9999") ->
  config !! "timeout" <> Some (JString "not-a-number") ->
  analyzeSymptoms health (Some status)
  = analyzeSymptoms health (Some (delete "config" status)).
Proof.
  intros Hc Hurl Ht. unfold analyzeSymptoms. cbn [fetchServiceStatus].
  rewrite lookup_delete_eq, !lookup_delete_ne by discriminate. rewrite Hc.
  assert (match config !! "timeout" with
          | Some timeout => is_string timeout "not-a-number"
          | None => false
          end = false) as Hto.
  { destruct (config !! "timeout") as [timeout|]; [|reflexivity].
    apply is_string_false. congruence. }
  destruct (config !! "database_url") as [dbURL|].
  - destruct (Hurl dbURL eq_refl) as (H1 & H2 & H3).
    apply is_string_false in H1, H2, H3. rewrite H1, H2, H3. cbn [orb].
    destruct (config !! "timeout") as [timeout|]; [|reflexivity].
    now rewrite Hto.
  - destruct (config !! "timeout") as [timeout|]; [|reflexivity].
    now rewrite Hto.
Qed.

(** The four ways through the [config] block of [analyzeSymptoms]. *)
Lemma config_block_cases (health : HealthStatus) (status : gmap string JSON) :
  let symptoms :=
    [ "Health check returned status code: " +:+ pretty (StatusCode health);
      Message health ] in
  (database_url_marked status /\
   analyzeSymptoms health (Some status)
   = Some (ConfigError,
           symptoms ++ ["Invalid database URL configuration detected"])) \/
  (~ database_url_marked status /\
   config_entry status "database_url" "unreachable-host:9999" /\
   analyzeSymptoms health (Some status)
   = Some (DependencyFailure, symptoms ++ ["Database host unreachable"])) \/
  (~ database_url_marked status /\
   ~ config_entry status "database_url" "unreachable-host:9999" /\
   config_entry status "timeout" "not-a-number" /\
   analyzeSymptoms health (Some status)
   = Some (ConfigError,
           symptoms ++ ["Invalid timeout configuration detected"])) \/
  (~ database_url_marked status /\
   ~ config_entry status "timeout" "not-a-number" /\
   exists (class : IncidentType) (last : string),
     analyzeSymptoms health (Some status)
     = Some (class, symptoms ++ [last]) /\
     class <> ConfigError /\
     last <> "Invalid database URL configuration detected").
Proof.
  cbn zeta.
  assert ((exists config : gmap string JSON,
              status !! "config" = Some (JObject config)) \/
          ~ (exists config : gmap string JSON,
                status !! "config" = Some (JObject config)))
    as [[config Hc] | Hnone].
  { destruct (status !! "config") as [[| | | | |config]|];
      try (right; intros [config' H]; discriminate H).
    left. now exists config. }
  2: { right. right. right.
       assert (forall config : gmap string JSON,
                  status !! "config" <> Some (JObject config)) as Hno
         by (intros config H; apply Hnone; now exists config).
       assert (forall key value, ~ config_entry status key value) as Hne
         by (intros key value; now apply config_entry_no_object).
       split; [intros [H | H]; exact (Hne _ _ H)|]. split; [apply Hne|].
       rewrite (config_block_skipped health status Hno).
       apply below_config_range. }
  unfold database_url_marked.
  rewrite !(config_entry_inv status config _ _ Hc).
  destruct (lookup_string_cases config "database_url" "invalid::url::format")
    as [Hm | Hm].
  { left. split; [now right|].
    unfold analyzeSymptoms. cbn [fetchServiceStatus]. now rewrite Hc, Hm. }
  destruct (lookup_string_cases config "database_url" "") as [He | He].
  { left. split; [now left|].
    unfold analyzeSymptoms. cbn [fetchServiceStatus]. now rewrite Hc, He. }
  right.
  destruct (lookup_string_cases config "database_url" "unreachable-host:9999")
    as [Hd | Hd].
  { left. split; [tauto|]. split; [exact Hd|].
    unfold analyzeSymptoms. cbn [fetchServiceStatus]. now rewrite Hc, Hd. }
  right.
  assert (forall dbURL, config !! "database_url" = Some dbURL ->
                        dbURL <> JString "invalid::url::format" /\
                        dbURL <> JString "" /\
                        dbURL <> JString "unreachable-host:9999") as Hurl
    by (intros dbURL H; repeat split; congruence).
  destruct (lookup_string_cases config "timeout" "not-a-number")
    as [Ht | Ht].
  { left. split; [tauto|]. split; [exact Hd|]. split; [exact Ht|].
    unfold analyzeSymptoms. cbn [fetchServiceStatus]. rewrite Hc, Ht.
    destruct (config !! "database_url") as [dbURL|]; [|reflexivity].
    destruct (Hurl dbURL eq_refl) as (H1 & H2 & H3).
    apply is_string_false in H1, H2, H3. now rewrite H1, H2, H3. }
  right. split; [tauto|]. split; [exact Ht|].
  rewrite (config_block_falls_through health status config Hc Hurl Ht).
  apply below_config_range.
Qed.

End DatabaseUrlRule.

(** C3, amended. The database-URL rule of [analyzeSymptoms] fires exactly
    on the snapshots whose [config] object has a [database_url] entry that
    is the empty string or the marker ["invalid::url::format"]: on these the
    incident is classified [ConfigError] with the symptom of the rule,
    whatever the other entries of the snapshot are, the rule being
    evaluated before all others; on every other snapshot (no [config]
    object, no [database_url] entry, an entry that is not a string, or any
    other string) the rule does not fire, and the class is [ConfigError]
    only through the timeout rule, that is when [timeout] is
    ["not-a-number"] and [database_url] is not the marker of the
    dependency rule. *)
Theorem database_url_rule_fires_exactly_on_markers
    (health : HealthStatus) (status : gmap string JSON) :
  (analyzeSymptoms health (Some status)
   = Some (ConfigError,
           [ "Health check returned status code: " +:+ pretty (StatusCode health);
             Message health;
             "Invalid database URL configuration detected" ])
   <-> database_url_marked status) /\
  (class_of (analyzeSymptoms health (Some status)) = Some ConfigError
   <-> database_url_marked status
       \/ (config_entry status "timeout" "not-a-number" /\
           ~ config_entry status "database_url" "unreachable-host:9999")).
Proof.
  destruct (config_block_cases health status)
    as [(Hm & Hr) | [(Hn & Hd & Hr) | [(Hn & Hd & Ht & Hr)
       | (Hn & Ht & class & last & Hr & Hclass & Hlast)]]];
    cbn zeta in Hr; rewrite Hr;
    cbn [class_of fmap option_fmap option_map fst app];
    unfold ConfigError, DependencyFailure in *.
  - split; (split; [intros _ | reflexivity]); auto.
  - split; (split; [intros H; exfalso; congruence|]).
    + intros H. contradiction.
    + intros [H | [_ H]]; contradiction.
  - split; split.
    + intros H. exfalso. congruence.
    + intros H. contradiction.
    + intros _. right. now split.
    + reflexivity.
  - split; split.
    + intros H. exfalso. apply Hlast. congruence.
    + intros H. contradiction.
    + intros H. exfalso. apply Hclass. congruence.
    + intros [H | [H _]]; contradiction.
Qed.

(** The rule fires on a snapshot that also has the timeout marker, a
    stopped service and resource keywords in its log. *)
Lemma database_url_rule_fires_exactly_on_markers_witness :
  analyzeSymptoms unhealthy_sample (Some snapshot_invalid_url_and_resource_logs)
  = Some (ConfigError,
          [ "Health check returned status code: 503";
            "Service unhealthy";
            "Invalid database URL configuration detected" ]).
Proof.
  apply (proj1 (database_url_rule_fires_exactly_on_markers unhealthy_sample
                  snapshot_invalid_url_and_resource_logs)).
  right.
  exists (<["database_url" := JString "invalid::url::format"]>
            (<["timeout" := JString "not-a-number"]> ∅)).
  split; vm_compute; reflexivity.
Defined.

(** ** What the service and the executor leave untouched *)

Section Frames.

Lemma bind_run {A B : Type} (m : M A) (f : A -> M B) (w : World) :
  bind m f w = f (m w).1 (m w).2.
Proof. unfold bind. now destruct (m w). Qed.

Ltac run :=
  repeat first
    [ rewrite bind_run
    | progress cbn [ret gets modify now fst snd store_view
                    set_target set_clock set_closes set_probes set_ai_calls
                    set_heap set_writes set_incidents set_fixes
                    heap writes incidents fixes target clock probes ai_calls
                    closes env isRunning isHealthy config server is_err
                    negb andb orb] ].

Lemma Stop_frame (w : World) :
  store_view (Stop w).2 = store_view w /\
  isRunning (target (Stop w).2) = false.
Proof.
  unfold Stop, server_Close. run.
  destruct (isRunning (target w)) eqn:Hr; run; [|auto].
  destruct (server (target w)); run; auto.
Qed.

Lemma Start_frame (w : World) :
  store_view (Start w).2 = store_view w /\
  (isRunning (target w) = false -> (Start w).1 = Ok tt).
Proof.
  unfold Start. run.
  destruct (isRunning (target w)); run; split; auto; discriminate.
Qed.

Lemma sleep_frame (d : Z) (w : World) :
  store_view (sleep d w).2 = store_view w /\
  target (sleep d w).2 = target w.
Proof. split; reflexivity. Qed.

Lemma Restart_frame (w : World) :
  store_view (Restart w).2 = store_view w /\ (Restart w).1 = Ok tt.
Proof.
  unfold Restart. run.
  destruct (Stop_frame w) as [Hv Hr]. rewrite Hr, andb_false_r. run.
  destruct (Start_frame (sleep 1000 (Stop w).2).2) as [Hv' Hok].
  split; [|apply Hok, Hr].
  etrans; [|exact Hv]. etrans; [|exact Hv']. reflexivity.
Qed.

Lemma executeRestart_frame (steps : list string) (w : World) :
  store_view (executeRestart steps w).2 = store_view w /\
  (executeRestart steps w).1 = Ok tt.
Proof.
  unfold executeRestart, IsHealthy. run.
  destruct (Stop_frame w) as [Hv Hr].
  destruct (Start_frame (sleep 500 (Stop w).2).2) as [Hv' Hok].
  rewrite (Hok Hr). run. split; [|reflexivity].
  etrans; [|exact Hv]. etrans; [|exact Hv']. reflexivity.
Qed.

Lemma applyConfigStep_frame (step : string) (w : World) :
  store_view (applyConfigStep step w).2 = store_view w.
Proof.
  unfold applyConfigStep, SetConfig.
  repeat match goal with
         | |- context [if ?c then _ else _] => destruct c
         end; reflexivity.
Qed.

Lemma applyConfigSteps_frame (steps : list string) (w : World) :
  store_view (applyConfigSteps steps w).2 = store_view w.
Proof.
  revert w. induction steps as [|step rest IH]; intros w; [reflexivity|].
  cbn [applyConfigSteps]. rewrite bind_run, IH. apply applyConfigStep_frame.
Qed.

Lemma executeConfigFix_frame (steps : list string) (w : World) :
  store_view (executeConfigFix steps w).2 = store_view w /\
  (executeConfigFix steps w).1 = Ok tt.
Proof.
  unfold executeConfigFix. rewrite bind_run.
  destruct (Restart_frame (applyConfigSteps steps w).2) as [Hv Hok].
  split; [rewrite Hv; apply applyConfigSteps_frame | exact Hok].
Qed.

(** A cached fix fails to apply exactly when its kind is not one of
    [restart], [config], [code]. *)
Lemma ApplyCachedFix_frame (incident : loc) (cached : Resolution) (w : World) :
  store_view (ApplyCachedFix incident cached w).2 = store_view w /\
  is_err (ApplyCachedFix incident cached w).1
  = negb (known_fix_type (res_FixType cached)).
Proof.
  unfold ApplyCachedFix, known_fix_type.
  destruct (String.eqb (res_FixType cached) "restart").
  { destruct (executeRestart_frame (res_Steps cached) w) as [Hv ->]. auto. }
  destruct (String.eqb (res_FixType cached) "config").
  { destruct (executeConfigFix_frame (res_Steps cached) w) as [Hv ->]. auto. }
  destruct (String.eqb (res_FixType cached) "code").
  { destruct (Restart_frame w) as [Hv ->]. auto. }
  split; reflexivity.
Qed.

Lemma ExecuteFix_frame (incident : loc) (plan : AIResponse) (w : World) :
  store_view (ExecuteFix incident plan w).2 = store_view w /\
  (ExecuteFix incident plan w).1.1
  = resolution_of plan (known_fix_type (ai_FixType plan)) /\
  is_err (ExecuteFix incident plan w).1.2
  = negb (known_fix_type (ai_FixType plan)).
Proof.
  unfold ExecuteFix, known_fix_type. rewrite bind_run.
  destruct (String.eqb (ai_FixType plan) "restart").
  { destruct (executeRestart_frame (ai_FixSteps plan) w) as [Hv ->]. auto. }
  destruct (String.eqb (ai_FixType plan) "config").
  { destruct (executeConfigFix_frame (ai_FixSteps plan) w) as [Hv ->]. auto. }
  destruct (String.eqb (ai_FixType plan) "code").
  { unfold executeCodeFix. destruct (Restart_frame w) as [Hv ->]. auto. }
  repeat split; reflexivity.
Qed.

End Frames.

(** ** The verification loop *)

Section Verification.

Lemma verify_view_env (w w' : World) :
  verify_view w' = verify_view w -> env w' = env w.
Proof. unfold verify_view. now intros [= _ _ _ _ _ ? _ _]. Qed.

Lemma checkHealth_healthy (t : Z) (r : HealthResponse) :
  Healthy (checkHealth t r) = answer_healthy r.
Proof. now destruct r. Qed.

Lemma VerifyResolution_spec (w : World) :
  (VerifyResolution w).1 = probe_ok (env w) (probes w) 0 /\
  probes (VerifyResolution w).2 = S (probes w) /\
  verify_view (VerifyResolution w).2 = verify_view w.
Proof.
  unfold VerifyResolution, probe_ok. rewrite !bind_run. cbn.
  rewrite checkHealth_healthy, Nat.add_0_r. auto.
Qed.

Lemma sleep_verify_view (d : Z) (w : World) :
  verify_view (sleep d w).2 = verify_view w /\
  probes (sleep d w).2 = probes w.
Proof. split; reflexivity. Qed.

Lemma verifyResolution_loop_spec (n : nat) (i : Z) (w : World) :
  (verifyResolution_loop n i w).1 = passes (env w) (probes w) n /\
  probes (verifyResolution_loop n i w).2
  = (probes w + used (env w) (probes w) n)%nat /\
  verify_view (verifyResolution_loop n i w).2 = verify_view w.
Proof.
  revert i w. induction n as [|n IH]; intros i w.
  - cbn. rewrite Nat.add_0_r. auto.
  - cbn [verifyResolution_loop passes used]. rewrite !bind_run.
    set (w1 := ((if i >? 0 then sleep 1000 else ret tt) w).2).
    assert (verify_view w1 = verify_view w /\ probes w1 = probes w)
      as [Hv1 Hp1] by (subst w1; destruct (i >? 0); split; reflexivity).
    assert (env w1 = env w) as He1 by now apply verify_view_env.
    destruct (VerifyResolution_spec w1) as (Hr & Hp & Hv).
    rewrite Hr. unfold probe_ok. rewrite Nat.add_0_r, He1, Hp1.
    destruct (answer_healthy (health_answers (env w) (probes w))).
    + destruct (IH (i + 1) (VerifyResolution w1).2) as (Hr' & Hp' & Hv').
      assert (env (VerifyResolution w1).2 = env w) as He2
        by (rewrite <- He1; now apply verify_view_env).
      rewrite Hr', Hp', Hv', He2, Hp, Hp1, Hv, Hv1.
      repeat split. lia.
    + unfold ret. cbn [fst snd]. rewrite Hp, Hp1, Hv, Hv1. repeat split. lia.
Qed.

Lemma verifyResolution_spec (w : World) :
  (verifyResolution w).1 = passes3 (env w) (probes w) /\
  probes (verifyResolution w).2 = (probes w + used3 (env w) (probes w))%nat /\
  verify_view (verifyResolution w).2 = verify_view w.
Proof.
  destruct (verifyResolution_loop_spec 3 0 w) as (Hr & Hp & Hv).
  unfold verifyResolution. rewrite Hr, Hp, Hv.
  unfold passes3, used3, probe_ok. cbn [passes used].
  rewrite !Nat.add_0_r.
  replace (probes w + 1)%nat with (S (probes w)) by lia.
  replace (probes w + 2)%nat with (S (S (probes w))) by lia.
  repeat split.
  - now rewrite andb_true_r, andb_assoc.
  - repeat match goal with
           | |- context [if ?c then _ else _] => destruct c
           end; reflexivity.
Qed.

End Verification.

(** C5. The verification loop makes at most three health requests, one
    after the other; it stops at the first one that fails, so that the number
    of requests made is the position of the first failure (three when none
    fails); and it reports success exactly when the three requests pass. *)
Theorem verification_three_probes_short_circuit (w : World) :
  let ok := probe_ok (env w) (probes w) in
  let requests := (probes (verifyResolution w).2 - probes w)%nat in
  (requests <= 3)%nat /\
  requests = (if ok 0%nat then if ok 1%nat then 3 else 2 else 1)%nat /\
  ((verifyResolution w).1 = true <->
   ok 0%nat = true /\ ok 1%nat = true /\ ok 2%nat = true) /\
  ((verifyResolution w).1 = false <->
   exists j : nat, (j < 3)%nat /\ ok j = false /\ requests = S j /\
                   forall j' : nat, (j' < j)%nat -> ok j' = true).
Proof.
  cbn zeta.
  destruct (verifyResolution_spec w) as (Hr & Hp & _).
  rewrite Hr, Hp. unfold passes3, used3.
  replace (probes w + _ - probes w)%nat
    with (if probe_ok (env w) (probes w) 0
          then if probe_ok (env w) (probes w) 1 then 3%nat else 2%nat
          else 1%nat) by lia.
  destruct (probe_ok (env w) (probes w) 0) eqn:H0;
    destruct (probe_ok (env w) (probes w) 1) eqn:H1;
    destruct (probe_ok (env w) (probes w) 2) eqn:H2;
    cbn [andb]; (split; [lia|]); (split; [reflexivity|]);
    (split; [intuition congruence|]); split; try discriminate.
  all: try (intros (j & Hj & Hf & Hn & Hall);
            assert (j = 0 \/ j = 1 \/ j = 2)%nat as [-> | [-> | ->]] by lia;
            congruence).
  all: intros _.
  - exists 2%nat. repeat split; auto.
    intros j' Hj'. assert (j' = 0 \/ j' = 1)%nat as [-> | ->] by lia; auto.
  - exists 1%nat. repeat split; auto.
    intros j' Hj'. assert (j' = 0)%nat as -> by lia; auto.
  - exists 1%nat. repeat split; auto.
    intros j' Hj'. assert (j' = 0)%nat as -> by lia; auto.
  - exists 0%nat. repeat split; auto. intros j' Hj'. lia.
  - exists 0%nat. repeat split; auto. intros j' Hj'. lia.
  - exists 0%nat. repeat split; auto. intros j' Hj'. lia.
  - exists 0%nat. repeat split; auto. intros j' Hj'. lia.
Qed.

(** ** Processing one incident: what happens to the incident object, the
       store and the counters *)

Section Processing.

Lemma replay_snoc (fws : list FieldWrite) (fw : FieldWrite) (i : Incident) :
  replay (fws ++ [fw]) i = apply_write fw (replay fws i).
Proof. unfold replay. now rewrite foldl_app. Qed.

Lemma apply_write_ID (fw : FieldWrite) (i : Incident) :
  ID (apply_write fw i) = ID i.
Proof. now destruct fw. Qed.

Lemma apply_write_Type (fw : FieldWrite) (i : Incident) :
  Type_ (apply_write fw i) = Type_ i.
Proof. now destruct fw. Qed.

Lemma replay_ID (fws : list FieldWrite) (i : Incident) :
  ID (replay fws i) = ID i.
Proof.
  induction fws as [|fw fws IH] using rev_ind; [reflexivity|].
  now rewrite replay_snoc, apply_write_ID.
Qed.

Lemma replay_Type (fws : list FieldWrite) (i : Incident) :
  Type_ (replay fws i) = Type_ i.
Proof.
  induction fws as [|fw fws IH] using rev_ind; [reflexivity|].
  now rewrite replay_snoc, apply_write_Type.
Qed.

Context (p : loc) (i : Incident) (w0 : World).

Lemma tracks_deref w fws fx k a :
  tracks p i w0 w fws fx k a -> deref p w = replay fws i.
Proof.
  intros T. unfold deref. now rewrite (tr_heap _ _ _ _ _ _ _ _ T),
    lookup_insert_eq.
Qed.

Lemma tracks_write w fws fx k a (fw : FieldWrite) :
  tracks p i w0 w fws fx k a ->
  tracks p i w0 (write p fw w).2 (fws ++ [fw]) fx k a.
Proof.
  intros [Hh Hw Hi Hf Hp Ha He]. split; cbn; auto.
  - rewrite Hh, alter_insert_eq, replay_snoc. reflexivity.
  - rewrite Hw. unfold at_loc. rewrite fmap_app, <- app_assoc. reflexivity.
Qed.

Lemma tracks_store_view w w' fws fx k a :
  store_view w' = store_view w ->
  tracks p i w0 w fws fx k a -> tracks p i w0 w' fws fx k a.
Proof.
  unfold store_view. intros [= Hh Hw Hi Hf Hp Ha He] [? ? ? ? ? ? ?].
  split; congruence.
Qed.

Lemma tracks_sleep w fws fx k a (d : Z) :
  tracks p i w0 w fws fx k a -> tracks p i w0 (sleep d w).2 fws fx k a.
Proof. apply tracks_store_view. reflexivity. Qed.

Lemma tracks_verify w fws fx k a :
  tracks p i w0 w fws fx k a ->
  (verifyResolution w).1 = passes3 (env w0) k /\
  tracks p i w0 (verifyResolution w).2 fws fx (k + used3 (env w0) k) a.
Proof.
  intros [Hh Hw Hi Hf Hp Ha He].
  destruct (verifyResolution_spec w) as (Hr & Hpr & Hv).
  rewrite He, Hp in Hr, Hpr. split; [exact Hr|].
  unfold verify_view in Hv.
  injection Hv as Hh' Hw' Hi' Hf' Ha' He' _ _.
  split; congruence.
Qed.

Lemma tracks_store w fws fx k a :
  tracks p i w0 w fws fx k a ->
  tracks p i w0 (StoreIncident p w).2 fws (learn (replay fws i) fx) k a.
Proof.
  intros T. pose proof (tracks_deref _ _ _ _ _ T) as Hd.
  destruct T as [Hh Hw Hi Hf Hp Ha He].
  unfold StoreIncident. rewrite !bind_run. cbn [gets fst snd].
  rewrite Hd. unfold learn.
  assert (<[ID (replay fws i) := p]> (incidents w) = <[ID i := p]> (incidents w0))
    as Hins by (rewrite replay_ID, Hi; apply insert_insert_eq).
  destruct (Resolution_ (replay fws i)) as [r|];
    [destruct (String.eqb (Status (replay fws i)) StatusResolved
               && res_Success r)|];
    split; cbn; auto; congruence.
Qed.

Lemma tracks_update_status w fws fx k a (status : IncidentStatus) :
  String.eqb status StatusResolved = false ->
  tracks p i w0 w fws fx k a ->
  tracks p i w0 (UpdateIncidentStatus (ID (deref p w)) status w).2
         (fws ++ [WStatus status]) fx k a.
Proof.
  intros Hs T. rewrite (tracks_deref _ _ _ _ _ T), replay_ID.
  unfold UpdateIncidentStatus. rewrite bind_run. cbn [gets fst snd].
  rewrite (tr_incidents _ _ _ _ _ _ _ _ T), lookup_insert_eq.
  rewrite !bind_run, Hs. cbn [ret fst snd].
  now apply tracks_write.
Qed.

Lemma GetQuickAnalysis_Type (i1 i2 : Incident) :
  Type_ i1 = Type_ i2 -> GetQuickAnalysis i1 = GetQuickAnalysis i2.
Proof. unfold GetQuickAnalysis. now intros ->. Qed.

Lemma tracks_analyze (useAI : bool) w fws fx k a :
  tracks p i w0 w fws fx k a ->
  (analyze useAI p w).1 = chosen_plan i useAI (env w0) a /\
  tracks p i w0 (analyze useAI p w).2 fws fx k
         (a + if useAI then 1 else 0)%nat.
Proof.
  intros T. pose proof (tracks_deref _ _ _ _ _ T) as Hd.
  assert (GetQuickAnalysis (replay fws i) = GetQuickAnalysis i) as Hq
    by apply GetQuickAnalysis_Type, replay_Type.
  destruct T as [Hh Hw Hi Hf Hp Ha He].
  unfold analyze, chosen_plan, callAnalyzeIncident. destruct useAI.
  - rewrite !bind_run. cbn [gets modify ret fst snd]. rewrite He, Ha.
    assert (tracks p i w0 (set_ai_calls S w) fws fx k (a + 1)%nat) as T'.
    { split; cbn; auto. lia. }
    destruct (AnalyzeIncident (chat_answers (env w0) a)) as [plan|e].
    + split; [reflexivity | exact T'].
    + rewrite bind_run. cbn [gets ret fst snd].
      rewrite (tracks_deref _ _ _ _ _ T'), Hq. split; [reflexivity | exact T'].
  - rewrite bind_run. cbn [gets ret fst snd]. rewrite Hd, Hq.
    split; [reflexivity|]. split; auto. lia.
Qed.

Lemma tracks_apply_cached w fws fx k a (cached : Resolution) :
  tracks p i w0 w fws fx k a ->
  is_err (ApplyCachedFix p cached w).1
  = negb (known_fix_type (res_FixType cached)) /\
  tracks p i w0 (ApplyCachedFix p cached w).2 fws fx k a.
Proof.
  intros T. destruct (ApplyCachedFix_frame p cached w) as [Hv He].
  split; [exact He | now apply (tracks_store_view w)].
Qed.

Lemma tracks_execute w fws fx k a (plan : AIResponse) :
  tracks p i w0 w fws fx k a ->
  (ExecuteFix p plan w).1.1
  = resolution_of plan (known_fix_type (ai_FixType plan)) /\
  is_err (ExecuteFix p plan w).1.2 = negb (known_fix_type (ai_FixType plan)) /\
  tracks p i w0 (ExecuteFix p plan w).2 fws fx k a.
Proof.
  intros T. destruct (ExecuteFix_frame p plan w) as (Hv & Hr & He).
  split; [exact Hr|]. split; [exact He | now apply (tracks_store_view w)].
Qed.

End Processing.

Section Summary.

Context (p : loc) (i : Incident) (w0 : World).

Lemma outcome_bind {A B : Type} (m : M A) (f : A -> M B) w Q :
  outcome m w (λ x w1, outcome (f x) w1 Q) -> outcome (bind m f) w Q.
Proof. unfold outcome. now rewrite bind_run. Qed.

Lemma outcome_ret {A : Type} (x : A) w (Q : A -> World -> Prop) :
  Q x w -> outcome (ret x) w Q.
Proof. exact id. Qed.

Lemma outcome_gets {A : Type} (f : World -> A) w (Q : A -> World -> Prop) :
  Q (f w) w -> outcome (gets f) w Q.
Proof. exact id. Qed.

Lemma outcome_write w fws fx k a fw (Q : unit -> World -> Prop) :
  tracks p i w0 w fws fx k a ->
  (forall w1, tracks p i w0 w1 (fws ++ [fw]) fx k a -> Q tt w1) ->
  outcome (write p fw) w Q.
Proof. intros T HQ. apply HQ. now apply tracks_write. Qed.

Lemma outcome_sleep w fws fx k a d (Q : unit -> World -> Prop) :
  tracks p i w0 w fws fx k a ->
  (forall w1, tracks p i w0 w1 fws fx k a -> Q tt w1) ->
  outcome (sleep d) w Q.
Proof. intros T HQ. apply HQ. now apply tracks_sleep. Qed.

Lemma outcome_now w fws fx k a (Q : Z -> World -> Prop) :
  tracks p i w0 w fws fx k a ->
  (forall t, Q t w) ->
  outcome now w Q.
Proof. intros T HQ. apply HQ. Qed.

Lemma outcome_store w fws fx k a (Q : unit -> World -> Prop) :
  tracks p i w0 w fws fx k a ->
  (forall w1, tracks p i w0 w1 fws (learn (replay fws i) fx) k a -> Q tt w1) ->
  outcome (StoreIncident p) w Q.
Proof.
  intros T HQ. unfold outcome.
  replace (StoreIncident p w).1 with tt by now destruct (StoreIncident p w).1.
  apply HQ. now apply tracks_store.
Qed.

Lemma outcome_update_status w fws fx k a status
      (Q : result unit -> World -> Prop) :
  String.eqb status StatusResolved = false ->
  tracks p i w0 w fws fx k a ->
  (forall (r : result unit) w1,
      tracks p i w0 w1 (fws ++ [WStatus status]) fx k a -> Q r w1) ->
  outcome (UpdateIncidentStatus (ID (deref p w)) status) w Q.
Proof. intros Hs T HQ. apply HQ. now apply tracks_update_status. Qed.

Lemma outcome_analyze (useAI : bool) w fws fx k a (Q : AIResponse -> World -> Prop) :
  tracks p i w0 w fws fx k a ->
  (forall w1, tracks p i w0 w1 fws fx k (a + if useAI then 1 else 0)%nat ->
              Q (chosen_plan i useAI (env w0) a) w1) ->
  outcome (analyze useAI p) w Q.
Proof.
  intros T HQ. destruct (tracks_analyze p i w0 useAI _ _ _ _ _ T) as [Hr T'].
  unfold outcome. rewrite Hr. now apply HQ.
Qed.

Lemma outcome_verify w fws fx k a (Q : bool -> World -> Prop) :
  tracks p i w0 w fws fx k a ->
  (forall w1, tracks p i w0 w1 fws fx (k + used3 (env w0) k) a ->
              Q (passes3 (env w0) k) w1) ->
  outcome verifyResolution w Q.
Proof.
  intros T HQ. destruct (tracks_verify p i w0 _ _ _ _ _ T) as [Hr T'].
  unfold outcome. rewrite Hr. now apply HQ.
Qed.

Lemma outcome_execute w fws fx k a plan
      (Q : Resolution * result unit -> World -> Prop) :
  tracks p i w0 w fws fx k a ->
  (forall fixed w1,
      fixed.1 = resolution_of plan (known_fix_type (ai_FixType plan)) ->
      is_err fixed.2 = negb (known_fix_type (ai_FixType plan)) ->
      tracks p i w0 w1 fws fx k a -> Q fixed w1) ->
  outcome (ExecuteFix p plan) w Q.
Proof.
  intros T HQ.
  destruct (tracks_execute p i w0 _ _ _ _ _ plan T) as (Hr & He & T').
  now apply HQ.
Qed.

Lemma outcome_apply_cached w fws fx k a cached
      (Q : result unit -> World -> Prop) :
  tracks p i w0 w fws fx k a ->
  (forall err w1,
      is_err err = negb (known_fix_type (res_FixType cached)) ->
      tracks p i w0 w1 fws fx k a -> Q err w1) ->
  outcome (ApplyCachedFix p cached) w Q.
Proof.
  intros T HQ.
  destruct (tracks_apply_cached p i w0 _ _ _ _ _ cached T) as (He & T').
  now apply HQ.
Qed.

(** *** The diagnosis path *)

Lemma replay_app (fws1 fws2 : list FieldWrite) (j : Incident) :
  replay (fws1 ++ fws2) j = replay fws2 (replay fws1 j).
Proof. unfold replay. apply foldl_app. Qed.

Lemma learn_not_resolved (j : Incident) (fx : gmap string Resolution) :
  String.eqb (Status j) StatusResolved = false -> learn j fx = fx.
Proof. unfold learn. intros ->. now destruct (Resolution_ j). Qed.

Lemma used3_passes3 (e : Env) (k : nat) :
  passes3 e k = true -> used3 e k = 3%nat.
Proof.
  unfold passes3, used3.
  destruct (probe_ok e k 0), (probe_ok e k 1); cbn; auto; discriminate.
Qed.

Lemma diagnose_summary (useAI : bool) w fws fx k a :
  tracks p i w0 w fws fx k a ->
  outcome (diagnose useAI p) w
    (diagnosis_end p i w0 (chosen_plan i useAI (env w0) a) fws fx k
                   (a + if useAI then 1 else 0)%nat).
Proof.
  intros T. unfold diagnose.
  apply outcome_bind, (outcome_write _ _ _ _ _ _ _ T). intros w1 T1.
  apply outcome_bind, outcome_gets.
  apply outcome_bind, (outcome_update_status _ _ _ _ _ StatusAnalyzing _ eq_refl T1).
  intros _ w2 T2.
  apply outcome_bind, (outcome_analyze _ _ _ _ _ _ _ T2). intros w3 T3.
  set (plan := chosen_plan i useAI (env w0) a) in *.
  apply outcome_bind, (outcome_write _ _ _ _ _ _ _ T3). intros w4 T4.
  apply outcome_bind, (outcome_write _ _ _ _ _ _ _ T4). intros w5 T5.
  apply outcome_bind, outcome_gets.
  apply outcome_bind, (outcome_update_status _ _ _ _ _ StatusFixing _ eq_refl T5).
  intros _ w6 T6.
  apply outcome_bind, (outcome_execute _ _ _ _ _ plan _ T6).
  intros [resolution err] w7 Hres Herr T7. cbn [fst snd] in *.
  repeat rewrite <- app_assoc in T7. cbn [app] in T7.
  destruct err as [[]|e]; cbn [is_err] in Herr.
  - (* the fix was applied *)
    assert (known_fix_type (ai_FixType plan) = true) as Hk
      by (destruct (known_fix_type _); [reflexivity | discriminate]).
    rewrite Hk in Hres. subst resolution.
    apply outcome_bind, (outcome_write _ _ _ _ _ _ _ T7). intros w8 T8.
    apply outcome_bind, (outcome_sleep _ _ _ _ _ _ _ T8). intros w9 T9.
    apply outcome_bind, (outcome_verify _ _ _ _ _ _ T9). intros w10 T10.
    destruct (passes3 (env w0) k) eqn:Hpass.
    + apply outcome_bind, (outcome_write _ _ _ _ _ _ _ T10). intros w11 T11.
      apply outcome_bind, (outcome_now _ _ _ _ _ _ T11). intros t.
      apply outcome_bind, (outcome_write _ _ _ _ _ _ _ T11). intros w12 T12.
      apply outcome_bind, (outcome_store _ _ _ _ _ _ T12). intros w13 T13.
      apply outcome_ret. apply (fix_verified _ _ _ _ _ _ _ _ t); auto.
      repeat rewrite <- app_assoc in T13. cbn [app] in T13.
      rewrite (used3_passes3 _ _ Hpass) in T13.
      unfold learn in T13. rewrite !replay_app in T13.
      cbn in T13. rewrite replay_Type in T13. exact T13.
    + apply outcome_bind, (outcome_write _ _ _ _ _ _ _ T10). intros w11 T11.
      apply outcome_bind, (outcome_store _ _ _ _ _ _ T11). intros w12 T12.
      apply outcome_ret. apply fix_not_verified; auto.
      repeat rewrite <- app_assoc in T12. cbn [app] in T12.
      rewrite learn_not_resolved in T12; [exact T12|].
      rewrite replay_app. reflexivity.
  - (* the executor returned an error *)
    apply outcome_bind, (outcome_write _ _ _ _ _ _ _ T7). intros w8 T8.
    apply outcome_bind, (outcome_store _ _ _ _ _ _ T8). intros w9 T9.
    apply outcome_ret. apply execute_failed.
    + destruct (known_fix_type _); [discriminate | reflexivity].
    + reflexivity.
    + repeat rewrite <- app_assoc in T9. cbn [app] in T9.
      rewrite learn_not_resolved in T9; [exact T9|].
      rewrite replay_app. reflexivity.
Qed.

(** *** The whole of [processIncident] *)

Lemma tracks_init :
  heap w0 !! p = Some i ->
  tracks p i w0 (StoreIncident p w0).2 []
         (learn i (fixes w0)) (probes w0) (ai_calls w0).
Proof.
  intros Hp. unfold StoreIncident. rewrite !bind_run. cbn [gets fst snd].
  assert (deref p w0 = i) as -> by (unfold deref; now rewrite Hp).
  unfold learn.
  destruct (Resolution_ i) as [r|];
    [destruct (String.eqb (Status i) StatusResolved && res_Success r)|];
    split; cbn; auto using app_nil_r; now rewrite insert_id.
Qed.

Lemma processIncident_summary (useAI : bool) :
  heap w0 !! p = Some i ->
  processed p i w0 useAI (processIncident useAI p w0).1 (after useAI p w0).
Proof.
  intros Hp. pose proof (tracks_init Hp) as T1.
  change (outcome (processIncident useAI p) w0 (processed p i w0 useAI)).
  unfold processIncident.
  apply outcome_bind. unfold outcome at 1.
  set (w1 := (StoreIncident p w0).2) in *.
  apply outcome_bind, outcome_gets. unfold GetLearnedFix.
  apply outcome_bind, outcome_gets.
  rewrite (tracks_deref _ _ _ _ _ _ _ _ T1). cbn [replay foldl].
  rewrite (tr_fixes _ _ _ _ _ _ _ _ T1).
  destruct (learn i (fixes w0) !! Type_ i) as [cached|] eqn:Hfix.
  2:{ apply (diagnosed_without_cache p i w0 useAI _ _ Hfix).
      exact (diagnose_summary useAI _ _ _ _ _ T1). }
  apply outcome_bind, (outcome_write _ _ _ _ _ _ _ T1). intros w2 T2.
  cbn [app] in T2.
  apply outcome_bind, (outcome_apply_cached _ _ _ _ _ cached _ T2).
  intros err w3 Herr T3.
  destruct err as [[]|e]; cbn [is_err] in Herr.
  - assert (known_fix_type (res_FixType cached) = true) as Hk
      by (destruct (known_fix_type _); [reflexivity | discriminate]).
    apply outcome_bind, (outcome_verify _ _ _ _ _ _ T3). intros w4 T4.
    destruct (passes3 (env w0) (probes w0)) eqn:Hpass.
    + apply outcome_bind, (outcome_write _ _ _ _ _ _ _ T4). intros w5 T5.
      apply outcome_bind, (outcome_now _ _ _ _ _ _ T5). intros t.
      apply outcome_bind, (outcome_write _ _ _ _ _ _ _ T5). intros w6 T6.
      apply outcome_bind, (outcome_write _ _ _ _ _ _ _ T6). intros w7 T7.
      apply outcome_bind, (outcome_store _ _ _ _ _ _ T7). intros w8 T8.
      apply outcome_ret.
      apply (cached_fix_verified p i w0 useAI cached t _ Hfix Hk Hpass).
      cbn [app] in T8. rewrite (used3_passes3 _ _ Hpass) in T8.
      unfold learn at 1 in T8. cbn in T8.
      destruct (res_Success cached); [|exact T8].
      rewrite insert_id in T8 by exact Hfix. exact T8.
    + apply (diagnosed_after_cached_fix_not_verified p i w0 useAI cached _ _
               Hfix Hk Hpass).
      exact (diagnose_summary useAI _ _ _ _ _ T4).
  - apply (diagnosed_after_cached_fix_not_applied p i w0 useAI cached _ _ Hfix).
    + destruct (known_fix_type _); [discriminate | reflexivity].
    + exact (diagnose_summary useAI _ _ _ _ _ T3).
Qed.

End Summary.

(** ** The life cycle of an incident *)

Section Lifecycle.

(** What a tracked world says about the final state. *)
Lemma tracks_final p i w0 w fws fx k a :
  tracks p i w0 w fws fx k a ->
  deref p w = replay fws i /\
  writes w = writes w0 ++ at_loc p fws /\
  heap w = <[p := replay fws i]> (heap w0) /\
  incidents w = <[ID i := p]> (incidents w0) /\
  fixes w = fx /\ probes w = k /\ ai_calls w = a /\ env w = env w0.
Proof.
  intros T. split; [exact (tracks_deref _ _ _ _ _ _ _ _ T)|].
  destruct T; auto 10.
Qed.

End Lifecycle.

(** C8. An incident built by [createIncident] has status [Detected].  When
    such an incident is processed, all the assignments of the run go to its
    own object; the statuses assigned, in order and starting from
    [Detected], never move back along Detected, Analyzing, Fixing,
    Resolved/Failed; no status is assigned once [Resolved] or [Failed] has
    been; and the run leaves the incident in the terminal status that was
    assigned last. *)
Theorem incident_status_moves_forward
    (useAI : bool) (health : HealthStatus) (o : Observation)
    (incident : Incident) (p : loc) (w0 : World) :
  createIncident health o = Some incident ->
  heap w0 !! p = Some incident ->
  Status incident = StatusDetected /\
  exists fws : list FieldWrite,
    writes (after useAI p w0) = writes w0 ++ at_loc p fws /\
    forward_only (Status incident :: statuses_of fws) = true /\
    last (statuses_of fws)
    = Some (Status (deref p (after useAI p w0))) /\
    terminal (Status (deref p (after useAI p w0))) = true.
Proof.
  intros Hcreated Hp.
  destruct (createIncident_spec health o) as (i' & Hc & _ & Hst & _).
  assert (i' = incident) as -> by congruence.
  split; [exact Hst|]. rewrite Hst.
  pose proof (processIncident_summary p incident w0 useAI Hp) as Hsum.
  destruct Hsum as [c t w _ _ _ T | r w _ Hd | c r w _ _ Hd | c r w _ _ _ Hd];
    [|destruct Hd as [e w _ _ T | t w _ _ T | w _ _ T] ..];
    apply tracks_final in T; destruct T as (Hderef & Hw & _);
    eexists; (split; [exact Hw|]); rewrite Hderef;
    unfold replay; rewrite ?foldl_app; cbn; auto.
Qed.

Lemma incident_status_moves_forward_witness :
  Status (service_down_incident "incident-6") = StatusDetected /\
  exists fws : list FieldWrite,
    writes (after true 1%positive (example_world restart_plan []))
    = writes (example_world restart_plan []) ++ at_loc 1%positive fws /\
    forward_only (Status (service_down_incident "incident-6")
                    :: statuses_of fws) = true /\
    last (statuses_of fws)
    = Some (Status (deref 1%positive
                      (after true 1%positive
                         (example_world restart_plan [])))) /\
    terminal (Status (deref 1%positive
                        (after true 1%positive
                           (example_world restart_plan [])))) = true.
Proof.
  apply (incident_status_moves_forward true
           (checkHealth 6 (obs_health (tick_at 6 false)))
           {| obs_now := 6; obs_health := obs_health (tick_at 6 false);
              obs_status := obs_status (tick_at 6 false);
              obs_status_logs := obs_status_logs (tick_at 6 false);
              obs_uuid := "incident-6" |}).
  - vm_compute. reflexivity.
  - vm_compute. reflexivity.
Defined.

(** ** Plans: validation and fallback *)

Section Plans.

Lemma known_fix_type_allowed (fixType : string) :
  known_fix_type fixType = true <-> fixType ∈ allowed_fix_types.
Proof.
  unfold known_fix_type, allowed_fix_types.
  rewrite !orb_true_iff, !String.eqb_eq, !elem_of_cons, elem_of_nil.
  tauto.
Qed.

Lemma validFixTypes_lookup (fixType : string) :
  default false (validFixTypes !! fixType) = known_fix_type fixType.
Proof.
  unfold validFixTypes, known_fix_type.
  destruct (String.eqb_spec fixType "restart") as [->|H1]; [reflexivity|].
  rewrite lookup_insert_ne by congruence.
  destruct (String.eqb_spec fixType "config") as [->|H2]; [reflexivity|].
  rewrite lookup_insert_ne by congruence.
  destruct (String.eqb_spec fixType "code") as [->|H3]; [reflexivity|].
  rewrite lookup_insert_ne by congruence.
  reflexivity.
Qed.

(** [parseResponse] accepts exactly the well-formed plans. *)
Lemma parseResponse_accepts (response : AIResponse) :
  well_formed_plan response -> parseResponse (Ok response) = Ok response.
Proof.
  intros (Hd & Hk & Hs). unfold parseResponse.
  apply known_fix_type_allowed in Hk.
  destruct (String.eqb_spec (ai_Diagnosis response) ""); [contradiction|].
  destruct (String.eqb_spec (ai_FixType response) "") as [He|_].
  { rewrite He in Hk. discriminate. }
  rewrite validFixTypes_lookup, Hk. cbn [negb].
  destruct (ai_FixSteps response); [contradiction | reflexivity].
Qed.

Lemma parseResponse_rejects (response : AIResponse) :
  ~ well_formed_plan response -> is_err (parseResponse (Ok response)) = true.
Proof.
  intros Hbad. unfold parseResponse.
  destruct (String.eqb_spec (ai_Diagnosis response) ""); [reflexivity|].
  destruct (String.eqb_spec (ai_FixType response) ""); [reflexivity|].
  rewrite validFixTypes_lookup.
  destruct (known_fix_type (ai_FixType response)) eqn:Hk; [|reflexivity].
  destruct (ai_FixSteps response) eqn:Hs; [reflexivity|].
  exfalso. apply Hbad. split; [assumption|]. split.
  - now apply known_fix_type_allowed.
  - rewrite Hs. discriminate.
Qed.

Lemma parseResponse_Ok_inv (decoded : result AIResponse) (plan : AIResponse) :
  parseResponse decoded = Ok plan -> well_formed_plan plan.
Proof.
  destruct decoded as [response|e]; [|discriminate].
  unfold parseResponse.
  destruct (String.eqb_spec (ai_Diagnosis response) ""); [discriminate|].
  destruct (String.eqb_spec (ai_FixType response) ""); [discriminate|].
  rewrite validFixTypes_lookup.
  destruct (known_fix_type (ai_FixType response)) eqn:Hk; [|discriminate].
  destruct (ai_FixSteps response) eqn:Hs; [discriminate|].
  intros [= <-]. split; [assumption|]. split.
  - now apply known_fix_type_allowed.
  - rewrite Hs. discriminate.
Qed.

Lemma GetQuickAnalysis_well_formed (incident : Incident) :
  well_formed_plan (GetQuickAnalysis incident).
Proof.
  unfold GetQuickAnalysis, well_formed_plan, allowed_fix_types.
  repeat match goal with
         | |- context [if ?c then _ else _] => destruct c
         end; cbn; (split; [discriminate|]); (split; [|discriminate]);
    rewrite !elem_of_cons; auto.
Qed.

Lemma AnalyzeIncident_Ok_inv (reply : ChatCompletion) (plan : AIResponse) :
  AnalyzeIncident reply = Ok plan -> well_formed_plan plan.
Proof.
  destruct reply as [err| |decoded]; try discriminate. cbn.
  destruct (parseResponse decoded) as [a|e] eqn:Hp; [|discriminate].
  intros [= <-]. now apply (parseResponse_Ok_inv decoded).
Qed.

(** Whatever the diagnosis source answers, the plan that is executed is
    well formed. *)
Lemma chosen_plan_well_formed (i : Incident) (useAI : bool) (e : Env) (a : nat) :
  well_formed_plan (chosen_plan i useAI e a).
Proof.
  unfold chosen_plan. destruct useAI; [|apply GetQuickAnalysis_well_formed].
  destruct (AnalyzeIncident (chat_answers e a)) eqn:Ha.
  - now apply (AnalyzeIncident_Ok_inv _ _ Ha).
  - apply GetQuickAnalysis_well_formed.
Qed.

Lemma chosen_plan_known (i : Incident) (useAI : bool) (e : Env) (a : nat) :
  known_fix_type (ai_FixType (chosen_plan i useAI e a)) = true.
Proof. apply known_fix_type_allowed, chosen_plan_well_formed. Qed.

(** When the answer of the diagnosis source is rejected, the plan is the
    rule-based one. *)
Lemma chosen_plan_fallback (i : Incident) (e : Env) (a : nat) :
  is_err (AnalyzeIncident (chat_answers e a)) = true ->
  chosen_plan i true e a = GetQuickAnalysis i.
Proof.
  unfold chosen_plan. now destruct (AnalyzeIncident (chat_answers e a)).
Qed.

End Plans.

(** C6. A decoded answer of the diagnosis source with an empty diagnosis,
    with a fix kind outside restart, config, code (the empty, missing one
    included) or with no step is rejected by [parseResponse], hence by
    [AnalyzeIncident]; the analysis phase then settles on the rule-based plan
    of [GetQuickAnalysis], and whenever processing the incident consults the
    diagnosis source, the diagnosis and the resolution recorded on the
    incident are those of the rule-based plan.  For every incident, of a
    declared class or not, the rule-based plan has a non-empty diagnosis, an
    allowed fix kind and at least one step: it passes the validation that the
    answers of the diagnosis source undergo. *)
Theorem rejected_answer_replaced_by_rule_based_plan
    (response : AIResponse) (p : loc) (i : Incident) (w0 : World) :
  ai_Diagnosis response = "" \/
  ai_FixType response ∉ allowed_fix_types \/
  ai_FixSteps response = [] ->
  heap w0 !! p = Some i ->
  chat_answers (env w0) (ai_calls w0) = ChatContent (Ok response) ->
  is_err (parseResponse (Ok response)) = true /\
  is_err (AnalyzeIncident (ChatContent (Ok response))) = true /\
  (analyze true p w0).1 = GetQuickAnalysis i /\
  (let w := after true p w0 in
   ai_calls w = ai_calls w0 \/
   (ai_calls w = S (ai_calls w0) /\
    Diagnosis (deref p w) = ai_Diagnosis (GetQuickAnalysis i) /\
    Resolution_ (deref p w)
    = Some (resolution_of (GetQuickAnalysis i) true))) /\
  (forall any : Incident,
      well_formed_plan (GetQuickAnalysis any) /\
      parseResponse (Ok (GetQuickAnalysis any)) = Ok (GetQuickAnalysis any)).
Proof.
  intros Hbad Hp Hchat.
  assert (~ well_formed_plan response) as Hnwf.
  { intros (Hd & Hk & Hs). destruct Hbad as [H | [H | H]]; contradiction. }
  pose proof (parseResponse_rejects _ Hnwf) as Hrej.
  assert (is_err (AnalyzeIncident (ChatContent (Ok response))) = true) as Hana.
  { cbn [AnalyzeIncident].
    destruct (parseResponse (Ok response)); [discriminate | reflexivity]. }
  split; [exact Hrej|]. split; [exact Hana|]. split; [|split].
  - unfold analyze, callAnalyzeIncident. rewrite !bind_run.
    cbn [gets modify ret fst snd]. rewrite Hchat.
    destruct (AnalyzeIncident (ChatContent (Ok response))); [discriminate|].
    rewrite bind_run. cbn [gets ret fst snd]. unfold deref. cbn. now rewrite Hp.
  - cbn zeta.
    assert (chosen_plan i true (env w0) (ai_calls w0) = GetQuickAnalysis i)
      as Hplan by (apply chosen_plan_fallback; now rewrite Hchat).
    pose proof (processIncident_summary p i w0 true Hp) as Hsum.
      pose proof (chosen_plan_known i true (env w0) (ai_calls w0)) as Hknown.
    destruct Hsum as [c t w _ _ _ T | r w _ Hd | c r w _ _ Hd | c r w _ _ _ Hd];
      [left; now destruct T | ..];
      (destruct Hd as [e w Hunk _ T | t w _ _ T | w _ _ T];
       [congruence | ..]);
      rewrite Hplan in T;
      right; apply tracks_final in T;
      destruct T as (Hderef & _ & _ & _ & _ & _ & Hai & _);
      rewrite Hderef, Hai; unfold replay; rewrite ?foldl_app; cbn;
      (split; [lia | split; reflexivity]).
  - intros any. pose proof (GetQuickAnalysis_well_formed any) as Hwf.
    split; [exact Hwf | now apply parseResponse_accepts].
Qed.

Lemma rejected_answer_replaced_by_rule_based_plan_witness :
  is_err (parseResponse (Ok reboot_plan)) = true /\
  is_err (AnalyzeIncident (ChatContent (Ok reboot_plan))) = true /\
  (analyze true 1%positive (example_world reboot_plan [])).1
  = GetQuickAnalysis (service_down_incident "incident-6") /\
  (let w := after true 1%positive (example_world reboot_plan []) in
   ai_calls w = ai_calls (example_world reboot_plan []) \/
   (ai_calls w = S (ai_calls (example_world reboot_plan [])) /\
    Diagnosis (deref 1%positive w)
    = ai_Diagnosis (GetQuickAnalysis (service_down_incident "incident-6")) /\
    Resolution_ (deref 1%positive w)
    = Some (resolution_of
              (GetQuickAnalysis (service_down_incident "incident-6")) true))) /\
  (forall any : Incident,
      well_formed_plan (GetQuickAnalysis any) /\
      parseResponse (Ok (GetQuickAnalysis any)) = Ok (GetQuickAnalysis any)).
Proof.
  apply (rejected_answer_replaced_by_rule_based_plan reboot_plan 1%positive
           (service_down_incident "incident-6") (example_world reboot_plan [])).
  - right. left. unfold allowed_fix_types. cbn.
    rewrite !elem_of_cons, elem_of_nil. intros [H | [H | [H | []]]]; discriminate.
  - vm_compute. reflexivity.
  - reflexivity.
Defined.

(** ** The cached-fix path *)

Section CachedFix.

Lemma flags_none_keeps (fws : list FieldWrite) (j : Incident) :
  flags_of fws = [] -> UsedCachedFix (replay fws j) = UsedCachedFix j.
Proof.
  induction fws as [|fw fws IH] using rev_ind; [reflexivity|].
  unfold flags_of. rewrite omap_app. intros Hf.
  apply app_eq_nil in Hf as [Hf1 Hf2].
  rewrite replay_snoc.
  destruct fw; cbn in *; try discriminate; now apply IH.
Qed.

Lemma flags_none_take (fws : list FieldWrite) (n : nat) :
  flags_of fws = [] -> flags_of (take n fws) = [].
Proof.
  revert n. induction fws as [|fw fws IH]; intros n Hf.
  - now destruct n.
  - destruct n as [|n]; [reflexivity|]. cbn [take].
    unfold flags_of in *. cbn [omap] in *.
    destruct fw; cbn in *; try discriminate; now apply IH.
Qed.

(** Once the flag is set by the first assignment and not assigned
    again, it is set after every non-empty prefix of the run. *)
Lemma flag_stays (rest : list FieldWrite) (j : Incident) (n : nat) :
  flags_of rest = [] -> (0 < n)%nat ->
  UsedCachedFix (replay (take n (WUsedCachedFix true :: rest)) j) = true.
Proof.
  intros Hf Hn. destruct n as [|n]; [lia|]. cbn [take].
  change (replay (WUsedCachedFix true :: take n rest) j)
    with (replay (take n rest) (apply_write (WUsedCachedFix true) j)).
  rewrite flags_none_keeps by now apply flags_none_take. reflexivity.
Qed.

Lemma known_fix_type_not_allowed (fixType : string) :
  fixType ∉ allowed_fix_types -> known_fix_type fixType = false.
Proof.
  intros Hn. destruct (known_fix_type fixType) eqn:Hk; [|reflexivity].
  now apply known_fix_type_allowed in Hk.
Qed.

(** Processing assigns to an allocated object: no object appears or
    disappears. *)
Lemma tracks_dom p i w0 w fws fx k a :
  heap w0 !! p = Some i ->
  tracks p i w0 w fws fx k a -> dom (heap w) = dom (heap w0).
Proof.
  intros Hp T. rewrite (tr_heap _ _ _ _ _ _ _ _ T), dom_insert_L.
  apply elem_of_dom_2 in Hp.
  apply subseteq_union_1_L, singleton_subseteq_l, Hp.
Qed.

End CachedFix.

#[local] Ltac fell_through T tail :=
  exists tail;
  let Hderef := fresh "Hderef" in
  let Hw := fresh "Hw" in
  let Hh := fresh "Hh" in
  let Hi := fresh "Hi" in
  let Hai := fresh "Hai" in
  pose proof (tracks_final _ _ _ _ _ _ _ _ T)
    as (Hderef & Hw & Hh & Hi & _ & _ & Hai & _);
  rewrite Hderef, Hw, Hi, Hai;
  split; [reflexivity|]; split; [exact Hh|];
  split; [eapply tracks_dom; eassumption|];
  split; [reflexivity|]; split; [apply replay_ID|];
  split; [reflexivity|];
  split; [intros n Hn; now apply flag_stays|];
  unfold replay; rewrite ?foldl_app; cbn; auto.

(** C9. When the store holds a fix for the class of an incident and that
    fix cannot be applied, or one of the three health requests that follow
    its application fails, the run goes on with the diagnosis path on the
    same incident object: all assignments of the run go to that object,
    first the flag [UsedCachedFix], then those of the diagnosis path; no
    other object is created or changed and the store keeps a single record,
    under the unchanged identifier; the flag is never assigned again and is
    set after every step of the run; the diagnosis source is consulted
    (when enabled) and the run ends in a terminal status. *)
Theorem cached_fix_failure_continues_with_diagnosis
    (useAI : bool) (p : loc) (i : Incident) (w0 : World) (cached : Resolution) :
  heap w0 !! p = Some i ->
  Status i = StatusDetected ->
  fixes w0 !! Type_ i = Some cached ->
  res_FixType cached ∉ allowed_fix_types \/
  passes3 (env w0) (probes w0) = false ->
  let w := after useAI p w0 in
  let plan := chosen_plan i useAI (env w0) (ai_calls w0) in
  exists tail : list FieldWrite,
    let fws := WUsedCachedFix true :: diagnosis_writes plan ++ tail in
    writes w = writes w0 ++ at_loc p fws /\
    heap w = <[p := replay fws i]> (heap w0) /\
    dom (heap w) = dom (heap w0) /\
    incidents w = <[ID i := p]> (incidents w0) /\
    ID (deref p w) = ID i /\
    flags_of fws = [true] /\
    (forall n : nat, (0 < n)%nat ->
                     UsedCachedFix (replay (take n fws) i) = true) /\
    UsedCachedFix (deref p w) = true /\
    Diagnosis (deref p w) = ai_Diagnosis plan /\
    terminal (Status (deref p w)) = true /\
    ai_calls w = (ai_calls w0 + if useAI then 1 else 0)%nat.
Proof.
  intros Hp Hst Hfix Hfail. cbn zeta.
  assert (learn i (fixes w0) = fixes w0) as Hlearn
    by (apply learn_not_resolved; now rewrite Hst).
  pose proof (processIncident_summary p i w0 useAI Hp) as Hsum.
  pose proof (chosen_plan_known i useAI (env w0) (ai_calls w0)) as Hknown.
  destruct Hsum as [c t w Hc Hk Hpass T | r w Hnone Hd | c r w Hc Hk Hd
                   | c r w Hc Hk Hpass Hd].
  - (* the cached fix was verified: excluded by the hypothesis *)
    rewrite Hlearn in Hc. assert (c = cached) as -> by congruence.
    destruct Hfail as [Hbad | Hnp]; [|congruence].
    apply known_fix_type_not_allowed in Hbad. congruence.
  - rewrite Hlearn in Hnone. congruence.
  - destruct Hd as [e w Hunk _ T | t w _ _ T | w _ _ T]; [congruence | ..].
    + fell_through T
        [WResolution
           (resolution_of (chosen_plan i useAI (env w0) (ai_calls w0)) true);
         WStatus StatusResolved; WResolvedAt t].
    + fell_through T
        [WResolution
           (resolution_of (chosen_plan i useAI (env w0) (ai_calls w0)) true);
         WStatus StatusFailed].
  - destruct Hd as [e w Hunk _ T | t w _ _ T | w _ _ T]; [congruence | ..].
    + fell_through T
        [WResolution
           (resolution_of (chosen_plan i useAI (env w0) (ai_calls w0)) true);
         WStatus StatusResolved; WResolvedAt t].
    + fell_through T
        [WResolution
           (resolution_of (chosen_plan i useAI (env w0) (ai_calls w0)) true);
         WStatus StatusFailed].
Qed.

Lemma cached_fix_failure_continues_with_diagnosis_witness :
  exists tail : list FieldWrite,
    let fws :=
      WUsedCachedFix true
        :: diagnosis_writes
             (chosen_plan (service_down_incident "incident-60") true
                (env learned_world) (ai_calls learned_world)) ++ tail in
    writes relearned_world = writes learned_world ++ at_loc 2%positive fws /\
    heap relearned_world
    = <[2%positive := replay fws (service_down_incident "incident-60")]>
        (heap learned_world) /\
    dom (heap relearned_world) = dom (heap learned_world) /\
    incidents relearned_world
    = <[ID (service_down_incident "incident-60") := 2%positive]>
        (incidents learned_world) /\
    ID (deref 2%positive relearned_world)
    = ID (service_down_incident "incident-60") /\
    flags_of fws = [true] /\
    (forall n : nat,
        (0 < n)%nat ->
        UsedCachedFix
          (replay (take n fws) (service_down_incident "incident-60")) = true) /\
    UsedCachedFix (deref 2%positive relearned_world) = true /\
    Diagnosis (deref 2%positive relearned_world)
    = ai_Diagnosis
        (chosen_plan (service_down_incident "incident-60") true
           (env learned_world) (ai_calls learned_world)) /\
    terminal (Status (deref 2%positive relearned_world)) = true /\
    ai_calls relearned_world = (ai_calls learned_world + 1)%nat.
Proof.
  apply (cached_fix_failure_continues_with_diagnosis true 2%positive
           (service_down_incident "incident-60") learned_world
           (resolution_of restart_plan true)).
  - vm_compute. reflexivity.
  - reflexivity.
  - vm_compute. reflexivity.
  - right. vm_compute. reflexivity.
Defined.

(** ** Learning and reuse *)

Section Reuse.

Lemma resolved_means_learned (useAI : bool) p i w0 :
  heap w0 !! p = Some i ->
  Status (deref p (after useAI p w0)) = StatusResolved ->
  exists cached : Resolution,
    fixes (after useAI p w0) !! Type_ i = Some cached /\
    known_fix_type (res_FixType cached) = true.
Proof.
  intros Hp Hres.
  pose proof (processIncident_summary p i w0 useAI Hp) as Hsum.
  pose proof (chosen_plan_known i useAI (env w0) (ai_calls w0)) as Hknown.
  destruct Hsum as [c t w Hc Hk _ T | r w _ Hd | c r w _ _ Hd | c r w _ _ _ Hd];
    [|destruct Hd as [e w Hunk _ T | t w _ _ T | w _ _ T] ..];
    try congruence;
    pose proof (tracks_final _ _ _ _ _ _ _ _ T)
      as (Hderef & _ & _ & _ & Hfx & _);
    rewrite Hderef in Hres; rewrite Hfx;
    unfold replay in Hres; rewrite ?foldl_app in Hres; cbn in Hres;
    try discriminate Hres.
  - exists c. auto.
  - eexists. rewrite lookup_insert_eq. split; [reflexivity | exact Hknown].
  - eexists. rewrite lookup_insert_eq. split; [reflexivity | exact Hknown].
  - eexists. rewrite lookup_insert_eq. split; [reflexivity | exact Hknown].
Qed.

Lemma processed_tracks (useAI : bool) p i w0 r w :
  processed p i w0 useAI r w ->
  exists fws k a,
    tracks p i w0 w fws (fixes w) k a /\
    (fixes w = learn i (fixes w0) \/
     exists res, fixes w = <[Type_ i := res]> (learn i (fixes w0))).
Proof.
  intros [c t w' _ _ _ T | r' w' _ Hd | c r' w' _ _ Hd | c r' w' _ _ _ Hd];
    [|destruct Hd as [e w' _ _ T | t w' _ _ T | w' _ _ T] ..];
    pose proof (tr_fixes _ _ _ _ _ _ _ _ T) as Hfx;
    rewrite <- Hfx in T; eauto 10.
Qed.

Lemma learn_other i (fx : gmap string Resolution) (ty : string) :
  Type_ i <> ty -> learn i fx !! ty = fx !! ty.
Proof.
  intros Hne. unfold learn. destruct (Resolution_ i); [|reflexivity].
  destruct (_ && _); [now apply lookup_insert_ne | reflexivity].
Qed.

(** Processing an incident of another class leaves the fix of the class
    [ty] as it is, and every incident object keeps its class. *)
Lemma after_other_class (useAI : bool) p i w0 (ty : string) :
  heap w0 !! p = Some i -> Type_ i <> ty ->
  fixes (after useAI p w0) !! ty = fixes w0 !! ty.
Proof.
  intros Hp Hne.
  pose proof (processIncident_summary p i w0 useAI Hp) as Hsum.
  apply processed_tracks in Hsum as (fws & k & a & _ & [Hfx | [res Hfx]]);
    rewrite Hfx, ?lookup_insert_ne by exact Hne;
    now apply learn_other.
Qed.

Lemma after_keeps_classes (useAI : bool) p i w0 q j :
  heap w0 !! p = Some i -> heap w0 !! q = Some j ->
  exists j', heap (after useAI p w0) !! q = Some j' /\ Type_ j' = Type_ j.
Proof.
  intros Hp Hq.
  pose proof (processIncident_summary p i w0 useAI Hp) as Hsum.
  apply processed_tracks in Hsum as (fws & k & a & T & _).
  rewrite (tr_heap _ _ _ _ _ _ _ _ T).
  destruct (decide (p = q)) as [->|Hne].
  - rewrite lookup_insert_eq. eexists. split; [reflexivity|].
    rewrite replay_Type. congruence.
  - rewrite lookup_insert_ne by exact Hne. eauto.
Qed.

Lemma after_all_other_classes (useAI : bool) (ty : string) (ps : list loc) w :
  Forall (of_other_class ty w) ps ->
  fixes (after_all useAI ps w) !! ty = fixes w !! ty.
Proof.
  revert w. induction ps as [|p ps IH]; intros w Hall; [reflexivity|].
  inversion Hall as [|? ? (i & Hp & Hne) Hrest]; subst.
  unfold after_all. cbn [handleIncidents]. rewrite bind_run.
  fold (after useAI p w). fold (after_all useAI ps (after useAI p w)).
  rewrite IH.
  - now apply (after_other_class useAI p i).
  - eapply Forall_impl; [exact Hrest|]. intros q (j & Hq & Hj).
    destruct (after_keeps_classes useAI p i w q j Hp Hq) as (j' & Hq' & Hty).
    exists j'. split; [exact Hq' | congruence].
Qed.

End Reuse.

(** C4, as stated, fails: the first example incident is resolved and its
    fix is learned; the second one, of the same class, finds the learned fix
    and has [UsedCachedFix] set, but the health request that follows the
    cached fix fails and the diagnosis source is called once more. *)
Lemma failed_cached_fix_calls_diagnosis_source :
  Status (deref 1%positive learned_world) = StatusResolved /\
  Type_ (deref 2%positive learned_world)
  = Type_ (deref 1%positive learned_world) /\
  is_Some (fixes learned_world !! Type_ (deref 2%positive learned_world)) /\
  UsedCachedFix (deref 2%positive relearned_world) = true /\
  ai_calls relearned_world = S (ai_calls learned_world).
Proof.
  split; [vm_compute; reflexivity|].
  split; [vm_compute; reflexivity|].
  split; [vm_compute; eauto|].
  split; vm_compute; reflexivity.
Qed.

(** C4, amended. After an incident of a class has been resolved, the store
    holds a fix for that class, and keeps it while incidents of other classes
    are processed; processing the next incident of the class finds it and
    sets [UsedCachedFix]; when the three health requests that follow the
    cached fix pass, the incident is resolved with the cached fix and the
    diagnosis source is not called; when one of them fails, the run falls
    through to the diagnosis path, which calls the diagnosis source once if
    it is enabled. *)
Theorem learned_fix_reused_for_next_incident
    (useAI : bool) (p1 p2 : loc) (i1 i2 : Incident) (others : list loc)
    (w0 : World) :
  heap w0 !! p1 = Some i1 ->
  Status (deref p1 (after useAI p1 w0)) = StatusResolved ->
  Forall (of_other_class (Type_ i1) (after useAI p1 w0)) others ->
  heap (after_all useAI others (after useAI p1 w0)) !! p2 = Some i2 ->
  Status i2 = StatusDetected ->
  Type_ i2 = Type_ i1 ->
  let w1 := after_all useAI others (after useAI p1 w0) in
  let w2 := after useAI p2 w1 in
  exists cached : Resolution,
    (GetLearnedFix (Type_ i1) (after useAI p1 w0)).1 = Some cached /\
    (GetLearnedFix (Type_ i2) w1).1 = Some cached /\
    UsedCachedFix (deref p2 w2) = true /\
    (passes3 (env w1) (probes w1) = true ->
     ai_calls w2 = ai_calls w1 /\
     Status (deref p2 w2) = StatusResolved /\
     Resolution_ (deref p2 w2) = Some cached) /\
    (passes3 (env w1) (probes w1) = false ->
     ai_calls w2 = (ai_calls w1 + if useAI then 1 else 0)%nat).
Proof.
  intros Hp1 Hres Hothers Hp2 Hst Hty. cbn zeta.
  destruct (resolved_means_learned useAI p1 i1 w0 Hp1 Hres)
    as (cached & Hfix & Hk).
  pose proof (after_all_other_classes useAI (Type_ i1) others _ Hothers) as Hkeep.
  set (w1 := after_all useAI others (after useAI p1 w0)) in *.
  exists cached. unfold GetLearnedFix. cbn [gets fst]. rewrite Hty.
  assert (fixes w1 !! Type_ i1 = Some cached) as Hfix1
    by (etrans; [exact Hkeep | exact Hfix]).
  split; [exact Hfix|]. split; [exact Hfix1|].
  clear Hfix Hkeep. rename Hfix1 into Hfix.
  assert (learn i2 (fixes w1) = fixes w1) as Hlearn
    by (apply learn_not_resolved; now rewrite Hst).
  pose proof (processIncident_summary p2 i2 w1 useAI Hp2) as Hsum.
  pose proof (chosen_plan_known i2 useAI (env w1) (ai_calls w1)) as Hknown.
  rewrite <- Hty in Hfix.
  destruct Hsum as [c t w Hc _ Hpass T | r w Hnone Hd | c r w Hc Hunk Hd
                   | c r w Hc _ Hpass Hd];
    rewrite Hlearn in *.
  - assert (c = cached) as -> by congruence.
    pose proof (tracks_final _ _ _ _ _ _ _ _ T)
      as (Hderef & _ & _ & _ & _ & _ & Hai & _).
    rewrite Hderef, Hai. cbn. split; [reflexivity|]. split; [auto|congruence].
  - congruence.
  - assert (c = cached) as -> by congruence. congruence.
  - destruct Hd as [e w Hunk _ T | t w _ _ T | w _ _ T]; [congruence | ..];
      pose proof (tracks_final _ _ _ _ _ _ _ _ T)
        as (Hderef & _ & _ & _ & _ & _ & Hai & _);
      rewrite Hderef, Hai; unfold replay; rewrite ?foldl_app; cbn;
      (split; [reflexivity|]); (split; [congruence | reflexivity]).
Qed.

Lemma learned_fix_reused_for_next_incident_witness :
  exists cached : Resolution,
    (GetLearnedFix (Type_ (service_down_incident "incident-6"))
       (after true 1%positive (example_world restart_plan []))).1
    = Some cached /\
    (GetLearnedFix (Type_ (service_down_incident "incident-60"))
       (after_all true []
          (after true 1%positive (example_world restart_plan [])))).1
    = Some cached /\
    UsedCachedFix
      (deref 2%positive
         (after true 2%positive
            (after_all true []
               (after true 1%positive (example_world restart_plan [])))))
    = true /\
    (passes3
       (env (after_all true []
               (after true 1%positive (example_world restart_plan []))))
       (probes (after_all true []
                  (after true 1%positive (example_world restart_plan []))))
     = true ->
     ai_calls
       (after true 2%positive
          (after_all true []
             (after true 1%positive (example_world restart_plan []))))
     = ai_calls
         (after_all true []
            (after true 1%positive (example_world restart_plan []))) /\
     Status
       (deref 2%positive
          (after true 2%positive
             (after_all true []
                (after true 1%positive (example_world restart_plan [])))))
     = StatusResolved /\
     Resolution_
       (deref 2%positive
          (after true 2%positive
             (after_all true []
                (after true 1%positive (example_world restart_plan [])))))
     = Some cached) /\
    (passes3
       (env (after_all true []
               (after true 1%positive (example_world restart_plan []))))
       (probes (after_all true []
                  (after true 1%positive (example_world restart_plan []))))
     = false ->
     ai_calls
       (after true 2%positive
          (after_all true []
             (after true 1%positive (example_world restart_plan []))))
     = (ai_calls
          (after_all true []
             (after true 1%positive (example_world restart_plan []))) + 1)%nat).
Proof.
  apply (learned_fix_reused_for_next_incident true 1%positive 2%positive
           (service_down_incident "incident-6")
           (service_down_incident "incident-60") []
           (example_world restart_plan [])).
  - vm_compute. reflexivity.
  - vm_compute. reflexivity.
  - constructor.
  - vm_compute. reflexivity.
  - reflexivity.
  - reflexivity.
Defined.

Section FailedRuns.

(** A run that ends in [Failed] has applied a fix, which set the success
    flag of the resolution, and then seen a verification fail. *)
Lemma failed_run_keeps_success_flag (useAI : bool) p i w0 :
  heap w0 !! p = Some i ->
  Status (deref p (after useAI p w0)) = StatusFailed ->
  (exists r : Resolution,
      Resolution_ (deref p (after useAI p w0)) = Some r /\
      res_Success r = true) /\
  fixes (after useAI p w0) = learn i (fixes w0) /\
  exists k : nat, (probes w0 <= k)%nat /\ passes3 (env w0) k = false.
Proof.
  intros Hp.
  pose proof (processIncident_summary p i w0 useAI Hp) as Hsum.
  pose proof (chosen_plan_known i useAI (env w0) (ai_calls w0)) as Hknown.
  destruct Hsum as [c t w _ _ Hpass T | r w _ Hd | c r w _ _ Hd
                   | c r w _ _ _ Hd];
    [|destruct Hd as [e w Hunk _ T | t w _ Hpass T | w _ Hpass T] ..];
    try congruence;
    pose proof (tracks_final _ _ _ _ _ _ _ _ T)
      as (Hderef & _ & _ & _ & Hfx & _);
    rewrite Hderef, Hfx;
    unfold replay; rewrite ?foldl_app; cbn;
    intros Hfailed; try discriminate Hfailed;
    (split; [eexists; split; reflexivity|]);
    (split; [reflexivity|]);
    eexists; (split; [|exact Hpass]); lia.
Qed.

End FailedRuns.

(** C7, as stated, fails: the success flag of a resolution is not set
    after the verification has passed, but by [ExecuteFix] as soon as the
    fix has been applied, before any health request.  The first example
    incident, whose first health request fails, ends [Failed] with a
    resolution whose success flag is on; the store has learned nothing. *)
Lemma success_flag_set_before_verification :
  res_Success (ExecuteFix 1%positive restart_plan
                 (example_world restart_plan [0%nat])).1.1 = true /\
  probes (ExecuteFix 1%positive restart_plan
            (example_world restart_plan [0%nat])).2 = 0%nat /\
  (verifyResolution (example_world restart_plan [0%nat])).1 = false /\
  Status (deref 1%positive
            (after true 1%positive (example_world restart_plan [0%nat])))
  = StatusFailed /\
  (exists r : Resolution,
      Resolution_ (deref 1%positive
                     (after true 1%positive
                        (example_world restart_plan [0%nat]))) = Some r /\
      res_Success r = true) /\
  fixes (after true 1%positive (example_world restart_plan [0%nat])) = ∅.
Proof.
  split; [vm_compute; reflexivity|].
  split; [vm_compute; reflexivity|].
  split; [vm_compute; reflexivity|].
  split; [vm_compute; reflexivity|].
  split; [eexists; split; vm_compute; reflexivity|].
  vm_compute. reflexivity.
Qed.

(** C7, amended. [StoreIncident] changes the learned fixes only for an
    incident whose status is [Resolved] and whose resolution has its
    success flag set; it then puts that resolution under the class of the
    incident, in place of the entry the class had, the other classes keeping
    theirs, so that the number of entries does not grow when the class had
    one.  While an incident that starts in [Detected] is processed, it is
    the status [Resolved], not the success flag, that is reached only after
    three health requests in a row have passed; the learned fixes change
    only if the run ends in [Resolved] with a resolution whose success flag
    is set, that resolution becoming the entry of the class; and a run that
    ends in [Failed] after a verification that did not pass leaves a
    resolution whose success flag is on, which is not learned. *)
Theorem fix_cache_written_only_on_verified_success
    (useAI : bool) (p : loc) (i : Incident) (w0 : World) :
  heap w0 !! p = Some i ->
  (fixes (StoreIncident p w0).2 <> fixes w0 ->
   Status i = StatusResolved /\
   exists r : Resolution, Resolution_ i = Some r /\ res_Success r = true) /\
  (forall r : Resolution,
      Status i = StatusResolved -> Resolution_ i = Some r ->
      res_Success r = true ->
      let w := (StoreIncident p w0).2 in
      (GetLearnedFix (Type_ i) w).1 = Some r /\
      (forall ty : string, ty <> Type_ i -> fixes w !! ty = fixes w0 !! ty) /\
      (is_Some (fixes w0 !! Type_ i) -> size (fixes w) = size (fixes w0))) /\
  (Status i = StatusDetected ->
   let w := after useAI p w0 in
   (Status (deref p w) = StatusResolved ->
    exists k : nat,
      (probes w0 <= k)%nat /\ probes w = (k + 3)%nat /\
      passes3 (env w0) k = true) /\
   (fixes w <> fixes w0 ->
    Status (deref p w) = StatusResolved /\
    exists r : Resolution,
      Resolution_ (deref p w) = Some r /\ res_Success r = true /\
      fixes w = <[Type_ i := r]> (fixes w0)) /\
   (Status (deref p w) = StatusFailed ->
    (exists r : Resolution,
        Resolution_ (deref p w) = Some r /\ res_Success r = true) /\
    fixes w = fixes w0 /\
    exists k : nat, (probes w0 <= k)%nat /\ passes3 (env w0) k = false)).
Proof.
  intros Hp.
  assert (fixes (StoreIncident p w0).2 = learn i (fixes w0)) as Hstore
    by exact (tr_fixes _ _ _ _ _ _ _ _ (tracks_init p i w0 Hp)).
  split; [|split].
  - rewrite Hstore. unfold learn. intros Hne.
    destruct (Resolution_ i) as [r|]; [|contradiction].
    destruct (String.eqb_spec (Status i) StatusResolved) as [Hs|];
      [|contradiction].
    destruct (res_Success r) eqn:Hsucc; [|contradiction]. eauto.
  - intros r Hs Hr Hsucc. cbn zeta. unfold GetLearnedFix. cbn [gets fst].
    rewrite Hstore. unfold learn. rewrite Hr, Hs, Hsucc. cbn.
    split; [apply lookup_insert_eq|]. split.
    + intros ty Hne. now apply lookup_insert_ne.
    + intros Hold. now apply map_size_insert_Some.
  - intros Hst. cbn zeta.
    assert (learn i (fixes w0) = fixes w0) as Hlearn
      by (apply learn_not_resolved; now rewrite Hst).
    apply and_assoc. split.
    2: { intros Hfailed.
         destruct (failed_run_keeps_success_flag useAI p i w0 Hp Hfailed)
           as (Hr & Hfx & Hk).
         rewrite Hlearn in Hfx. auto. }
    pose proof (processIncident_summary p i w0 useAI Hp) as Hsum.
    pose proof (chosen_plan_known i useAI (env w0) (ai_calls w0)) as Hknown.
    destruct Hsum as [c t w _ _ Hpass T | r w _ Hd | c r w _ _ Hd
                     | c r w _ _ _ Hd];
      [|destruct Hd as [e w Hunk _ T | t w _ Hpass T | w _ _ T] ..];
      try congruence;
      rewrite Hlearn in T;
      pose proof (tracks_final _ _ _ _ _ _ _ _ T)
        as (Hderef & _ & _ & _ & Hfx & Hpr & _);
      rewrite Hderef, Hfx, Hpr;
      unfold replay; rewrite ?foldl_app; cbn;
      (split; [intros Hres; try discriminate Hres | intros Hne;
               try contradiction]).
    all: try (eexists; split; [|split; [reflexivity | eassumption]]; lia).
    all: split; [reflexivity|]; eexists; repeat split; reflexivity.
Qed.

Lemma fix_cache_written_only_on_verified_success_witness :
  (* storing a resolved incident replaces the entry of its class *)
  fixes resolved_world !! ServiceDown = Some stale_fix /\
  (GetLearnedFix ServiceDown (StoreIncident 1%positive resolved_world).2).1
  = Some (resolution_of restart_plan true) /\
  size (fixes (StoreIncident 1%positive resolved_world).2)
  = size (fixes resolved_world) /\
  (* a run that ends resolved has passed three health requests and has
     learned its resolution *)
  (exists k : nat,
      (probes (example_world restart_plan []) <= k)%nat /\
      probes (after true 1%positive (example_world restart_plan []))
      = (k + 3)%nat /\
      passes3 (env (example_world restart_plan [])) k = true) /\
  (exists r : Resolution,
      Resolution_ (deref 1%positive
                     (after true 1%positive (example_world restart_plan [])))
      = Some r /\
      res_Success r = true /\
      fixes (after true 1%positive (example_world restart_plan []))
      = <[ServiceDown := r]> (fixes (example_world restart_plan []))) /\
  (* a run that ends failed keeps the success flag and learns nothing *)
  (exists r : Resolution,
      Resolution_ (deref 1%positive
                     (after true 1%positive
                        (example_world restart_plan [0%nat]))) = Some r /\
      res_Success r = true) /\
  fixes (after true 1%positive (example_world restart_plan [0%nat]))
  = fixes (example_world restart_plan [0%nat]).
Proof.
  assert (heap resolved_world !! 1%positive
          = Some (deref 1%positive resolved_world)) as Hstored
    by (vm_compute; reflexivity).
  destruct (fix_cache_written_only_on_verified_success true 1%positive
              (deref 1%positive resolved_world) resolved_world Hstored)
    as (Honly & Hput & _).
  assert (fixes (StoreIncident 1%positive resolved_world).2
          <> fixes resolved_world) as Hchanged.
  { intros Heq. apply (f_equal (λ fx, fx !! ServiceDown)) in Heq.
    vm_compute in Heq. discriminate Heq. }
  destruct (Honly Hchanged) as (Hres & r0 & Hr0 & Hs0).
  destruct (Hput (resolution_of restart_plan true) Hres)
    as (Hget & _ & Hsize);
    [vm_compute; reflexivity | reflexivity |].
  split; [vm_compute; reflexivity|].
  split; [exact Hget|].
  split; [apply Hsize; vm_compute; eauto|].
  destruct (fix_cache_written_only_on_verified_success true 1%positive
              (service_down_incident "incident-6")
              (example_world restart_plan []) eq_refl)
    as (_ & _ & Hrun).
  destruct (Hrun eq_refl) as (Hverified & Hlearned & _).
  split; [apply Hverified; vm_compute; reflexivity|].
  split.
  { apply Hlearned. intros Heq.
    apply (f_equal (λ fx, fx !! ServiceDown)) in Heq.
    vm_compute in Heq. discriminate Heq. }
  destruct (fix_cache_written_only_on_verified_success true 1%positive
              (service_down_incident "incident-6")
              (example_world restart_plan [0%nat]) eq_refl)
    as (_ & _ & Hrun').
  destruct (Hrun' eq_refl) as (_ & _ & Hfailed).
  destruct Hfailed as (Hflag & Hfx & _); [vm_compute; reflexivity|].
  split; [exact Hflag | exact Hfx].
Defined.

(** * Further properties *)

(** ** Classification of the states of the service *)

Section TypedClassification.

Lemma prefix_iff (p s : string) :
  String.prefix p s = true <-> exists post : string, s = p +:+ post.
Proof.
  revert s. induction p as [|c p IH]; intros s.
  - destruct s; cbn; (split; [intros _; eexists; reflexivity | reflexivity]).
  - destruct s as [|d s]; cbn [String.prefix].
    + split; [discriminate | intros (post & Hs); discriminate Hs].
    + destruct (Ascii.ascii_dec c d) as [->|Hne].
      * rewrite IH. split; intros (post & Hs); exists post.
        -- rewrite app_String. now f_equal.
        -- rewrite app_String in Hs. now injection Hs.
      * split; [discriminate|]. intros (post & Hs).
        rewrite app_String in Hs. injection Hs as Hc _. congruence.
Qed.

Lemma Contains_occurs (s substr : string) :
  Contains s substr = true <-> occurs substr s.
Proof.
  induction s as [|c s IH]; cbn [Contains]; rewrite orb_true_iff, prefix_iff.
  - split.
    + intros [(post & Hs) | H]; [|discriminate]. now exists "", post.
    + intros (pre & post & Hs). left.
      destruct pre; [now exists post | discriminate Hs].
  - rewrite IH. split.
    + intros [(post & Hs) | (pre & post & Hs)].
      * now exists "", post.
      * exists (String c pre), post. rewrite app_String. now f_equal.
    + intros (pre & post & Hs). destruct pre as [|d pre].
      * left. now exists post.
      * right. rewrite app_String in Hs. injection Hs as _ Hs.
        now exists pre, post.
Qed.

(** The helper of the detector computes what [strings.Contains] does. *)
Lemma contains_Contains (s substr : string) :
  contains s substr = Some (Contains s substr).
Proof.
  destruct (contains_spec s substr) as (b & -> & _ & Hb). f_equal.
  destruct (Contains s substr) eqn:Hc.
  - apply Hb, Contains_occurs, Hc.
  - destruct b; [|reflexivity].
    rewrite <- Hc. symmetry. apply Contains_occurs, Hb. reflexivity.
Qed.

Lemma scanLogs_strings (logs : list string) :
  scanLogs (JString <$> logs) = Some (existsb mentions_resource logs).
Proof.
  induction logs as [|entry logs IH]; [reflexivity|].
  cbn [fmap list_fmap scanLogs existsb]. rewrite !contains_Contains.
  fold (JString <$> logs). rewrite IH. unfold mentions_resource.
  destruct (Contains entry "resource"), (Contains entry "port blocked"),
    (Contains entry "memory"); reflexivity.
Qed.

Lemma is_string_lookup (cfg : gmap string string) (key lit : string) :
  match (JString <$> cfg) !! key with
  | Some v => is_string v lit
  | None => false
  end = bool_decide (cfg !! key = Some lit).
Proof.
  rewrite lookup_fmap. destruct (cfg !! key) as [v|]; cbn.
  - destruct (String.eqb_spec v lit) as [->|Hne].
    + now rewrite bool_decide_eq_true_2.
    + rewrite bool_decide_eq_false_2; [reflexivity | congruence].
  - now rewrite bool_decide_eq_false_2.
Qed.

Lemma handleStatus_lookups (s : ServiceState) :
  handleStatus s !! "running" = Some (JBool (isRunning (core s))) /\
  handleStatus s !! "config" = Some (JObject (JString <$> config (core s))) /\
  handleStatus s !! "recent_logs" = Some (JArray (JString <$> errorLogs s)).
Proof.
  unfold handleStatus. repeat split.
Qed.

Lemma analyzeSymptoms_handleStatus (health : HealthStatus) (s : ServiceState) :
  analyzeSymptoms health (Some (handleStatus s))
  = Some ((classify s).1, base_symptoms health ++ [(classify s).2]).
Proof.
  destruct (handleStatus_lookups s) as (Hrun & Hcfg & Hlogs).
  unfold analyzeSymptoms, classify. cbn [fetchServiceStatus].
  rewrite Hrun, Hcfg, Hlogs.
  pose proof (is_string_lookup (config (core s)) "database_url"
                "invalid::url::format") as H1.
  pose proof (is_string_lookup (config (core s)) "database_url" "") as H2.
  pose proof (is_string_lookup (config (core s)) "database_url"
                "unreachable-host:9999") as H3.
  pose proof (is_string_lookup (config (core s)) "timeout" "not-a-number")
    as H4.
  rewrite <- H1, <- H2, <- H3, <- H4. clear H1 H2 H3 H4.
  rewrite scanLogs_strings, length_fmap.
  assert ((Z.of_nat (length (errorLogs s)) >? 0) = false ->
          existsb mentions_resource (errorLogs s) = false) as Hempty.
  { destruct (errorLogs s); [reflexivity | cbn; discriminate]. }
  destruct ((JString <$> config (core s)) !! "database_url") as [dbURL|];
    destruct ((JString <$> config (core s)) !! "timeout") as [timeout|];
    repeat match goal with
           | |- context [is_string ?v ?lit] => destruct (is_string v lit)
           end;
    cbn [orb andb negb fst snd];
    try reflexivity;
    destruct (isRunning (core s)); cbn [negb]; try reflexivity;
    destruct (Z.of_nat (length (errorLogs s)) >? 0) eqn:Hlen;
    try (rewrite (Hempty eq_refl)); try reflexivity;
    destruct (existsb mentions_resource (errorLogs s)); reflexivity.
Qed.

End TypedClassification.

(** X1. On the document that the status handler of the service writes, the
    detector's classification is the decision procedure read on the typed
    state: configuration rules first (marker or empty database URL, then
    unreachable host, then invalid timeout), then a stopped service, then a
    retained log entry that mentions a resource keyword, else [ServiceDown];
    the symptoms are the two base symptoms followed by the one of the rule
    that fired. *)
Theorem classification_of_service_state
    (health : HealthStatus) (s : ServiceState) :
  analyzeSymptoms health (Some (handleStatus s))
  = Some ((classify s).1, base_symptoms health ++ [(classify s).2]).
Proof. apply analyzeSymptoms_handleStatus. Qed.

(** ** The detector *)

Section DetectorRange.

Lemma analyzeSymptoms_range (health : HealthStatus) (resp : StatusResponse) :
  exists (class : IncidentType) (last : string),
    analyzeSymptoms health resp
    = Some (class, base_symptoms health ++ [last]) /\
    class ∈ declared_classes.
Proof.
  assert (ServiceDown ∈ declared_classes) as H1
    by (unfold declared_classes; rewrite !elem_of_cons; auto).
  assert (ConfigError ∈ declared_classes) as H2
    by (unfold declared_classes; rewrite !elem_of_cons; auto).
  assert (ResourceExhaustion ∈ declared_classes) as H3
    by (unfold declared_classes; rewrite !elem_of_cons; auto).
  assert (DependencyFailure ∈ declared_classes) as H4
    by (unfold declared_classes; rewrite !elem_of_cons; auto).
  unfold analyzeSymptoms. fold (base_symptoms health).
  repeat match goal with
         | |- exists _ _, Some _ = Some _ /\ _ =>
             eexists _, _; split; [reflexivity | assumption]
         | |- context [match scanLogs ?l with _ => _ end] =>
             destruct (scanLogs_total l) as [[] ->]
         | |- context [match ?x with _ => _ end] => destruct x
         | |- context [if ?x then _ else _] => destruct x
         end.
Qed.

End DetectorRange.

(** X2. Whatever the health sample and the answer to the status request,
    the detector's classification returns one of the four declared classes
    together with exactly three symptoms, the status-code line, the message
    of the sample and the symptom of the rule that fired; when the status
    request fails, the class is [ServiceDown]. *)
Theorem classification_range (health : HealthStatus) (resp : StatusResponse) :
  (exists (class : IncidentType) (last : string),
      analyzeSymptoms health resp
      = Some (class, base_symptoms health ++ [last]) /\
      class ∈ declared_classes) /\
  analyzeSymptoms health None
  = Some (ServiceDown,
          base_symptoms health ++ ["Service health check failing"]).
Proof. split; [apply analyzeSymptoms_range | reflexivity]. Qed.

Section DetectorOnService.

Lemma fetchLogs_handleStatus (s : ServiceState) :
  fetchLogs (Some (handleStatus s)) = errorLogs s.
Proof.
  unfold fetchLogs. cbn [fetchServiceStatus].
  destruct (handleStatus_lookups s) as (_ & _ & ->).
  induction (errorLogs s) as [|entry logs IH]; [reflexivity|].
  cbn. f_equal. exact IH.
Qed.

Lemma monitorTick_observe (prev : bool) (now : Z) (uuid : string)
      (s : ServiceState) :
  monitorTick prev (observe now uuid s)
  = Some (if prev && negb (isHealthy (core s))
          then [incident_for now uuid s] else [],
          isHealthy (core s)).
Proof.
  unfold monitorTick, observe, handleHealth. cbn [obs_now obs_health].
  destruct (isHealthy (core s)) eqn:Hh; cbn [negb fst snd checkHealth Healthy].
  - rewrite andb_false_r. now destruct prev.
  - rewrite andb_true_r. destruct prev; [|reflexivity].
    unfold createIncident.
    cbn [obs_status obs_status_logs obs_uuid obs_now].
    rewrite analyzeSymptoms_handleStatus, fetchLogs_handleStatus.
    reflexivity.
Qed.

End DetectorOnService.

(** X3. When the detector observes a service whose two endpoints answer,
    the tick sends an incident exactly if the previous sample was healthy
    and the health flag of the service is off, and the new sample is the
    health flag.  The incident carries the fresh identifier, the time of the
    tick, the status [Detected], the class and the symptom of the typed
    decision procedure, and as logs the log retained by the service. *)
Theorem detection_on_service
    (prev : bool) (now : Z) (uuid : string) (s : ServiceState) :
  monitorTick prev (observe now uuid s)
  = Some (if prev && negb (isHealthy (core s))
          then [incident_for now uuid s] else [],
          isHealthy (core s)).
Proof. apply monitorTick_observe. Qed.

(** ** The service: its log *)

Section ServiceLog.

Lemma addLogs_snoc (es : list (string * string)) (e : string * string)
      (s : ServiceState) :
  addLogs (es ++ [e]) s = addLog e.1 e.2 (addLogs es s).
Proof. unfold addLogs. now rewrite foldl_app. Qed.

Lemma addLog_ring (e : string * string) (s : ServiceState) (all : list string) :
  errorLogs s = drop (length all - Z.to_nat (maxLogs s)) all ->
  Z.of_nat (length (errorLogs s)) <= maxLogs s ->
  errorLogs (addLog e.1 e.2 s)
  = drop (length (all ++ [stamped e]) - Z.to_nat (maxLogs s))
         (all ++ [stamped e]) /\
  Z.of_nat (length (errorLogs (addLog e.1 e.2 s))) <= maxLogs s.
Proof.
  intros Hlogs Hlen. unfold addLog. cbn [errorLogs maxLogs].
  fold (stamped e).
  assert (length (errorLogs s)
          = (length all - (length all - Z.to_nat (maxLogs s)))%nat) as Hl
    by (rewrite Hlogs at 1; apply length_drop).
  rewrite !length_app. cbn [length].
  destruct (Z.gtb_spec (Z.of_nat (length (errorLogs s) + 1)) (maxLogs s))
    as [Hgt | Hle].
  - split.
    + replace (length all + 1 - Z.to_nat (maxLogs s))%nat
        with (length all - Z.to_nat (maxLogs s) + 1)%nat by lia.
      rewrite <- drop_drop, (drop_app_le all) by lia.
      now rewrite <- Hlogs.
    + rewrite length_drop, length_app. cbn [length]. lia.
  - split.
    + replace (length all + 1 - Z.to_nat (maxLogs s))%nat with 0%nat by lia.
      replace (length all - Z.to_nat (maxLogs s))%nat with 0%nat in Hlogs
        by lia.
      cbn [drop] in *. now rewrite Hlogs.
    + rewrite length_app. cbn [length]. lia.
Qed.

Lemma addLogs_ring (es : list (string * string)) (s : ServiceState) :
  Z.of_nat (length (errorLogs s)) <= maxLogs s ->
  errorLogs (addLogs es s)
  = drop (length (errorLogs s ++ (stamped <$> es)) - Z.to_nat (maxLogs s))
         (errorLogs s ++ (stamped <$> es)) /\
  Z.of_nat (length (errorLogs (addLogs es s))) <= maxLogs s /\
  core (addLogs es s) = core s /\
  maxLogs (addLogs es s) = maxLogs s.
Proof.
  intros Hlen. induction es as [|e es IH] using rev_ind.
  - cbn [fmap list_fmap addLogs foldl]. rewrite app_nil_r.
    replace (length (errorLogs s) - Z.to_nat (maxLogs s))%nat with 0%nat
      by lia.
    auto.
  - destruct IH as (Hlogs & Hle & Hcore & Hmax).
    rewrite addLogs_snoc, fmap_app, app_assoc. cbn [fmap list_fmap].
    rewrite <- Hmax in Hlogs, Hle.
    destruct (addLog_ring e (addLogs es s) _ Hlogs Hle) as [H1 H2].
    rewrite Hmax in H1, H2.
    split; [exact H1|]. split; [exact H2|].
    split; [exact Hcore | exact Hmax].
Qed.

Lemma addLog_keeps_new (stamp message : string) (s : ServiceState) :
  1 <= maxLogs s ->
  last (errorLogs (addLog stamp message s))
  = Some ("[" +:+ stamp +:+ "] " +:+ message).
Proof.
  intros Hmax. unfold addLog. cbn [errorLogs].
  destruct (Z.gtb_spec (Z.of_nat (length (errorLogs s ++
              ["[" +:+ stamp +:+ "] " +:+ message]))) (maxLogs s))
    as [Hgt | _]; [|apply last_snoc].
  destruct (errorLogs s) as [|entry logs].
  - cbn [app length] in Hgt. lia.
  - cbn [app drop]. apply last_snoc.
Qed.

Lemma addLog_keeps_old (stamp message : string) (s : ServiceState) :
  Z.of_nat (length (errorLogs s)) < maxLogs s ->
  errorLogs (addLog stamp message s)
  = errorLogs s ++ ["[" +:+ stamp +:+ "] " +:+ message].
Proof.
  intros Hlen. unfold addLog. cbn [errorLogs].
  rewrite length_app. cbn [length].
  destruct (Z.gtb_spec (Z.of_nat (length (errorLogs s) + 1)) (maxLogs s));
    [lia | reflexivity].
Qed.

End ServiceLog.

(** X4. The error log of the service is a ring of [maxLogs] entries: after
    any number of [addLog] calls on a log within its capacity, [GetLogs]
    returns the last [maxLogs] of the old entries followed by the new ones,
    each new one as its time stamp in brackets, a space and the message;
    the log stays within its capacity, and nothing else of the service
    changes. *)
Theorem log_is_ring (es : list (string * string)) (s : ServiceState) :
  Z.of_nat (length (errorLogs s)) <= maxLogs s ->
  let all := errorLogs s ++ (stamped <$> es) in
  GetLogs (addLogs es s) = drop (length all - Z.to_nat (maxLogs s)) all /\
  Z.of_nat (length (GetLogs (addLogs es s))) <= maxLogs s /\
  core (addLogs es s) = core s /\
  maxLogs (addLogs es s) = maxLogs s.
Proof. intros Hlen. apply addLogs_ring, Hlen. Qed.

Lemma log_is_ring_witness :
  let es := [("12:00:00", "first"); ("12:00:01", "second");
             ("12:00:02", "third")] in
  let s := {| core := core NewTargetService; errorLogs := ["[11:59:59] old"];
              maxLogs := 2 |} in
  let all := errorLogs s ++ (stamped <$> es) in
  GetLogs (addLogs es s) = drop (length all - Z.to_nat (maxLogs s)) all /\
  Z.of_nat (length (GetLogs (addLogs es s))) <= maxLogs s /\
  core (addLogs es s) = core s /\
  maxLogs (addLogs es s) = maxLogs s.
Proof.
  apply (log_is_ring
           [("12:00:00", "first"); ("12:00:01", "second");
            ("12:00:02", "third")]
           {| core := core NewTargetService; errorLogs := ["[11:59:59] old"];
              maxLogs := 2 |}).
  cbn. lia.
Defined.

(** ** The service: provoked incidents *)

Section Triggers.

Lemma trigger_crash (ty stamp : string) (s : ServiceState) :
  ty ∈ crash_triggers ->
  handleTriggerIncident ty stamp s
  = (addLog stamp "Service crashed - simulated failure"
       (with_core (set_isHealthy false) s),
     200, "Incident triggered: SERVICE_DOWN" +:+ newline).
Proof.
  unfold crash_triggers. rewrite !elem_of_cons.
  intros [-> | [-> | H]]; [reflexivity..|]. now apply elem_of_nil in H.
Qed.

Lemma trigger_config (ty stamp : string) (s : ServiceState) :
  ty ∈ config_triggers ->
  handleTriggerIncident ty stamp s
  = (addLog stamp "Configuration corrupted - invalid values detected"
       (with_core (λ ts, set_isHealthy false
                           (set_config_entry "timeout" "not-a-number"
                              (set_config_entry "database_url"
                                 "invalid::url::format" ts))) s),
     200, "Incident triggered: CONFIG_ERROR" +:+ newline).
Proof.
  unfold config_triggers. rewrite !elem_of_cons.
  intros [-> | [-> | H]]; [reflexivity..|]. now apply elem_of_nil in H.
Qed.

Lemma trigger_resource (ty stamp : string) (s : ServiceState) :
  ty ∈ resource_triggers ->
  handleTriggerIncident ty stamp s
  = (addLog stamp "Resource exhaustion - port blocked or memory full"
       (with_core (set_isHealthy false) s),
     200, "Incident triggered: RESOURCE_EXHAUSTION" +:+ newline).
Proof.
  unfold resource_triggers. rewrite !elem_of_cons.
  intros [-> | [-> | H]]; [reflexivity..|]. now apply elem_of_nil in H.
Qed.

Lemma trigger_dependency (ty stamp : string) (s : ServiceState) :
  ty ∈ dependency_triggers ->
  handleTriggerIncident ty stamp s
  = (addLog stamp "Database connection failed - unable to reach host"
       (with_core (λ ts, set_isHealthy false
                           (set_config_entry "database_url"
                              "unreachable-host:9999" ts)) s),
     200, "Incident triggered: DEPENDENCY_FAILURE" +:+ newline).
Proof.
  unfold dependency_triggers. rewrite !elem_of_cons.
  intros [-> | [-> | H]]; [reflexivity..|]. now apply elem_of_nil in H.
Qed.

Lemma trigger_unknown (ty stamp : string) (s : ServiceState) :
  ty ∉ trigger_types ->
  (handleTriggerIncident ty stamp s).1 = (s, 400).
Proof.
  unfold trigger_types, crash_triggers, config_triggers, resource_triggers,
    dependency_triggers. cbn [app]. rewrite !not_elem_of_cons.
  intros (H1 & H2 & H3 & H4 & H5 & H6 & H7 & H8 & _).
  unfold handleTriggerIncident.
  repeat match goal with
         | H : ty <> ?lit |- context [String.eqb ty ?lit] =>
             rewrite (proj2 (String.eqb_neq ty lit) H)
         end.
  reflexivity.
Qed.

(** What every accepted trigger does, whatever its kind. *)
Lemma trigger_known (ty stamp : string) (s : ServiceState) :
  ty ∈ trigger_types ->
  (handleTriggerIncident ty stamp s).1.2 = 200 /\
  isHealthy (core (triggered ty stamp s)) = false /\
  isRunning (core (triggered ty stamp s)) = isRunning (core s) /\
  server (core (triggered ty stamp s)) = server (core s) /\
  maxLogs (triggered ty stamp s) = maxLogs s /\
  exists message : string,
    errorLogs (triggered ty stamp s) = errorLogs (addLog stamp message s).
Proof.
  unfold trigger_types, triggered. rewrite !elem_of_app.
  intros [H | [H | [H | H]]];
    [ rewrite (trigger_crash _ _ _ H)
    | rewrite (trigger_config _ _ _ H)
    | rewrite (trigger_resource _ _ _ H)
    | rewrite (trigger_dependency _ _ _ H) ];
    (repeat split; eexists; reflexivity).
Qed.

Lemma unhealthy_answers (now : Z) (stamp : string) (s : ServiceState) :
  isHealthy (core s) = false ->
  handleHealth now s
  = (503, {| Healthy := false; Timestamp := now;
             Message := "Service unhealthy"; StatusCode := 503 |}) /\
  handleAPI stamp s = (503, <["error" := "service unavailable"]> ∅).
Proof. intros H. unfold handleHealth, handleAPI. now rewrite H. Qed.

Lemma append_assoc (p q r : string) : (p +:+ q) +:+ r = p +:+ (q +:+ r).
Proof.
  induction p as [|c p IH]; [reflexivity|].
  rewrite !app_String. now f_equal.
Qed.

Lemma mentions_resource_entry (stamp : string) :
  mentions_resource
    ("[" +:+ stamp +:+ "] "
         +:+ "Resource exhaustion - port blocked or memory full") = true.
Proof.
  unfold mentions_resource. apply orb_true_iff. left.
  apply orb_true_iff. right. apply Contains_occurs.
  exists ("[" +:+ stamp +:+ "] Resource exhaustion - "), " or memory full".
  now rewrite !append_assoc.
Qed.

Lemma classify_in_order (s : ServiceState) :
  config_in_order (config (core s)) ->
  isRunning (core s) = true ->
  classify s
  = if existsb mentions_resource (errorLogs s)
    then (ResourceExhaustion, "Resource exhaustion detected in logs")
    else (ServiceDown, "Service health check failing").
Proof.
  intros (H1 & H2 & H3 & H4) Hr. unfold classify.
  rewrite !bool_decide_eq_false_2 by assumption. now rewrite Hr.
Qed.

Lemma classify_config_trigger (stamp message : string) (s : ServiceState) :
  classify
    (addLog stamp message
       (with_core (λ ts, set_isHealthy false
                           (set_config_entry "timeout" "not-a-number"
                              (set_config_entry "database_url"
                                 "invalid::url::format" ts))) s))
  = (ConfigError, "Invalid database URL configuration detected").
Proof.
  unfold classify.
  cbn [addLog core with_core set_isHealthy set_config_entry config].
  rewrite lookup_insert_ne by discriminate. rewrite lookup_insert_eq.
  reflexivity.
Qed.

Lemma classify_dependency_trigger (stamp message : string) (s : ServiceState) :
  classify
    (addLog stamp message
       (with_core (λ ts, set_isHealthy false
                           (set_config_entry "database_url"
                              "unreachable-host:9999" ts)) s))
  = (DependencyFailure, "Database host unreachable").
Proof.
  unfold classify.
  cbn [addLog core with_core set_isHealthy set_config_entry config].
  rewrite lookup_insert_eq. reflexivity.
Qed.

Lemma existsb_last {A : Type} (f : A -> bool) (l : list A) (x : A) :
  last l = Some x -> f x = true -> existsb f l = true.
Proof.
  intros Hl Hx. apply existsb_exists. exists x. split; [|exact Hx].
  apply list_elem_of_In. rewrite last_lookup in Hl.
  eapply list_elem_of_lookup_2, Hl.
Qed.

End Triggers.

(** X5. A trigger request with one of the eight accepted type names is
    answered with 200, switches the health flag off, so that the health
    endpoint and the data endpoint answer 503 from then on, adds one entry to
    the log, and leaves the running flag as it was.  Any other type name is
    answered with 400 and changes nothing. *)
Theorem trigger_effects
    (ty stamp stamp' : string) (now : Z) (s : ServiceState) :
  if bool_decide (ty ∈ trigger_types) then
    (handleTriggerIncident ty stamp s).1.2 = 200 /\
    (handleHealth now (triggered ty stamp s)).1 = 503 /\
    Healthy (handleHealth now (triggered ty stamp s)).2 = false /\
    (handleAPI stamp' (triggered ty stamp s)).1 = 503 /\
    isRunning (core (triggered ty stamp s)) = isRunning (core s) /\
    exists message : string,
      GetLogs (triggered ty stamp s) = GetLogs (addLog stamp message s)
  else
    (handleTriggerIncident ty stamp s).1 = (s, 400).
Proof.
  destruct (bool_decide_reflect (ty ∈ trigger_types)) as [Hin | Hout].
  - destruct (trigger_known ty stamp s Hin) as (Hc & Hh & Hr & _ & _ & Hl).
    destruct (unhealthy_answers now stamp' _ Hh) as [-> ->].
    repeat split; assumption.
  - apply trigger_unknown, Hout.
Qed.

(** X6. After a configuration trigger or a dependency trigger, the next tick
    of a detector whose previous sample was healthy sends exactly one
    incident, of class [ConfigError] for the former and [DependencyFailure]
    for the latter, whatever the state of the service was before. *)
Theorem config_and_dependency_triggers_detected
    (ty stamp uuid : string) (now : Z) (s : ServiceState) :
  ty ∈ config_triggers ++ dependency_triggers ->
  exists incident : Incident,
    monitorTick true (observe now uuid (triggered ty stamp s))
    = Some ([incident], false) /\
    ID incident = uuid /\
    Status incident = StatusDetected /\
    Type_ incident
    = (if bool_decide (ty ∈ config_triggers) then ConfigError
       else DependencyFailure) /\
    last (Symptoms incident)
    = Some (if bool_decide (ty ∈ config_triggers)
            then "Invalid database URL configuration detected"
            else "Database host unreachable").
Proof.
  intros Hty. exists (incident_for now uuid (triggered ty stamp s)).
  rewrite monitorTick_observe.
  assert (ty ∈ trigger_types) as Hin.
  { unfold trigger_types. rewrite !elem_of_app in *. tauto. }
  destruct (trigger_known ty stamp s Hin) as (_ & -> & _).
  split; [reflexivity|]. split; [reflexivity|]. split; [reflexivity|].
  cbn [incident_for Type_ Symptoms last].
  apply elem_of_app in Hty as [Hc | Hd].
  - rewrite (bool_decide_eq_true_2 _ Hc).
    unfold triggered. rewrite (trigger_config _ _ _ Hc). cbn [fst snd].
    rewrite classify_config_trigger. split; reflexivity.
  - assert (ty ∉ config_triggers) as Hn.
    { unfold config_triggers, dependency_triggers in *.
      rewrite !elem_of_cons in Hd. rewrite !not_elem_of_cons.
      destruct Hd as [-> | [-> | H]]; [..|now apply elem_of_nil in H];
        (repeat split; [discriminate..|apply not_elem_of_nil]). }
    rewrite (bool_decide_eq_false_2 _ Hn).
    unfold triggered. rewrite (trigger_dependency _ _ _ Hd). cbn [fst snd].
    rewrite classify_dependency_trigger. split; reflexivity.
Qed.

Lemma config_and_dependency_triggers_detected_witness :
  exists incident : Incident,
    monitorTick true
      (observe 6 "incident-6" (triggered "dependency" "12:00:00" NewTargetService))
    = Some ([incident], false) /\
    ID incident = "incident-6" /\
    Status incident = StatusDetected /\
    Type_ incident
    = (if bool_decide ("dependency" ∈ config_triggers) then ConfigError
       else DependencyFailure) /\
    last (Symptoms incident)
    = Some (if bool_decide ("dependency" ∈ config_triggers)
            then "Invalid database URL configuration detected"
            else "Database host unreachable").
Proof.
  apply (config_and_dependency_triggers_detected
           "dependency" "12:00:00" "incident-6" 6 NewTargetService).
  unfold config_triggers, dependency_triggers. cbn [app].
  rewrite !elem_of_cons. auto.
Defined.

(** X7. After a resource trigger on a running service whose configuration
    has none of the values that the configuration rules react to, and whose
    log keeps at least one entry, the next tick of a detector whose previous
    sample was healthy sends exactly one incident, of class
    [ResourceExhaustion], and the last log line of the incident is the entry
    that the trigger wrote. *)
Theorem resource_trigger_detected
    (ty stamp uuid : string) (now : Z) (s : ServiceState) :
  ty ∈ resource_triggers ->
  config_in_order (config (core s)) ->
  isRunning (core s) = true ->
  1 <= maxLogs s ->
  exists incident : Incident,
    monitorTick true (observe now uuid (triggered ty stamp s))
    = Some ([incident], false) /\
    Type_ incident = ResourceExhaustion /\
    last (Logs incident)
    = Some ("[" +:+ stamp
                +:+ "] Resource exhaustion - port blocked or memory full").
Proof.
  intros Hty Hcfg Hrun Hmax.
  exists (incident_for now uuid (triggered ty stamp s)).
  rewrite monitorTick_observe.
  unfold triggered. rewrite (trigger_resource _ _ _ Hty). cbn [fst snd].
  set (s' := addLog _ _ _).
  assert (last (errorLogs s')
          = Some ("[" +:+ stamp +:+ "] "
                      +:+ "Resource exhaustion - port blocked or memory full"))
    as Hlast by (apply addLog_keeps_new; exact Hmax).
  split; [reflexivity|]. split; [|exact Hlast].
  cbn [incident_for Type_].
  rewrite (classify_in_order s' Hcfg Hrun).
  now rewrite (existsb_last _ _ _ Hlast (mentions_resource_entry stamp)).
Qed.

Lemma resource_trigger_detected_witness :
  exists incident : Incident,
    monitorTick true
      (observe 6 "incident-6"
         (triggered "resource" "12:00:00"
            (with_core (λ ts, {| isHealthy := true; isRunning := true;
                                 config := config ts; server := true |})
               NewTargetService)))
    = Some ([incident], false) /\
    Type_ incident = ResourceExhaustion /\
    last (Logs incident)
    = Some ("[" +:+ "12:00:00"
                +:+ "] Resource exhaustion - port blocked or memory full").
Proof.
  apply (resource_trigger_detected "resource" "12:00:00" "incident-6" 6
           (with_core (λ ts, {| isHealthy := true; isRunning := true;
                                config := config ts; server := true |})
              NewTargetService)).
  - unfold resource_triggers. rewrite !elem_of_cons. auto.
  - repeat split; vm_compute; discriminate.
  - reflexivity.
  - cbn. lia.
Defined.

(** X8. After a crash trigger on a running service whose configuration has
    none of the values that the configuration rules react to and whose log
    is not full, the incident sent at the next tick is of class
    [ResourceExhaustion] if an entry that the log already held, or the new
    entry, mentions [resource], [port blocked] or [memory], and of class
    [ServiceDown] otherwise: an entry left by an earlier incident decides
    the class of a later crash. *)
Theorem crash_trigger_classification
    (ty stamp uuid : string) (now : Z) (s : ServiceState) :
  ty ∈ crash_triggers ->
  config_in_order (config (core s)) ->
  isRunning (core s) = true ->
  Z.of_nat (length (GetLogs s)) < maxLogs s ->
  exists incident : Incident,
    monitorTick true (observe now uuid (triggered ty stamp s))
    = Some ([incident], false) /\
    Logs incident
    = GetLogs s ++ [stamped (stamp, "Service crashed - simulated failure")] /\
    Type_ incident
    = (if existsb mentions_resource (GetLogs s)
          || mentions_resource
               (stamped (stamp, "Service crashed - simulated failure"))
       then ResourceExhaustion else ServiceDown).
Proof.
  intros Hty Hcfg Hrun Hlen.
  exists (incident_for now uuid (triggered ty stamp s)).
  rewrite monitorTick_observe.
  unfold triggered, GetLogs in *. rewrite (trigger_crash _ _ _ Hty).
  cbn [fst snd].
  pose proof (addLog_keeps_old stamp "Service crashed - simulated failure"
                (with_core (set_isHealthy false) s) Hlen) as Hlogs.
  set (s' := addLog _ _ _) in *.
  split; [reflexivity|]. split; [exact Hlogs|].
  cbn [incident_for Type_]. rewrite (classify_in_order s' Hcfg Hrun), Hlogs.
  cbn [with_core errorLogs]. rewrite existsb_app. cbn [existsb].
  rewrite orb_false_r. unfold stamped. cbn [fst snd].
  now destruct (_ || _).
Qed.

Lemma crash_trigger_classification_witness :
  let s := triggered "resource" "12:00:00"
             (with_core (λ ts, {| isHealthy := true; isRunning := true;
                                  config := config ts; server := true |})
                NewTargetService) in
  exists incident : Incident,
    monitorTick true (observe 9 "incident-9" (triggered "crash" "12:00:03" s))
    = Some ([incident], false) /\
    Logs incident
    = GetLogs s
      ++ [stamped ("12:00:03", "Service crashed - simulated failure")] /\
    Type_ incident
    = (if existsb mentions_resource (GetLogs s)
          || mentions_resource
               (stamped ("12:00:03", "Service crashed - simulated failure"))
       then ResourceExhaustion else ServiceDown).
Proof.
  apply (crash_trigger_classification "crash" "12:00:03" "incident-9" 9
           (triggered "resource" "12:00:00"
              (with_core (λ ts, {| isHealthy := true; isRunning := true;
                                   config := config ts; server := true |})
                 NewTargetService))).
  - unfold crash_triggers. rewrite !elem_of_cons. auto.
  - repeat split; vm_compute; discriminate.
  - reflexivity.
  - vm_compute. reflexivity.
Defined.

(** ** The service: start, stop, restart *)

Section ServiceControl.

Ltac run_service :=
  repeat first
    [ rewrite bind_run
    | progress cbn [ret gets modify now fst snd
                    set_target set_clock set_closes
                    heap writes incidents fixes target clock probes ai_calls
                    closes env isRunning isHealthy config server is_err
                    negb andb orb] ].

Lemma Stop_effect (w : World) :
  isRunning (target (Stop w).2) = false /\
  config (target (Stop w).2) = config (target w) /\
  clock (Stop w).2 = clock w.
Proof.
  unfold Stop, server_Close. run_service.
  destruct (isRunning (target w)) eqn:Hr; run_service; [|auto].
  destruct (server (target w)); run_service; auto.
Qed.

Lemma Start_effect (w : World) :
  isRunning (target w) = false ->
  (Start w).1 = Ok tt /\
  up (target (Start w).2) /\
  config (target (Start w).2) = config (target w) /\
  clock (Start w).2 = clock w + 500.
Proof.
  intros Hr. unfold Start, up, sleep. run_service. rewrite Hr. run_service.
  auto 6.
Qed.

Lemma Restart_effect (w : World) :
  (Restart w).1 = Ok tt /\
  up (target (Restart w).2) /\
  config (target (Restart w).2) = config (target w) /\
  clock (Restart w).2 = clock w + 1500.
Proof.
  unfold Restart. run_service.
  destruct (Stop_effect w) as (Hr & Hc & Ht). rewrite Hr, andb_false_r.
  run_service.
  destruct (Start_effect (sleep 1000 (Stop w).2).2 Hr) as (-> & Hup & -> & ->).
  cbn [sleep modify set_clock snd target clock]. rewrite Hc, Ht.
  split; [reflexivity|]. split; [exact Hup|]. split; [reflexivity | lia].
Qed.

Lemma Start_running (w : World) :
  isRunning (target w) = true ->
  Start w = (Err "service already running", w).
Proof. intros Hr. unfold Start. run_service. now rewrite Hr. Qed.

Lemma Stop_stopped (w : World) :
  isRunning (target w) = false ->
  Stop w = (Err "service not running", w).
Proof. intros Hr. unfold Stop. run_service. now rewrite Hr. Qed.

Lemma Start_runs (w : World) : isRunning (target (Start w).2) = true.
Proof.
  unfold Start. run_service.
  destruct (isRunning (target w)) eqn:Hr; unfold sleep; run_service; auto.
Qed.

Lemma up_IsHealthy (w : World) : up (target w) -> (IsHealthy w).1 = true.
Proof. intros (Hr & Hh & _). unfold IsHealthy. run_service. now rewrite Hr, Hh. Qed.

End ServiceControl.

(** X9. [Restart] never returns an error: from any state of the service,
    stopped or running, and whether or not closing the server fails, it
    leaves the service flagged running and healthy, with a server set and
    the configuration it had, after sleeping one and a half seconds in all,
    and it touches neither the incidents nor the store. *)
Theorem restart_always_brings_service_up (w : World) :
  (Restart w).1 = Ok tt /\
  up (target (Restart w).2) /\
  (IsHealthy (Restart w).2).1 = true /\
  config (target (Restart w).2) = config (target w) /\
  clock (Restart w).2 = clock w + 1500 /\
  store_view (Restart w).2 = store_view w.
Proof.
  destruct (Restart_effect w) as (Hok & Hup & Hcfg & Hclock).
  destruct (Restart_frame w) as [Hview _].
  split; [exact Hok|]. split; [exact Hup|].
  split; [apply up_IsHealthy, Hup|]. auto.
Qed.

(** X10. Starting and stopping are guarded: whatever the state before, a
    second [Start] in a row fails with [service already running] and a
    second [Stop] in a row fails with [service not running], and neither
    changes anything. *)
Theorem start_and_stop_are_guarded (w : World) :
  Start (Start w).2 = (Err "service already running", (Start w).2) /\
  Stop (Stop w).2 = (Err "service not running", (Stop w).2).
Proof.
  split.
  - apply Start_running, Start_runs.
  - apply Stop_stopped, Stop_effect.
Qed.

(** ** The executor *)

Section Executor.

Ltac run_executor :=
  repeat first
    [ rewrite bind_run
    | progress cbn [ret gets modify now fst snd
                    set_target set_clock set_closes
                    heap writes incidents fixes target clock probes ai_calls
                    closes env isRunning isHealthy config server is_err
                    negb andb orb] ].

Lemma executeRestart_effect (steps : list string) (w : World) :
  (executeRestart steps w).1 = Ok tt /\
  up (target (executeRestart steps w).2) /\
  config (target (executeRestart steps w).2) = config (target w).
Proof.
  unfold executeRestart, IsHealthy. run_executor.
  destruct (Stop_effect w) as (Hr & Hc & _).
  destruct (Start_effect (sleep 500 (Stop w).2).2 Hr) as (-> & Hup & Hcfg & _).
  run_executor. split; [reflexivity|].
  destruct (sleep_frame 1000 (Start (sleep 500 (Stop w).2).2).2) as [_ ->].
  split; [exact Hup|].
  rewrite Hcfg. destruct (sleep_frame 500 (Stop w).2) as [_ ->]. exact Hc.
Qed.

Lemma restored_by_restorable (step : string) (kv : string * string) :
  restored_by step = Some kv -> kv ∈ restorable.
Proof.
  unfold restored_by, restorable.
  repeat match goal with
         | |- context [if ?c then _ else _] => destruct c
         end; intros [= <-]; rewrite !elem_of_cons; auto.
Qed.

Lemma applyConfigStep_effect (step : string) (w : World) :
  applyConfigStep step w
  = (Ok tt,
     match restored_by step with
     | Some kv => SetConfig kv.1 kv.2 w
     | None => (tt, w)
     end.2).
Proof.
  unfold applyConfigStep, restored_by.
  repeat match goal with
         | |- context [if ?c then _ else _] => destruct c
         end; reflexivity.
Qed.

Lemma applyConfigStep_config (step : string) (w : World) :
  config (target (applyConfigStep step w).2)
  = match restored_by step with
    | Some kv => <[kv.1 := kv.2]> (config (target w))
    | None => config (target w)
    end.
Proof.
  rewrite applyConfigStep_effect. now destruct (restored_by step).
Qed.

Lemma applyConfigSteps_keys (steps : list string) (w : World) (key : string) :
  config (target (applyConfigSteps steps w).2) !! key
  = config (target w) !! key \/
  exists value : string,
    (key, value) ∈ restorable /\
    config (target (applyConfigSteps steps w).2) !! key = Some value.
Proof.
  revert w. induction steps as [|step rest IH]; intros w; [now left|].
  cbn [applyConfigSteps]. rewrite bind_run.
  destruct (IH (applyConfigStep step w).2) as [Heq | Hres]; [|now right].
  rewrite Heq, applyConfigStep_config.
  destruct (restored_by step) as [[k v]|] eqn:Hstep; [|now left].
  cbn [fst snd]. destruct (decide (k = key)) as [-> | Hne].
  - right. exists v. split; [eapply restored_by_restorable, Hstep|].
    apply lookup_insert_eq.
  - left. now apply lookup_insert_ne.
Qed.

Lemma executeConfigFix_effect (steps : list string) (w : World) :
  (executeConfigFix steps w).1 = Ok tt /\
  up (target (executeConfigFix steps w).2) /\
  config (target (executeConfigFix steps w).2)
  = config (target (applyConfigSteps steps w).2).
Proof.
  unfold executeConfigFix. rewrite bind_run.
  destruct (Restart_effect (applyConfigSteps steps w).2) as (Hok & Hup & Hc & _).
  auto.
Qed.

Lemma allowed_known (fixType : string) :
  fixType ∈ allowed_fix_types <-> known_fix_type fixType = true.
Proof.
  unfold allowed_fix_types, known_fix_type.
  rewrite !elem_of_cons, !orb_true_iff, !String.eqb_eq.
  split; [intros [H | [H | [H | H]]]; auto; now apply elem_of_nil in H|].
  intros [[H | H] | H]; auto.
Qed.

Lemma not_allowed_unknown (fixType : string) :
  fixType ∉ allowed_fix_types ->
  String.eqb fixType "restart" = false /\
  String.eqb fixType "config" = false /\
  String.eqb fixType "code" = false.
Proof.
  unfold allowed_fix_types. rewrite !not_elem_of_cons, !String.eqb_neq. tauto.
Qed.

Lemma apply_known_effect (fixType : string) (steps : list string) (w : World) :
  fixType ∈ allowed_fix_types ->
  let m := if String.eqb fixType "restart" then executeRestart steps
           else if String.eqb fixType "config" then executeConfigFix steps
           else if String.eqb fixType "code" then Restart
           else ret (Err ("unknown fix type: " +:+ fixType)) in
  (m w).1 = Ok tt /\ up (target (m w).2).
Proof.
  intros Hin. apply allowed_known in Hin. unfold known_fix_type in Hin.
  cbn zeta.
  destruct (String.eqb fixType "restart").
  { destruct (executeRestart_effect steps w) as (H1 & H2 & _). auto. }
  destruct (String.eqb fixType "config").
  { destruct (executeConfigFix_effect steps w) as (H1 & H2 & _). auto. }
  destruct (String.eqb fixType "code"); [|discriminate].
  destruct (Restart_effect w) as (H1 & H2 & _). auto.
Qed.

Lemma ExecuteFix_known_effect (incident : loc) (plan : AIResponse) (w : World) :
  ai_FixType plan ∈ allowed_fix_types ->
  (ExecuteFix incident plan w).1 = (resolution_of plan true, Ok tt) /\
  up (target (ExecuteFix incident plan w).2).
Proof.
  intros Hplan.
  destruct (apply_known_effect _ (ai_FixSteps plan) w Hplan) as [Hok Hup].
  cbn zeta in *.
  unfold ExecuteFix, executeCodeFix. rewrite bind_run.
  revert Hok Hup.
  match goal with
  | |- (?m w).1 = _ -> _ => destruct (m w) as [[[]|msg] w']
  end; cbn [fst snd]; [auto | discriminate].
Qed.

End Executor.

(** X11. A fix whose kind is none of [restart], [config] and [code] fails at
    once: [ExecuteFix] returns the resolution with the success flag off
    together with the error [unknown fix type], [ApplyCachedFix] returns the
    same error, and neither has touched the service or anything else. *)
Theorem unknown_fix_kind_fails_fast
    (incident : loc) (plan : AIResponse) (cached : Resolution) (w : World) :
  ai_FixType plan ∉ allowed_fix_types ->
  res_FixType cached ∉ allowed_fix_types ->
  ExecuteFix incident plan w
  = ((resolution_of plan false,
      Err ("unknown fix type: " +:+ ai_FixType plan)), w) /\
  ApplyCachedFix incident cached w
  = (Err ("unknown fix type: " +:+ res_FixType cached), w).
Proof.
  intros Hplan Hcached.
  destruct (not_allowed_unknown _ Hplan) as (H1 & H2 & H3).
  destruct (not_allowed_unknown _ Hcached) as (H4 & H5 & H6).
  unfold ExecuteFix, ApplyCachedFix. rewrite bind_run.
  rewrite H1, H2, H3, H4, H5, H6. split; reflexivity.
Qed.

Lemma unknown_fix_kind_fails_fast_witness :
  let cached := resolution_of reboot_plan true in
  let w := example_world restart_plan [] in
  ExecuteFix 1%positive reboot_plan w
  = ((resolution_of reboot_plan false,
      Err ("unknown fix type: " +:+ ai_FixType reboot_plan)), w) /\
  ApplyCachedFix 1%positive cached w
  = (Err ("unknown fix type: " +:+ res_FixType cached), w).
Proof.
  apply (unknown_fix_kind_fails_fast 1%positive reboot_plan
           (resolution_of reboot_plan true) (example_world restart_plan []));
    unfold allowed_fix_types; rewrite !not_elem_of_cons;
    (repeat split; [discriminate..|apply not_elem_of_nil]).
Defined.

(** X12. A fix of kind [restart], [config] or [code] always applies: from any
    state of the service, [ExecuteFix] returns no error and the resolution
    with the success flag on, [ApplyCachedFix] returns no error, and after
    either the service is flagged running and healthy, with a server set. *)
Theorem known_fix_kind_brings_service_up
    (incident : loc) (plan : AIResponse) (cached : Resolution) (w : World) :
  ai_FixType plan ∈ allowed_fix_types ->
  res_FixType cached ∈ allowed_fix_types ->
  (ExecuteFix incident plan w).1 = (resolution_of plan true, Ok tt) /\
  up (target (ExecuteFix incident plan w).2) /\
  (IsHealthy (ExecuteFix incident plan w).2).1 = true /\
  (ApplyCachedFix incident cached w).1 = Ok tt /\
  up (target (ApplyCachedFix incident cached w).2) /\
  (IsHealthy (ApplyCachedFix incident cached w).2).1 = true.
Proof.
  intros Hplan Hcached.
  destruct (ExecuteFix_known_effect incident plan w Hplan) as [H1 H2].
  destruct (apply_known_effect _ (res_Steps cached) w Hcached) as [Hok' Hup'].
  cbn zeta in *.
  split; [exact H1|]. split; [exact H2|].
  split; [apply up_IsHealthy, H2|].
  unfold ApplyCachedFix.
  split; [exact Hok'|]. split; [exact Hup'|]. apply up_IsHealthy, Hup'.
Qed.

Lemma known_fix_kind_brings_service_up_witness :
  let cached := resolution_of restart_plan true in
  let w := example_world restart_plan [] in
  (ExecuteFix 1%positive restart_plan w).1
  = (resolution_of restart_plan true, Ok tt) /\
  up (target (ExecuteFix 1%positive restart_plan w).2) /\
  (IsHealthy (ExecuteFix 1%positive restart_plan w).2).1 = true /\
  (ApplyCachedFix 1%positive cached w).1 = Ok tt /\
  up (target (ApplyCachedFix 1%positive cached w).2) /\
  (IsHealthy (ApplyCachedFix 1%positive cached w).2).1 = true.
Proof.
  apply (known_fix_kind_brings_service_up 1%positive restart_plan
           (resolution_of restart_plan true) (example_world restart_plan []));
    unfold allowed_fix_types; rewrite !elem_of_cons; auto.
Defined.

(** X13. A configuration fix can only restore: a step never fails and sets
    at most one setting, and after [executeConfigFix], whatever the steps
    say, every setting either has the value it had before or is one of
    [database_url], [timeout] and [max_retries] with its value
    [localhost:5432], [30s] and [3]; the service is then restarted. *)
Theorem config_fix_only_restores_known_values
    (step : string) (steps : list string) (w : World) (key : string) :
  (applyConfigStep step w).1 = Ok tt /\
  (config (target (applyConfigStep step w).2) = config (target w) \/
   exists setting value : string,
     (setting, value) ∈ restorable /\
     config (target (applyConfigStep step w).2)
     = <[setting := value]> (config (target w))) /\
  (executeConfigFix steps w).1 = Ok tt /\
  up (target (executeConfigFix steps w).2) /\
  (config (target (executeConfigFix steps w).2) !! key
   = config (target w) !! key \/
   exists value : string,
     (key, value) ∈ restorable /\
     config (target (executeConfigFix steps w).2) !! key = Some value).
Proof.
  split; [now rewrite applyConfigStep_effect|]. split.
  { rewrite applyConfigStep_config.
    destruct (restored_by step) as [[k v]|] eqn:Hstep; [|now left].
    right. exists k, v. split; [|reflexivity].
    eapply restored_by_restorable, Hstep. }
  destruct (executeConfigFix_effect steps w) as (Hok & Hup & Hcfg).
  split; [exact Hok|]. split; [exact Hup|].
  rewrite Hcfg. apply applyConfigSteps_keys.
Qed.

(** ** The rule-based plans and the configuration *)

Section RuleBasedPlans.

Lemma applyConfigSteps_config (steps : list string) (w : World) :
  config (target (applyConfigSteps steps w).2)
  = foldl (λ cfg step, match restored_by step with
                       | Some kv => <[kv.1 := kv.2]> cfg
                       | None => cfg
                       end) (config (target w)) steps.
Proof.
  revert w. induction steps as [|step rest IH]; intros w; [reflexivity|].
  cbn [applyConfigSteps foldl]. rewrite bind_run, IH.
  now rewrite applyConfigStep_config.
Qed.

Lemma ExecuteFix_restart (p : loc) (plan : AIResponse) (w : World) :
  ai_FixType plan = "restart" ->
  config (target (ExecuteFix p plan w).2) = config (target w).
Proof.
  intros Hk. unfold ExecuteFix. rewrite bind_run, Hk.
  change (String.eqb "restart" "restart") with true. cbn iota.
  destruct (executeRestart_effect (ai_FixSteps plan) w) as (Hok & _ & Hcfg).
  destruct (executeRestart (ai_FixSteps plan) w) as [[[]|msg] w'];
    cbn [fst snd] in *; [exact Hcfg | discriminate].
Qed.

Lemma ExecuteFix_config (p : loc) (plan : AIResponse) (w : World) :
  ai_FixType plan = "config" ->
  config (target (ExecuteFix p plan w).2)
  = config (target (applyConfigSteps (ai_FixSteps plan) w).2).
Proof.
  intros Hk. unfold ExecuteFix. rewrite bind_run, Hk.
  change (String.eqb "config" "restart") with false.
  change (String.eqb "config" "config") with true. cbn iota.
  destruct (executeConfigFix_effect (ai_FixSteps plan) w) as (Hok & _ & Hcfg).
  destruct (executeConfigFix (ai_FixSteps plan) w) as [[[]|msg] w'];
    cbn [fst snd] in *; [exact Hcfg | discriminate].
Qed.

Lemma rule_based_config (p : loc) (i : Incident) (w : World) :
  config (target (ExecuteFix p (GetQuickAnalysis i) w).2)
  = config_after_rule_based_plan i (config (target w)).
Proof.
  unfold GetQuickAnalysis, config_after_rule_based_plan.
  destruct (String.eqb (Type_ i) ServiceDown);
    [now apply ExecuteFix_restart|].
  destruct (String.eqb (Type_ i) ConfigError).
  { rewrite ExecuteFix_config by reflexivity.
    rewrite applyConfigSteps_config. cbn [ai_FixSteps foldl].
    replace (restored_by "Restore database_url to 'localhost:5432'")
      with (Some ("database_url", "localhost:5432"))
      by (vm_compute; reflexivity).
    replace (restored_by "Reset timeout to '30s'")
      with (Some ("timeout", "30s")) by (vm_compute; reflexivity).
    replace (restored_by "Restart service to apply changes")
      with (@None (string * string)) by (vm_compute; reflexivity).
    reflexivity. }
  destruct (String.eqb (Type_ i) DependencyFailure).
  { rewrite ExecuteFix_config by reflexivity.
    rewrite applyConfigSteps_config. cbn [ai_FixSteps foldl].
    replace (restored_by "Update database_url to valid host")
      with (@None (string * string)) by (vm_compute; reflexivity).
    replace (restored_by "Verify database is running")
      with (@None (string * string)) by (vm_compute; reflexivity).
    replace (restored_by "Restart service to reconnect")
      with (@None (string * string)) by (vm_compute; reflexivity).
    reflexivity. }
  destruct (String.eqb (Type_ i) ResourceExhaustion);
    now apply ExecuteFix_restart.
Qed.

End RuleBasedPlans.

(** X14. Executing the rule-based plan of an incident always succeeds and
    leaves the service running and healthy, but it repairs the configuration
    for the class [ConfigError] only, where [database_url] and [timeout] get
    their default values.  For every other class the configuration is left
    as it is: the steps of the plan for [DependencyFailure] name no value
    that [applyConfigStep] recognises, so a [database_url] that points to
    the unreachable host still does after the fix. *)
Theorem rule_based_plan_and_configuration
    (p : loc) (i : Incident) (w : World) :
  let plan := GetQuickAnalysis i in
  let w' := (ExecuteFix p plan w).2 in
  (ExecuteFix p plan w).1 = (resolution_of plan true, Ok tt) /\
  (IsHealthy w').1 = true /\
  config (target w')
  = (if String.eqb (Type_ i) ConfigError
     then <["timeout" := "30s"]>
            (<["database_url" := "localhost:5432"]> (config (target w)))
     else config (target w)).
Proof.
  cbn zeta.
  assert (ai_FixType (GetQuickAnalysis i) ∈ allowed_fix_types) as Hk
    by apply GetQuickAnalysis_well_formed.
  destruct (ExecuteFix_known_effect p (GetQuickAnalysis i) w Hk) as (Hr & Hup).
  split; [exact Hr|]. split; [apply up_IsHealthy, Hup|].
  rewrite rule_based_config. unfold config_after_rule_based_plan.
  destruct (String.eqb_spec (Type_ i) ServiceDown) as [-> | _]; reflexivity.
Qed.

(** ** The store *)

Section StoreQueries.

Lemma StoreIncident_incidents (p : loc) (w : World) :
  incidents (StoreIncident p w).2 = <[ID (deref p w) := p]> (incidents w) /\
  heap (StoreIncident p w).2 = heap w /\
  writes (StoreIncident p w).2 = writes w.
Proof.
  unfold StoreIncident. rewrite !bind_run. cbn [gets fst snd].
  destruct (Resolution_ (deref p w)) as [r|]; [|auto].
  destruct (_ && _); auto.
Qed.

Lemma GetIncident_found (id : string) (p : loc) (w : World) :
  incidents w !! id = Some p -> GetIncident id w = (Ok p, w).
Proof.
  intros H. unfold GetIncident. rewrite bind_run. cbn [gets fst snd].
  now rewrite H.
Qed.

Lemma GetIncident_missing (id : string) (w : World) :
  incidents w !! id = None ->
  GetIncident id w = (Err ("incident not found: " +:+ id), w).
Proof.
  intros H. unfold GetIncident. rewrite bind_run. cbn [gets fst snd].
  now rewrite H.
Qed.

Lemma GetIncident_lookup (id : string) (w w' : World) :
  incidents w' !! id = incidents w !! id ->
  (GetIncident id w').1 = (GetIncident id w).1.
Proof.
  intros H. unfold GetIncident. rewrite !bind_run. cbn [gets fst snd].
  rewrite H. now destruct (incidents w !! id).
Qed.

Lemma UpdateIncidentStatus_known
      (id : string) (status : IncidentStatus) (p : loc) (w : World) :
  incidents w !! id = Some p ->
  (UpdateIncidentStatus id status w).2
  = if String.eqb status StatusResolved
    then (write p (WResolvedAt (clock w)) (write p (WStatus status) w).2).2
    else (write p (WStatus status) w).2.
Proof.
  intros H. unfold UpdateIncidentStatus. rewrite bind_run.
  cbn [gets fst snd]. rewrite H, !bind_run.
  destruct (String.eqb status StatusResolved); reflexivity.
Qed.

Lemma with_status_writes (status : IncidentStatus) (t : Z) (i : Incident) :
  with_status status t i
  = if String.eqb status StatusResolved
    then apply_write (WResolvedAt t) (apply_write (WStatus status) i)
    else apply_write (WStatus status) i.
Proof.
  unfold with_status. destruct (String.eqb status StatusResolved);
    [reflexivity | now destruct i].
Qed.

Lemma alter_Some (f : Incident -> Incident) (p : loc)
      (m : gmap loc Incident) (x : Incident) :
  m !! p = Some x -> alter f p m = <[p := f x]> m.
Proof.
  intros H. apply map_eq. intros q. destruct (decide (p = q)) as [-> | Hne].
  - now rewrite lookup_alter_eq, lookup_insert_eq, H.
  - now rewrite lookup_alter_ne, lookup_insert_ne.
Qed.

End StoreQueries.

(** X15. The store keeps the incident object, not a copy of it: after
    [StoreIncident], [GetIncident] returns the very object under its
    identifier and answers as before for every other identifier, and a
    later assignment to a field of the object is seen through the store. *)
Theorem stored_incident_is_retrievable
    (p : loc) (i : Incident) (id : string) (fw : FieldWrite) (w : World) :
  heap w !! p = Some i ->
  id <> ID i ->
  let w1 := (StoreIncident p w).2 in
  let w2 := (write p fw w1).2 in
  GetIncident (ID i) w1 = (Ok p, w1) /\
  (GetIncident id w1).1 = (GetIncident id w).1 /\
  GetIncident (ID i) w2 = (Ok p, w2) /\
  deref p w2 = apply_write fw i.
Proof.
  intros Hp Hne. cbn zeta.
  destruct (StoreIncident_incidents p w) as (Hi & Hh & _).
  assert (deref p w = i) as Hd by (unfold deref; now rewrite Hp).
  rewrite Hd in Hi.
  split; [apply GetIncident_found; rewrite Hi; apply lookup_insert_eq|].
  split.
  { apply GetIncident_lookup. rewrite Hi. apply lookup_insert_ne.
    congruence. }
  split.
  - apply GetIncident_found.
    change (incidents (write p fw (StoreIncident p w).2).2)
      with (incidents (StoreIncident p w).2).
    rewrite Hi. apply lookup_insert_eq.
  - unfold deref.
    change (heap (write p fw (StoreIncident p w).2).2)
      with (alter (apply_write fw) p (heap (StoreIncident p w).2)).
    rewrite Hh, lookup_alter_eq, Hp. reflexivity.
Qed.

Lemma stored_incident_is_retrievable_witness :
  let w := example_world restart_plan [] in
  let i := service_down_incident "incident-6" in
  let w1 := (StoreIncident 1%positive w).2 in
  let w2 := (write 1%positive (WStatus StatusAnalyzing) w1).2 in
  GetIncident (ID i) w1 = (Ok 1%positive, w1) /\
  (GetIncident "incident-60" w1).1 = (GetIncident "incident-60" w).1 /\
  GetIncident (ID i) w2 = (Ok 1%positive, w2) /\
  deref 1%positive w2 = apply_write (WStatus StatusAnalyzing) i.
Proof.
  apply (stored_incident_is_retrievable 1%positive
           (service_down_incident "incident-6") "incident-60"
           (WStatus StatusAnalyzing) (example_world restart_plan []));
    [reflexivity | discriminate].
Defined.

(** X16. For an identifier that the store does not hold, [GetIncident] and
    [UpdateIncidentStatus] both return the error [incident not found] and
    change nothing. *)
Theorem unknown_identifier_is_an_error
    (id : string) (status : IncidentStatus) (w : World) :
  incidents w !! id = None ->
  GetIncident id w = (Err ("incident not found: " +:+ id), w) /\
  UpdateIncidentStatus id status w
  = (Err ("incident not found: " +:+ id), w).
Proof.
  intros H. split; [now apply GetIncident_missing|].
  unfold UpdateIncidentStatus. rewrite bind_run. cbn [gets fst snd].
  now rewrite H.
Qed.

Lemma unknown_identifier_is_an_error_witness :
  let w := example_world restart_plan [] in
  GetIncident "incident-6" w
  = (Err ("incident not found: " +:+ "incident-6"), w) /\
  UpdateIncidentStatus "incident-6" StatusResolved w
  = (Err ("incident not found: " +:+ "incident-6"), w).
Proof.
  apply (unknown_identifier_is_an_error "incident-6" StatusResolved
           (example_world restart_plan [])).
  reflexivity.
Defined.

(** X17. For an identifier that the store holds, [UpdateIncidentStatus] sets
    the status of the stored object, stamps it with the time of the call
    exactly when the new status is [RESOLVED], and leaves every other field,
    every other object, the index of the incidents and the learned fixes as
    they are: marking an incident resolved this way teaches no fix. *)
Theorem status_update_reaches_stored_object
    (id : string) (status : IncidentStatus) (p : loc) (i : Incident)
    (w : World) :
  incidents w !! id = Some p ->
  heap w !! p = Some i ->
  let w' := (UpdateIncidentStatus id status w).2 in
  heap w' = <[p := with_status status (clock w) i]> (heap w) /\
  incidents w' = incidents w /\
  fixes w' = fixes w /\
  target w' = target w.
Proof.
  intros Hid Hp. cbn zeta.
  rewrite (UpdateIncidentStatus_known _ _ _ _ Hid), with_status_writes.
  destruct (String.eqb status StatusResolved);
    cbn [write modify set_writes set_heap heap incidents fixes target fst snd];
    (split; [|auto]).
  - rewrite (alter_Some (apply_write (WStatus status)) _ _ _ Hp).
    rewrite (alter_Some _ _ _ (apply_write (WStatus status) i))
      by apply lookup_insert_eq.
    apply insert_insert_eq.
  - exact (alter_Some (apply_write (WStatus status)) p (heap w) i Hp).
Qed.

Lemma status_update_reaches_stored_object_witness :
  let w := (StoreIncident 1%positive (example_world restart_plan [])).2 in
  let i := service_down_incident "incident-6" in
  let w' := (UpdateIncidentStatus "incident-6" StatusResolved w).2 in
  heap w' = <[1%positive := with_status StatusResolved (clock w) i]> (heap w) /\
  incidents w' = incidents w /\
  fixes w' = fixes w /\
  target w' = target w.
Proof.
  apply (status_update_reaches_stored_object "incident-6" StatusResolved
           1%positive (service_down_incident "incident-6")
           (StoreIncident 1%positive (example_world restart_plan [])).2);
    reflexivity.
Defined.

Section Statistics.

Lemma count_where_snoc (f : Incident -> bool) (l : list Incident)
      (x : Incident) :
  count_where f (l ++ [x]) = count_where f l + (if f x then 1 else 0).
Proof.
  unfold count_where. rewrite List.filter_app, length_app. cbn [List.filter].
  destruct (f x); cbn [length]; lia.
Qed.

Lemma count_where_nonneg (f : Incident -> bool) (l : list Incident) :
  0 <= count_where f l.
Proof. unfold count_where. lia. Qed.

Lemma foldl_countIncident_snoc (acc : Counters) (l : list Incident)
      (x : Incident) :
  foldl countIncident acc (l ++ [x])
  = countIncident (foldl countIncident acc l) x.
Proof. now rewrite foldl_app. Qed.

Lemma countIncident_statuses (acc : Counters) (x : Incident) :
  exists r f : Z,
    (if has_status StatusResolved x then 1 else 0) = r /\
    (if has_status StatusFailed x then 1 else 0) = f /\
    resolvedCount (countIncident acc x) = resolvedCount acc + r /\
    failedCount (countIncident acc x) = failedCount acc + f /\
    0 <= r /\ 0 <= f /\ r + f <= 1.
Proof.
  unfold countIncident, has_status.
  destruct (String.eqb_spec (Status x) StatusResolved) as [Hs | Hs].
  - rewrite Hs. change (String.eqb StatusResolved StatusFailed) with false.
    exists 1, 0. cbn [resolvedCount failedCount]. repeat split; lia.
  - destruct (String.eqb (Status x) StatusFailed);
      [exists 0, 1 | exists 0, 0];
      cbn [resolvedCount failedCount]; repeat split; lia.
Qed.

Lemma counted_statuses (l : list Incident) :
  let counted :=
    foldl countIncident
          {| resolvedCount := 0; failedCount := 0; typeCount := ∅ |} l in
  resolvedCount counted = count_where (has_status StatusResolved) l /\
  failedCount counted = count_where (has_status StatusFailed) l /\
  resolvedCount counted + failedCount counted <= Z.of_nat (length l).
Proof.
  cbn zeta. induction l as [|x l IH] using rev_ind.
  - cbn. unfold count_where. cbn. lia.
  - destruct IH as (Hr & Hf & Hle).
    rewrite foldl_countIncident_snoc, !count_where_snoc, length_app.
    cbn [length].
    destruct (countIncident_statuses
                (foldl countIncident
                   {| resolvedCount := 0; failedCount := 0; typeCount := ∅ |}
                   l) x)
      as (r & f & -> & -> & -> & -> & H0 & H1 & H2).
    lia.
Qed.

Lemma countIncident_typeCount (acc : Counters) (x : Incident) :
  typeCount (countIncident acc x)
  = <[Type_ x := default 0 (typeCount acc !! Type_ x) + 1]> (typeCount acc).
Proof.
  unfold countIncident.
  destruct (String.eqb (Status x) StatusResolved); [reflexivity|].
  destruct (String.eqb (Status x) StatusFailed); reflexivity.
Qed.

Lemma counted_types (l : list Incident) (ty : IncidentType) :
  typeCount
    (foldl countIncident
           {| resolvedCount := 0; failedCount := 0; typeCount := ∅ |} l)
    !! ty
  = if count_where (has_type ty) l =? 0 then None
    else Some (count_where (has_type ty) l).
Proof.
  induction l as [|x l IH] using rev_ind; [reflexivity|].
  rewrite foldl_countIncident_snoc, countIncident_typeCount,
    count_where_snoc.
  pose proof (count_where_nonneg (has_type ty) l) as Hnn.
  unfold has_type at 2 4.
  destruct (String.eqb_spec (Type_ x) ty) as [Hty | Hty].
  - rewrite Hty, lookup_insert_eq. rewrite <- Hty at 1.
    rewrite Hty, IH.
    destruct (Z.eqb_spec (count_where (has_type ty) l) 0) as [-> | Hne].
    + reflexivity.
    + destruct (Z.eqb_spec (count_where (has_type ty) l + 1) 0); [lia|].
      reflexivity.
  - rewrite lookup_insert_ne by exact Hty. rewrite IH, Z.add_0_r.
    reflexivity.
Qed.

Lemma GetStats_run (w : World) :
  GetStats w
  = ({| total_incidents := Z.of_nat (length (stored_incidents w));
        resolved :=
          resolvedCount
            (foldl countIncident
                   {| resolvedCount := 0; failedCount := 0; typeCount := ∅ |}
                   (stored_incidents w));
        failed :=
          failedCount
            (foldl countIncident
                   {| resolvedCount := 0; failedCount := 0; typeCount := ∅ |}
                   (stored_incidents w));
        learned_fixes := Z.of_nat (size (fixes w));
        incidents_by_type :=
          typeCount
            (foldl countIncident
                   {| resolvedCount := 0; failedCount := 0; typeCount := ∅ |}
                   (stored_incidents w));
        available_fix_types := (map_to_list (fixes w)).*1 |}, w).
Proof.
  unfold GetStats, GetAllIncidents, getFixTypes, stored_incidents.
  rewrite !bind_run. cbn [gets ret fst snd]. now rewrite !length_fmap.
Qed.

Lemma stored_incidents_length (w : World) :
  length (stored_incidents w) = size (incidents w).
Proof.
  unfold stored_incidents. now rewrite !length_fmap, length_map_to_list.
Qed.

End Statistics.

(** X18. The statistics of the store are exact counts and reading them
    changes nothing: the total is the number of identifiers held, [resolved]
    and [failed] are the numbers of stored incidents whose status is
    [RESOLVED] and [FAILED], the table by class has an entry exactly for the
    classes with at least one stored incident and gives their number,
    [learned_fixes] is the number of classes with a fix and the fix types
    listed are those classes, each once; in particular resolved and failed
    incidents together never exceed the total. *)
Theorem stats_are_exact_counts (w : World) (ty : IncidentType) :
  let stats := (GetStats w).1 in
  (GetStats w).2 = w /\
  total_incidents stats = Z.of_nat (size (incidents w)) /\
  resolved stats = count_where (has_status StatusResolved) (stored_incidents w) /\
  failed stats = count_where (has_status StatusFailed) (stored_incidents w) /\
  resolved stats + failed stats <= total_incidents stats /\
  incidents_by_type stats !! ty
  = (if count_where (has_type ty) (stored_incidents w) =? 0 then None
     else Some (count_where (has_type ty) (stored_incidents w))) /\
  learned_fixes stats = Z.of_nat (size (fixes w)) /\
  NoDup (available_fix_types stats) /\
  (ty ∈ available_fix_types stats <-> is_Some (fixes w !! ty)).
Proof.
  cbn zeta. rewrite GetStats_run.
  cbn [fst snd total_incidents resolved failed incidents_by_type learned_fixes
       available_fix_types].
  destruct (counted_statuses (stored_incidents w)) as (Hr & Hf & Hle).
  cbn zeta in *.
  split; [reflexivity|].
  split; [now rewrite stored_incidents_length|].
  split; [exact Hr|]. split; [exact Hf|]. split; [exact Hle|].
  split; [apply counted_types|]. split; [reflexivity|].
  split; [apply NoDup_fst_map_to_list|].
  rewrite list_elem_of_fmap. split.
  - intros ([k r] & -> & Hin). apply elem_of_map_to_list in Hin.
    cbn [fst]. now exists r.
  - intros [r Hr']. exists (ty, r). split; [reflexivity|].
    now apply elem_of_map_to_list.
Qed.

(** X19. [Clear] empties the store and nothing else: afterwards no
    identifier is found, no class has a learned fix, and every count of the
    statistics is zero, while the incident objects and the service are as
    they were. *)
Theorem clear_forgets_everything
    (w : World) (id : string) (ty : IncidentType) :
  let w' := (Clear w).2 in
  GetIncident id w' = (Err ("incident not found: " +:+ id), w') /\
  (GetLearnedFix ty w').1 = None /\
  (HasLearnedFix ty w').1 = false /\
  (GetStats w').1
  = {| total_incidents := 0; resolved := 0; failed := 0; learned_fixes := 0;
       incidents_by_type := ∅; available_fix_types := [] |} /\
  heap w' = heap w /\
  target w' = target w.
Proof.
  cbn zeta. split; [now apply GetIncident_missing|].
  split; [reflexivity|]. split; [reflexivity|].
  split; [|split; reflexivity].
  rewrite GetStats_run. unfold stored_incidents, Clear.
  rewrite !bind_run.
  cbn [modify set_incidents set_fixes incidents fixes fst snd].
  rewrite !map_to_list_empty. reflexivity.
Qed.

(** ** Processing an incident: what every run has in common *)

Section ProcessingFacts.

Lemma used3_bounds (e : Env) (k : nat) : (1 <= used3 e k <= 3)%nat.
Proof.
  unfold used3. destruct (probe_ok e k 0), (probe_ok e k 1); lia.
Qed.

Lemma apply_write_identity (fw : FieldWrite) (i : Incident) :
  identity_of (apply_write fw i) = identity_of i.
Proof. now destruct fw. Qed.

Lemma replay_identity (fws : list FieldWrite) (i : Incident) :
  identity_of (replay fws i) = identity_of i.
Proof.
  induction fws as [|fw fws IH] using rev_ind; [reflexivity|].
  now rewrite replay_snoc, apply_write_identity.
Qed.

Lemma fresh_learn (i : Incident) (fx : gmap string Resolution) :
  fresh i -> learn i fx = fx.
Proof. intros (Hs & _). apply learn_not_resolved. now rewrite Hs. Qed.

Context (p : loc) (i : Incident) (w0 : World) (useAI : bool).

Ltac run_cases H :=
  destruct H as [c t w' Hc Hk Hpass T | r' w' Hc Hd | c r' w' Hc Hk Hd
                | c r' w' Hc Hk Hpass Hd];
  [|destruct Hd as [e w' Hn _ T | t w' _ Hpass' T | w' _ Hpass' T] ..];
  try match goal with
      | Hunknown : known_fix_type (ai_FixType (chosen_plan _ _ _ _)) = false
        |- _ => rewrite chosen_plan_known in Hunknown; discriminate Hunknown
      end.

Lemma processed_effort r w :
  processed p i w0 useAI r w ->
  r = Ok tt /\
  (probes w0 + 1 <= probes w <= probes w0 + 6)%nat /\
  (ai_calls w0 <= ai_calls w <= ai_calls w0 + if useAI then 1 else 0)%nat /\
  exists fws : list FieldWrite,
    heap w = <[p := replay fws i]> (heap w0) /\
    incidents w = <[ID i := p]> (incidents w0) /\
    env w = env w0.
Proof.
  intros H. run_cases H;
    pose proof (tr_probes _ _ _ _ _ _ _ _ T) as Hp;
    pose proof (tr_ai _ _ _ _ _ _ _ _ T) as Ha;
    pose proof (used3_bounds (env w0) (probes w0));
    pose proof (used3_bounds (env w0)
                  (probes w0 + used3 (env w0) (probes w0)));
    (split; [reflexivity|]); (split; [lia|]);
    (split; [destruct useAI; lia|]);
    eexists; (split; [exact (tr_heap _ _ _ _ _ _ _ _ T)|]);
    (split; [exact (tr_incidents _ _ _ _ _ _ _ _ T)
            | exact (tr_env _ _ _ _ _ _ _ _ T)]).
Qed.

Lemma processed_fixes r w :
  processed p i w0 useAI r w ->
  fixes w = learn i (fixes w0) \/
  exists res : Resolution,
    fixes w = <[Type_ i := res]> (learn i (fixes w0)) /\
    res_FixType res ∈ allowed_fix_types /\
    res_Success res = true.
Proof.
  intros H. run_cases H;
    pose proof (tr_fixes _ _ _ _ _ _ _ _ T) as Hf;
    first [ now left
          | right; eexists; split; [exact Hf|]; split; [|reflexivity];
            apply known_fix_type_allowed, chosen_plan_known ].
Qed.

Lemma processed_record r w :
  fresh i ->
  processed p i w0 useAI r w ->
  final_record (deref p w)
               (bool_decide (is_Some (fixes w0 !! Type_ i)))
               (fixes w0 !! Type_ i).
Proof.
  intros Hfresh H. pose proof Hfresh as (Hs & Ht & Hd' & Hr & Hu).
  unfold final_record.
  run_cases H;
    rewrite (fresh_learn i _ Hfresh) in Hc;
    rewrite (tracks_deref _ _ _ _ _ _ _ _ T);
    rewrite Hc;
    first [ rewrite bool_decide_eq_true_2 by (eexists; reflexivity)
          | rewrite bool_decide_eq_false_2 by (intros [? [=]]) ];
    unfold replay; cbn [app diagnosis_writes foldl apply_write
                        UsedCachedFix Status ResolvedAt Resolution_];
    rewrite ?Hu, ?Ht;
    (split; [reflexivity|]);
    (split; [first [now left | now right]|]);
    (split; [split; [first [intros _; reflexivity | intros [? [=]]]
                    | intros Heq; first [discriminate Heq | now eexists]]|]);
    eexists; (split; [reflexivity|]);
    first [ left; reflexivity | right; split; reflexivity ].
Qed.

End ProcessingFacts.

Section Handling.

Lemma createIncident_fresh (health : HealthStatus) (o : Observation)
      (i : Incident) :
  createIncident health o = Some i -> fresh i.
Proof.
  unfold createIncident.
  destruct (analyzeSymptoms health (obs_status o)) as [[ty sy]|];
    [|discriminate].
  intros [= <-]. repeat split.
Qed.

Lemma after_effort (useAI : bool) (p : loc) (i : Incident) (w0 : World) :
  heap w0 !! p = Some i ->
  (processIncident useAI p w0).1 = Ok tt /\
  (probes w0 + 1 <= probes (after useAI p w0) <= probes w0 + 6)%nat /\
  (ai_calls w0 <= ai_calls (after useAI p w0)
   <= ai_calls w0 + if useAI then 1 else 0)%nat /\
  exists fws : list FieldWrite,
    heap (after useAI p w0) = <[p := replay fws i]> (heap w0) /\
    incidents (after useAI p w0) = <[ID i := p]> (incidents w0) /\
    env (after useAI p w0) = env w0.
Proof.
  intros Hp. apply (processed_effort p i w0 useAI).
  now apply processIncident_summary.
Qed.

Lemma after_dom (useAI : bool) (p : loc) (i : Incident) (w0 : World) :
  heap w0 !! p = Some i ->
  dom (heap (after useAI p w0)) = dom (heap w0).
Proof.
  intros Hp.
  destruct (after_effort useAI p i w0 Hp) as (_ & _ & _ & fws & Hh & _).
  rewrite Hh, dom_insert_L. apply elem_of_dom_2 in Hp.
  apply subseteq_union_1_L, singleton_subseteq_l, Hp.
Qed.

Lemma after_frame (useAI : bool) (p q : loc) (i : Incident) (w0 : World) :
  heap w0 !! p = Some i -> q <> p ->
  heap (after useAI p w0) !! q = heap w0 !! q.
Proof.
  intros Hp Hne.
  destruct (after_effort useAI p i w0 Hp) as (_ & _ & _ & fws & Hh & _).
  rewrite Hh. now apply lookup_insert_ne.
Qed.

Lemma handleIncidents_cons (useAI : bool) (p : loc) (ps : list loc)
      (w : World) :
  after_all useAI (p :: ps) w = after_all useAI ps (after useAI p w).
Proof. unfold after_all. cbn [handleIncidents]. now rewrite bind_run. Qed.

Lemma allocated_after (useAI : bool) (p : loc) (ps : list loc) (w : World) :
  allocated w (p :: ps) -> allocated (after useAI p w) ps.
Proof.
  unfold allocated. intros Hall.
  inversion Hall as [|? ? [i Hp] Hrest]; subst.
  eapply Forall_impl; [exact Hrest|]. cbn beta. intros q Hq.
  apply elem_of_dom. rewrite (after_dom useAI p i w Hp).
  now apply elem_of_dom.
Qed.

Lemma after_all_effort (useAI : bool) (ps : list loc) (w0 : World) :
  allocated w0 ps ->
  (probes w0 + length ps <= probes (after_all useAI ps w0)
   <= probes w0 + 6 * length ps)%nat /\
  (ai_calls w0 <= ai_calls (after_all useAI ps w0)
   <= ai_calls w0 + if useAI then length ps else 0)%nat /\
  dom (heap (after_all useAI ps w0)) = dom (heap w0).
Proof.
  revert w0. induction ps as [|p ps IH]; intros w0 Hall.
  { unfold after_all. cbn. destruct useAI; repeat split; lia. }
  rewrite handleIncidents_cons.
  pose proof (allocated_after useAI p ps w0 Hall) as Hrest.
  inversion Hall as [|? ? [i Hp] _]; subst.
  destruct (IH _ Hrest) as (Hpr & Hai & Hdom).
  destruct (after_effort useAI p i w0 Hp) as (_ & Hpr1 & Hai1 & _).
  rewrite Hdom, (after_dom useAI p i w0 Hp). cbn [length].
  split; [lia|]. split; [destruct useAI; lia | reflexivity].
Qed.

Lemma after_fixes_in_order (useAI : bool) (p : loc) (i : Incident)
      (w0 : World) :
  heap w0 !! p = Some i -> fresh i ->
  fixes_in_order (fixes w0) ->
  fixes_in_order (fixes (after useAI p w0)) /\
  dom (fixes w0) ⊆ dom (fixes (after useAI p w0)).
Proof.
  intros Hp Hfresh Hord.
  pose proof (processIncident_summary p i w0 useAI Hp) as Hsum.
  apply processed_fixes in Hsum. rewrite (fresh_learn i _ Hfresh) in Hsum.
  destruct Hsum as [-> | (res & -> & Hk & Hs)]; [auto|]. split.
  - intros ty r. destruct (decide (Type_ i = ty)) as [<- | Hne].
    + rewrite lookup_insert_eq. intros [= <-]. auto.
    + rewrite lookup_insert_ne by exact Hne. apply Hord.
  - rewrite dom_insert_L. apply union_subseteq_r.
Qed.

Lemma fresh_at_after (useAI : bool) (p : loc) (ps : list loc) (w : World) :
  NoDup (p :: ps) -> Forall (fresh_at w) (p :: ps) ->
  Forall (fresh_at (after useAI p w)) ps.
Proof.
  intros Hnd Hall. apply NoDup_cons in Hnd as [Hnotin _].
  inversion Hall as [|? ? (i & Hp & _) Hrest]; subst.
  apply Forall_forall. intros q Hq.
  rewrite Forall_forall in Hrest. destruct (Hrest q Hq) as (j & Hj & Hfj).
  exists j. split; [|exact Hfj].
  rewrite (after_frame useAI p q i w Hp); [exact Hj|].
  intros ->. contradiction.
Qed.

Lemma after_all_fixes_in_order (useAI : bool) (ps : list loc) (w0 : World) :
  NoDup ps -> Forall (fresh_at w0) ps ->
  fixes_in_order (fixes w0) ->
  fixes_in_order (fixes (after_all useAI ps w0)) /\
  dom (fixes w0) ⊆ dom (fixes (after_all useAI ps w0)).
Proof.
  revert w0. induction ps as [|p ps IH]; intros w0 Hnd Hall Hord.
  { unfold after_all. cbn. auto. }
  rewrite handleIncidents_cons.
  pose proof (fresh_at_after useAI p ps w0 Hnd Hall) as Hrest.
  inversion Hall as [|? ? (i & Hp & Hfresh) _]; subst.
  destruct (after_fixes_in_order useAI p i w0 Hp Hfresh Hord) as [Hord1 Hdom1].
  apply NoDup_cons in Hnd as [_ Hnd].
  destruct (IH _ Hnd Hrest Hord1) as [Hord2 Hdom2].
  split; [exact Hord2|]. etrans; [exact Hdom1 | exact Hdom2].
Qed.

End Handling.

(** X20. Handling incidents takes a bounded effort: for incident objects
    that are allocated, processing them one after the other makes at least
    one and at most six health requests per incident and at most one
    request to the diagnosis source per incident, none at all when the
    diagnosis source is switched off, and neither creates nor drops an
    incident object. *)
Theorem handling_effort_is_bounded
    (useAI : bool) (ps : list loc) (w0 : World) :
  allocated w0 ps ->
  let w := after_all useAI ps w0 in
  (probes w0 + length ps <= probes w <= probes w0 + 6 * length ps)%nat /\
  (ai_calls w0 <= ai_calls w
   <= ai_calls w0 + if useAI then length ps else 0)%nat /\
  dom (heap w) = dom (heap w0).
Proof. intros Hall. now apply after_all_effort. Qed.

Lemma handling_effort_is_bounded_witness :
  let w0 := example_world restart_plan [3%nat] in
  let ps := [1%positive; 2%positive] in
  let w := after_all true ps w0 in
  (probes w0 + length ps <= probes w <= probes w0 + 6 * length ps)%nat /\
  (ai_calls w0 <= ai_calls w <= ai_calls w0 + length ps)%nat /\
  dom (heap w) = dom (heap w0).
Proof.
  apply (handling_effort_is_bounded true [1%positive; 2%positive]
           (example_world restart_plan [3%nat])).
  repeat constructor; eexists; reflexivity.
Defined.

(** X21. Processing an incident never returns an error and touches only
    that incident: every other incident object is left as it is, the
    identifier, the class, the time of detection, the symptoms and the logs
    of the incident are never assigned, the incident is registered in the
    store under its identifier, and the other identifiers of the store
    answer as before. *)
Theorem processing_touches_only_its_incident
    (useAI : bool) (p q : loc) (i : Incident) (id : string) (w0 : World) :
  heap w0 !! p = Some i ->
  q <> p ->
  id <> ID i ->
  let w := after useAI p w0 in
  (processIncident useAI p w0).1 = Ok tt /\
  heap w !! q = heap w0 !! q /\
  identity_of (deref p w) = identity_of i /\
  GetIncident (ID i) w = (Ok p, w) /\
  (GetIncident id w).1 = (GetIncident id w0).1.
Proof.
  intros Hp Hq Hid. cbn zeta.
  destruct (after_effort useAI p i w0 Hp) as (Hr & _ & _ & fws & Hh & Hi & _).
  split; [exact Hr|]. split; [now apply (after_frame useAI p q i)|].
  split.
  { unfold deref. rewrite Hh, lookup_insert_eq. apply replay_identity. }
  split.
  - apply GetIncident_found. rewrite Hi. apply lookup_insert_eq.
  - apply GetIncident_lookup. rewrite Hi. now apply lookup_insert_ne.
Qed.

Lemma processing_touches_only_its_incident_witness :
  let w0 := example_world restart_plan [] in
  let i := service_down_incident "incident-6" in
  let w := after true 1%positive w0 in
  (processIncident true 1%positive w0).1 = Ok tt /\
  heap w !! 2%positive = heap w0 !! 2%positive /\
  identity_of (deref 1%positive w) = identity_of i /\
  GetIncident (ID i) w = (Ok 1%positive, w) /\
  (GetIncident "incident-60" w).1 = (GetIncident "incident-60" w0).1.
Proof.
  apply (processing_touches_only_its_incident true 1%positive 2%positive
           (service_down_incident "incident-6") "incident-60"
           (example_world restart_plan []));
    [reflexivity | discriminate | discriminate].
Defined.

(** X22. The learned fixes stay applicable: if every learned fix has one of
    the kinds [restart], [config], [code] and carries the success flag,
    this is still so after any number of distinct incidents, each as the
    detector builds it, have been handled, and no class loses its fix. *)
Theorem learned_fixes_stay_applicable
    (useAI : bool) (ps : list loc) (w0 : World) :
  NoDup ps ->
  Forall (fresh_at w0) ps ->
  fixes_in_order (fixes w0) ->
  fixes_in_order (fixes (after_all useAI ps w0)) /\
  dom (fixes w0) ⊆ dom (fixes (after_all useAI ps w0)).
Proof. intros Hnd Hall Hord. now apply after_all_fixes_in_order. Qed.

Lemma learned_fixes_stay_applicable_witness :
  let w0 := example_world restart_plan [3%nat] in
  fixes_in_order (fixes (after_all true [1%positive; 2%positive] w0)) /\
  dom (fixes w0) ⊆ dom (fixes (after_all true [1%positive; 2%positive] w0)).
Proof.
  apply (learned_fixes_stay_applicable true [1%positive; 2%positive]
           (example_world restart_plan [3%nat])).
  - apply NoDup_cons. split; [|apply NoDup_singleton].
    rewrite list_elem_of_singleton. discriminate.
  - repeat constructor; eexists; (split; [reflexivity | repeat split]).
  - intros ty r Hlook. cbn in Hlook. rewrite lookup_empty in Hlook.
    discriminate.
Defined.

(** X23. The record that a run leaves of an incident built by the detector:
    the flag [UsedCachedFix] is on exactly when the store held a fix for the
    class when the run began, the status is [RESOLVED] or [FAILED], the time
    of resolution is set exactly when the status is [RESOLVED], and a
    resolution is attached in either case; its success flag is on, also for
    a failed incident, unless it is the cached fix that resolved the
    incident. *)
Theorem processed_incident_record
    (useAI : bool) (health : HealthStatus) (o : Observation)
    (p : loc) (i : Incident) (w0 : World) :
  createIncident health o = Some i ->
  heap w0 !! p = Some i ->
  final_record (deref p (after useAI p w0))
               (bool_decide (is_Some (fixes w0 !! Type_ i)))
               (fixes w0 !! Type_ i).
Proof.
  intros Hcreated Hp.
  apply (processed_record p i w0 useAI (processIncident useAI p w0).1).
  - eapply createIncident_fresh, Hcreated.
  - now apply processIncident_summary.
Qed.

Lemma processed_incident_record_witness :
  let w0 := example_world restart_plan [] in
  let i := service_down_incident "incident-6" in
  final_record (deref 1%positive (after true 1%positive w0))
               (bool_decide (is_Some (fixes w0 !! Type_ i)))
               (fixes w0 !! Type_ i).
Proof.
  apply (processed_incident_record true
           (checkHealth 6 (obs_health (tick_at 6 false)))
           {| obs_now := 6; obs_health := obs_health (tick_at 6 false);
              obs_status := obs_status (tick_at 6 false);
              obs_status_logs := obs_status_logs (tick_at 6 false);
              obs_uuid := "incident-6" |}
           1%positive (service_down_incident "incident-6")
           (example_world restart_plan [])).
  - vm_compute. reflexivity.
  - vm_compute. reflexivity.
Defined.

(** ** The plan of the analysis phase *)

Section PlanChoice.

Lemma analyze_run (useAI : bool) (p : loc) (i : Incident) (w0 : World) :
  heap w0 !! p = Some i ->
  (analyze useAI p w0).1 = chosen_plan i useAI (env w0) (ai_calls w0) /\
  ai_calls (analyze useAI p w0).2
  = (ai_calls w0 + if useAI then 1 else 0)%nat /\
  store_view (analyze useAI p w0).2
  = store_view (set_ai_calls (λ a, a + if useAI then 1 else 0)%nat w0).
Proof.
  intros Hp.
  assert (deref p w0 = i) as Hd by (unfold deref; now rewrite Hp).
  unfold analyze, callAnalyzeIncident, chosen_plan.
  destruct useAI.
  - rewrite !bind_run. cbn [gets modify ret fst snd].
    destruct (AnalyzeIncident (chat_answers (env w0) (ai_calls w0)));
      rewrite ?bind_run; cbn [gets modify ret fst snd set_ai_calls ai_calls];
      unfold deref in *; cbn [heap set_ai_calls]; rewrite ?Hd;
      (split; [reflexivity|]); (split; [lia|]);
      unfold store_view; cbn; repeat f_equal; lia.
  - rewrite bind_run. cbn [gets ret fst snd]. rewrite Hd.
    split; [reflexivity|]. split; [lia|].
    unfold store_view. cbn. repeat f_equal; lia.
Qed.

Lemma plan_recorded (useAI : bool) (p : loc) (i : Incident) (w0 : World) :
  heap w0 !! p = Some i ->
  let w := after useAI p w0 in
  let plan := chosen_plan i useAI (env w0) (ai_calls w0) in
  ai_calls w = ai_calls w0 \/
  (ai_calls w = (ai_calls w0 + if useAI then 1 else 0)%nat /\
   Diagnosis (deref p w) = ai_Diagnosis plan /\
   Resolution_ (deref p w) = Some (resolution_of plan true)).
Proof.
  intros Hp. cbn zeta.
  pose proof (processIncident_summary p i w0 useAI Hp) as Hsum.
  pose proof (chosen_plan_known i useAI (env w0) (ai_calls w0)) as Hknown.
  destruct Hsum as [c t w _ _ _ T | r w _ Hd | c r w _ _ Hd | c r w _ _ _ Hd];
    [left; now destruct T | ..];
    (destruct Hd as [e w Hunk _ T | t w _ _ T | w _ _ T];
     [congruence | ..]);
    right; apply tracks_final in T;
    destruct T as (Hderef & _ & _ & _ & _ & _ & Hai & _);
    rewrite Hderef, Hai; unfold replay; rewrite ?foldl_app; cbn;
    repeat split; reflexivity.
Qed.

Lemma no_answer_is_err (reply : ChatCompletion) :
  no_answer reply -> is_err (AnalyzeIncident reply) = true.
Proof. destruct reply as [err| |[response|e]]; cbn; auto. Qed.

End PlanChoice.

(** X24. A well-formed answer of the diagnosis source is adopted as it is:
    [AnalyzeIncident] returns it unchanged, it is the plan of the analysis
    phase, which has made one request, and whenever processing the incident
    reaches the diagnosis source, the diagnosis recorded on the incident is
    that of the answer and the resolution is built from it, with the success
    flag on. *)
Theorem well_formed_answer_is_adopted
    (response : AIResponse) (p : loc) (i : Incident) (w0 : World) :
  well_formed_plan response ->
  heap w0 !! p = Some i ->
  chat_answers (env w0) (ai_calls w0) = ChatContent (Ok response) ->
  AnalyzeIncident (ChatContent (Ok response)) = Ok response /\
  (analyze true p w0).1 = response /\
  ai_calls (analyze true p w0).2 = S (ai_calls w0) /\
  (let w := after true p w0 in
   ai_calls w = ai_calls w0 \/
   (ai_calls w = S (ai_calls w0) /\
    Diagnosis (deref p w) = ai_Diagnosis response /\
    Resolution_ (deref p w) = Some (resolution_of response true))).
Proof.
  intros Hwf Hp Hchat.
  assert (AnalyzeIncident (ChatContent (Ok response)) = Ok response) as Hana.
  { cbn [AnalyzeIncident]. now rewrite (parseResponse_accepts _ Hwf). }
  assert (chosen_plan i true (env w0) (ai_calls w0) = response) as Hplan.
  { unfold chosen_plan. now rewrite Hchat, Hana. }
  destruct (analyze_run true p i w0 Hp) as (Hr & Ha & _).
  pose proof (plan_recorded true p i w0 Hp) as Hrec. cbn zeta in Hrec.
  rewrite Hplan in Hr, Hrec.
  split; [exact Hana|]. split; [exact Hr|]. split; [rewrite Ha; lia|].
  cbn zeta. destruct Hrec as [H | (H1 & H2 & H3)]; [now left|].
  right. split; [rewrite H1; lia|]. now split.
Qed.

Lemma well_formed_answer_is_adopted_witness :
  let w0 := example_world restart_plan [] in
  AnalyzeIncident (ChatContent (Ok restart_plan)) = Ok restart_plan /\
  (analyze true 1%positive w0).1 = restart_plan /\
  ai_calls (analyze true 1%positive w0).2 = S (ai_calls w0) /\
  (let w := after true 1%positive w0 in
   ai_calls w = ai_calls w0 \/
   (ai_calls w = S (ai_calls w0) /\
    Diagnosis (deref 1%positive w) = ai_Diagnosis restart_plan /\
    Resolution_ (deref 1%positive w)
    = Some (resolution_of restart_plan true))).
Proof.
  apply (well_formed_answer_is_adopted restart_plan 1%positive
           (service_down_incident "incident-6")
           (example_world restart_plan [])).
  - unfold well_formed_plan, allowed_fix_types. cbn.
    split; [discriminate|]. split; [|discriminate].
    rewrite !elem_of_cons. auto.
  - reflexivity.
  - reflexivity.
Defined.

(** X25. When the diagnosis source gives no usable document, because the
    request fails, the reply has no choice or its content cannot be decoded,
    [AnalyzeIncident] returns an error and the analysis phase settles on the
    rule-based plan of the class; the request still counts.  When the
    diagnosis source is switched off, the analysis phase takes the
    rule-based plan without any request and changes nothing. *)
Theorem no_answer_falls_back_to_rule_based_plan
    (p : loc) (i : Incident) (w0 : World) :
  heap w0 !! p = Some i ->
  no_answer (chat_answers (env w0) (ai_calls w0)) ->
  is_err (AnalyzeIncident (chat_answers (env w0) (ai_calls w0))) = true /\
  (analyze true p w0).1 = GetQuickAnalysis i /\
  ai_calls (analyze true p w0).2 = S (ai_calls w0) /\
  analyze false p w0 = (GetQuickAnalysis i, w0) /\
  (let w := after true p w0 in
   ai_calls w = ai_calls w0 \/
   (ai_calls w = S (ai_calls w0) /\
    Diagnosis (deref p w) = ai_Diagnosis (GetQuickAnalysis i) /\
    Resolution_ (deref p w)
    = Some (resolution_of (GetQuickAnalysis i) true))).
Proof.
  intros Hp Hno. pose proof (no_answer_is_err _ Hno) as Herr.
  assert (chosen_plan i true (env w0) (ai_calls w0) = GetQuickAnalysis i)
    as Hplan by now apply chosen_plan_fallback.
  destruct (analyze_run true p i w0 Hp) as (Hr & Ha & _).
  pose proof (plan_recorded true p i w0 Hp) as Hrec. cbn zeta in Hrec.
  rewrite Hplan in Hr, Hrec.
  split; [exact Herr|]. split; [exact Hr|]. split; [rewrite Ha; lia|].
  split.
  { unfold analyze. rewrite bind_run. cbn [gets ret fst snd].
    unfold deref. now rewrite Hp. }
  cbn zeta. destruct Hrec as [H | (H1 & H2 & H3)]; [now left|].
  right. split; [rewrite H1; lia|]. now split.
Qed.

Lemma no_answer_falls_back_to_rule_based_plan_witness :
  let w0 := silent_world restart_plan in
  let i := service_down_incident "incident-6" in
  is_err (AnalyzeIncident (chat_answers (env w0) (ai_calls w0))) = true /\
  (analyze true 1%positive w0).1 = GetQuickAnalysis i /\
  ai_calls (analyze true 1%positive w0).2 = S (ai_calls w0) /\
  analyze false 1%positive w0 = (GetQuickAnalysis i, w0) /\
  (let w := after true 1%positive w0 in
   ai_calls w = ai_calls w0 \/
   (ai_calls w = S (ai_calls w0) /\
    Diagnosis (deref 1%positive w) = ai_Diagnosis (GetQuickAnalysis i) /\
    Resolution_ (deref 1%positive w)
    = Some (resolution_of (GetQuickAnalysis i) true))).
Proof.
  apply (no_answer_falls_back_to_rule_based_plan 1%positive
           (service_down_incident "incident-6") (silent_world restart_plan)).
  - reflexivity.
  - exact I.
Defined.

(** ** The pace of the verification *)

Section Pace.

Lemma VerifyResolution_run (w : World) :
  VerifyResolution w
  = (answer_healthy (health_answers (env w) (probes w)), set_probes S w).
Proof.
  unfold VerifyResolution. rewrite !bind_run. cbn [gets now modify ret fst snd].
  now rewrite checkHealth_healthy.
Qed.

Lemma verifyResolution_loop_clock (n : nat) (i : Z) (w : World) :
  0 <= i ->
  clock (verifyResolution_loop n i w).2
  = clock w + 1000 * Z.of_nat (used (env w) (probes w) n)
    - (if (i >? 0) || (n =? 0)%nat then 0 else 1000).
Proof.
  revert i w. induction n as [|n IH]; intros i w Hi.
  - cbn. rewrite orb_true_r. lia.
  - cbn [verifyResolution_loop used Nat.eqb]. rewrite orb_false_r, !bind_run.
    set (w1 := ((if i >? 0 then sleep 1000 else ret tt) w).2).
    assert (env w1 = env w /\ probes w1 = probes w /\
            clock w1 = clock w + if i >? 0 then 1000 else 0)
      as (He & Hp & Hc)
      by (subst w1; destruct (i >? 0); cbn; repeat split; lia).
    clearbody w1.
    rewrite VerifyResolution_run. cbn [fst snd]. rewrite He, Hp.
    destruct (answer_healthy (health_answers (env w) (probes w))).
    + rewrite IH by lia. cbn [set_probes env probes clock].
      rewrite He, Hp, Hc.
      destruct (Z.gtb_spec (i + 1) 0) as [_ | Hle]; [|lia].
      cbn [orb]. rewrite Nat2Z.inj_succ. destruct (i >? 0); lia.
    + cbn [ret fst snd set_probes clock]. rewrite Hc.
      destruct (i >? 0); lia.
Qed.

End Pace.

(** X26. The verification sleeps one second before every health request
    but the first: in all it sleeps one second less than the number of
    requests it makes, two seconds at most, and apart from the clock and the
    count of the requests it changes nothing. *)
Theorem verification_is_paced (w : World) :
  let w' := (verifyResolution w).2 in
  clock w' = clock w + 1000 * (Z.of_nat (probes w' - probes w) - 1) /\
  clock w <= clock w' <= clock w + 2000 /\
  verify_view w' = verify_view w.
Proof.
  cbn zeta. destruct (verifyResolution_spec w) as (_ & Hp & Hv).
  pose proof (verifyResolution_loop_clock 3 0 w (Z.le_refl 0)) as Hc.
  fold verifyResolution in Hc. cbn [orb Z.gtb Z.compare Nat.eqb] in Hc.
  assert (used (env w) (probes w) 3 = used3 (env w) (probes w)) as Hu.
  { unfold used3, probe_ok. cbn [used]. rewrite !Nat.add_0_r.
    replace (probes w + 1)%nat with (S (probes w)) by lia.
    repeat match goal with
           | |- context [if ?c then _ else _] => destruct c
           end; reflexivity. }
  rewrite Hu in Hc. rewrite Hp, Hc.
  pose proof (used3_bounds (env w) (probes w)).
  split; [lia|]. split; [lia | exact Hv].
Qed.

(** ** A service that cannot be reached *)

Section Unreachable.

Lemma monitorTick_unreachable (prev : bool) (o : Observation) (err : string) :
  obs_health o = HealthGetError err ->
  obs_status o = None ->
  obs_status_logs o = None ->
  monitorTick prev o
  = Some (if prev
          then [ {| ID := obs_uuid o; Type_ := ServiceDown;
                    Status := StatusDetected; DetectedAt := obs_now o;
                    ResolvedAt := None;
                    Symptoms := [ "Health check returned status code: 0";
                                  "Health check failed: " +:+ err;
                                  "Service health check failing" ];
                    Logs := []; Diagnosis := ""; Resolution_ := None;
                    UsedCachedFix := false |} ]
          else [], false).
Proof.
  intros Hh Hs Hl. unfold monitorTick, createIncident.
  rewrite Hh, Hs, Hl. now destruct prev.
Qed.

Lemma monitorLoop_from_unreachable (ticks : list Observation) :
  Forall unreachable ticks -> monitorLoop_from false ticks = Some [].
Proof.
  induction 1 as [|o ticks (err & Hh & Hs & Hl) _ IH]; [reflexivity|].
  cbn [monitorLoop_from].
  rewrite (monitorTick_unreachable false o err Hh Hs Hl), IH. reflexivity.
Qed.

End Unreachable.

(** X27. While the service cannot be reached at all, the monitor sends one
    incident and no more: at the first tick, with the class [ServiceDown],
    the status code 0, the error of the request as its message, and no log
    line; the ticks that follow send nothing, however many there are. *)
Theorem unreachable_service_gives_one_incident
    (first : Observation) (ticks : list Observation) (err : string) :
  obs_health first = HealthGetError err ->
  Forall unreachable (first :: ticks) ->
  monitorLoop (first :: ticks)
  = Some [ {| ID := obs_uuid first; Type_ := ServiceDown;
              Status := StatusDetected; DetectedAt := obs_now first;
              ResolvedAt := None;
              Symptoms := [ "Health check returned status code: 0";
                            "Health check failed: " +:+ err;
                            "Service health check failing" ];
              Logs := []; Diagnosis := ""; Resolution_ := None;
              UsedCachedFix := false |} ].
Proof.
  intros Hh Hall. inversion Hall as [|? ? (err' & Hh' & Hs & Hl) Hrest]; subst.
  unfold monitorLoop. cbn [monitorLoop_from].
  rewrite (monitorTick_unreachable true first err Hh Hs Hl).
  now rewrite (monitorLoop_from_unreachable ticks Hrest).
Qed.

Lemma unreachable_service_gives_one_incident_witness :
  monitorLoop [unreachable_tick 0; unreachable_tick 3; unreachable_tick 6]
  = Some [ {| ID := obs_uuid (unreachable_tick 0); Type_ := ServiceDown;
              Status := StatusDetected;
              DetectedAt := obs_now (unreachable_tick 0);
              ResolvedAt := None;
              Symptoms := [ "Health check returned status code: 0";
                            "Health check failed: " +:+ "connection refused";
                            "Service health check failing" ];
              Logs := []; Diagnosis := ""; Resolution_ := None;
              UsedCachedFix := false |} ].
Proof.
  apply (unreachable_service_gives_one_incident (unreachable_tick 0)
           [unreachable_tick 3; unreachable_tick 6] "connection refused").
  - reflexivity.
  - repeat constructor; exists "connection refused"; repeat split.
Defined.
